(** * SQLite-Playground: the root view (App.tsx) and the navigation bar
      (Navbar.tsx), embedded shallowly.

    The application is a React view over two external libraries.  The embedded
    SQL engine (sql.js) is not part of the repository: it appears here as an
    interface ([SqlJs]) whose operations may throw and may change the engine's
    state.  React state is a record; an event handler is a function from
    that record to what it returns or throws, the record it leaves, and the
    effects it has on the outside world, in order (engine calls, console,
    alerts, downloads). *)

From Stdlib Require Import Ascii String QArith Qcanon.
From stdpp Require Import base numbers strings list gmap pretty.

(** ** JavaScript values *)

Module Js.

(** A JS number: a finite value, an infinity or NaN.  Finite values are
    exact rationals: rounding of [+] and [/] is not modelled, and neither is
    the sign of zero (a zero divisor is read as [+0], which is what a
    window dimension is when it is zero). *)
Inductive number : Type :=
| Finite (q : Qc)
| PosInfinity
| NegInfinity
| NaN.

Definition neg (a : number) : number :=
  match a with
  | Finite q => Finite (- q)
  | PosInfinity => NegInfinity
  | NegInfinity => PosInfinity
  | NaN => NaN
  end.

Definition add (a b : number) : number :=
  match a, b with
  | NaN, _ | _, NaN => NaN
  | Finite x, Finite y => Finite (x + y)
  | PosInfinity, NegInfinity | NegInfinity, PosInfinity => NaN
  | PosInfinity, _ | _, PosInfinity => PosInfinity
  | NegInfinity, _ | _, NegInfinity => NegInfinity
  end.

Definition sub (a b : number) : number := add a (neg b).

Definition is_neg (q : Qc) : bool := bool_decide (q < 0)%Qc.
Definition is_zero (q : Qc) : bool := bool_decide (q = 0)%Qc.

Definition div (a b : number) : number :=
  match a, b with
  | NaN, _ | _, NaN => NaN
  | Finite x, Finite y =>
      if is_zero y then
        if is_zero x then NaN
        else if is_neg x then NegInfinity else PosInfinity
      else Finite (x / y)
  | Finite _, (PosInfinity | NegInfinity) => Finite 0
  | (PosInfinity | NegInfinity), (PosInfinity | NegInfinity) => NaN
  | PosInfinity, Finite y => if is_neg y then NegInfinity else PosInfinity
  | NegInfinity, Finite y => if is_neg y then PosInfinity else NegInfinity
  end.

(** [Math.min] and [Math.max] of two arguments: NaN if either is NaN. *)
Definition Math_min (a b : number) : number :=
  match a, b with
  | NaN, _ | _, NaN => NaN
  | NegInfinity, _ | _, NegInfinity => NegInfinity
  | PosInfinity, x | x, PosInfinity => x
  | Finite x, Finite y => if bool_decide (x ≤ y)%Qc then Finite x else Finite y
  end.

Definition Math_max (a b : number) : number :=
  match a, b with
  | NaN, _ | _, NaN => NaN
  | PosInfinity, _ | _, PosInfinity => PosInfinity
  | NegInfinity, x | x, NegInfinity => x
  | Finite x, Finite y => if bool_decide (x ≤ y)%Qc then Finite y else Finite x
  end.

(** The values that flow through the view: what the engine puts in a cell
    ([string | number | null | Uint8Array]) and [undefined], which reading
    an array past its end gives. *)
Inductive value : Type :=
| VString (s : string)
| VNumber (n : number)
| VNull
| VUint8Array (bytes : list Byte.byte)
| VUndefined.

(** What is not modelled of the host: decoding bytes as text and printing a
    number.  Both are total functions of their argument. *)
Class Host := {
  TextDecoder_decode : list Byte.byte → string;
  Number_toString : number → string;
}.

(** [arr[i]]: [undefined] out of range. *)
Definition index (arr : list value) (i : nat) : value :=
  default VUndefined (arr !! i).

(** [Array.prototype.join]. *)
Fixpoint join (sep : string) (xs : list string) : string :=
  match xs with
  | [] => ""
  | [x] => x
  | x :: rest => x +:+ sep +:+ join sep rest
  end.

(** [String(v)], also what a template literal and a property key make of
    a value. *)
Definition String `{Host} (v : value) : string :=
  match v with
  | VString s => s
  | VNumber n => Number_toString n
  | VNull => "null"
  | VUint8Array bytes => join "," (map (λ b, pretty (Byte.to_N b)) bytes)
  | VUndefined => "undefined"
  end.

(** [Boolean(v)]. *)
Definition Boolean (v : value) : bool :=
  match v with
  | VString s => negb (String.eqb s "")
  | VNumber (Finite q) => negb (is_zero q)
  | VNumber NaN => false
  | VNumber _ => true
  | VNull | VUndefined => false
  | VUint8Array _ => true
  end.

(** What a [throw] carries: an [Error] with its message, or any other
    value, of which only [String(v)] is ever used. *)
Inductive thrown : Type :=
| Error (message : string)
| NonError (as_string : string).

(** [err instanceof Error ? err.message : String(err)] *)
Definition errorMessage (err : thrown) : string :=
  match err with
  | Error message => message
  | NonError as_string => as_string
  end.

(** An object used as a dictionary: its own enumerable string-keyed
    properties (their order is not modelled). *)
Abbreviation obj V := (gmap string V).

(** [o[k] = v] on an object that was created by [{}] and holds arrays: the
    key [__proto__] names the accessor of [Object.prototype], which
    replaces the prototype and adds no own property. *)
Definition assign {V} (o : obj V) (k : string) (v : V) : obj V :=
  if String.eqb k "__proto__" then o else <[k := v]> o.

(** [Object.fromEntries]: later entries win; every key defines an own
    property. *)
Definition fromEntries {V} (entries : list (string * V)) : obj V :=
  foldl (λ o kv, <[kv.1 := kv.2]> o) ∅ entries.

(** The UTF-16 code units of a string.  A character of a Rocq string stands
    for the code unit of the same number (0 to 255). *)
Definition code_units (s : string) : list N :=
  map N_of_ascii (list_ascii_of_string s).

End Js.

(** ** Regular expressions, as far as [isDMLQuery] uses them *)

Module Regex.

Inductive regex : Type :=
| Void
| Eps
| Class (p : N → bool)
| Seq (r1 r2 : regex)
| Alt (r1 r2 : regex)
| Star (r : regex).

Definition Plus (r : regex) : regex := Seq r (Star r).

(** [\s]: WhiteSpace and LineTerminator of ECMAScript. *)
Definition isWhiteSpace (c : N) : bool :=
  bool_decide (c ∈ [9; 10; 11; 12; 13; 32; 160; 5760; 8232; 8233; 8239; 8287; 12288; 65279]%N)
  || ((8192 <=? c) && (c <=? 8202))%N.

(** Canonicalize under the [i] flag without [u], on the letters of the
    patterns: a code unit is compared by its upper case, and no code unit
    from 128 on is mapped below 128, so only the two ASCII cases of a
    letter match it. *)
Definition upcase (c : N) : N :=
  if ((97 <=? c) && (c <=? 122))%N then (c - 32)%N else c.

Definition ci (p : N) : regex := Class (λ c, (upcase c =? upcase p)%N).

Definition s : regex := Class isWhiteSpace.

Fixpoint chars (cs : list N) : regex :=
  match cs with
  | [] => Eps
  | c :: rest => Seq (ci c) (chars rest)
  end.

(** A run of letters of a pattern with the [i] flag. *)
Definition lit (w : string) : regex := chars (Js.code_units w).

Fixpoint seq (items : list regex) : regex :=
  match items with
  | [] => Eps
  | r :: rest => Seq r (seq rest)
  end.

Fixpoint nullable (r : regex) : bool :=
  match r with
  | Void => false
  | Eps => true
  | Class _ => false
  | Seq r1 r2 => nullable r1 && nullable r2
  | Alt r1 r2 => nullable r1 || nullable r2
  | Star _ => true
  end.

Fixpoint deriv (c : N) (r : regex) : regex :=
  match r with
  | Void | Eps => Void
  | Class p => if p c then Eps else Void
  | Seq r1 r2 =>
      if nullable r1 then Alt (Seq (deriv c r1) r2) (deriv c r2)
      else Seq (deriv c r1) r2
  | Alt r1 r2 => Alt (deriv c r1) (deriv c r2)
  | Star r1 => Seq (deriv c r1) (Star r1)
  end.

(** [/^r/.test(u)]: the patterns carry no [g], [y] or [m] flag, so [test]
    asks whether [r] matches at index 0, that is, whether some prefix of [u]
    is in the language of [r]. *)
Fixpoint test (r : regex) (u : list N) : bool :=
  nullable r ||
  match u with
  | [] => false
  | c :: rest => test (deriv c r) rest
  end.

(** The language of a pattern. *)
Inductive Matches : regex → list N → Prop :=
| MEps : Matches Eps []
| MClass p c : p c = true → Matches (Class p) [c]
| MSeq r1 r2 u1 u2 : Matches r1 u1 → Matches r2 u2 → Matches (Seq r1 r2) (u1 ++ u2)
| MAltL r1 r2 u : Matches r1 u → Matches (Alt r1 r2) u
| MAltR r1 r2 u : Matches r2 u → Matches (Alt r1 r2) u
| MStarNil r : Matches (Star r) []
| MStarApp r u1 u2 : Matches r u1 → Matches (Star r) u2 → Matches (Star r) (u1 ++ u2).

End Regex.

(** ** The engine's call surface (sql.js) *)

Module SqlJs.

(** One result set of [exec]: [{ columns: string[], values: SqlValue[][] }]. *)
Record QueryExecResult : Type := {
  columns : list string;
  values : list (list Js.value);
}.

(** A database object with state [E].  Every statement-level call may throw
    and may leave the engine in a new state whether it throws or not. *)
Class Database (E : Type) := {
  exec : string → E → (Js.thrown + list QueryExecResult) * E;
  run : string → E → (Js.thrown + ()) * E;
  getRowsModified : E → N;
  export : E → (Js.thrown + list Byte.byte) * E;
}.

(** The engine's side of the contract on [exec]: every row of a result set
    has one cell per column, and a cell is a string, a number, null or a
    byte array. *)
Definition isSqlValue (v : Js.value) : bool :=
  match v with
  | Js.VUndefined => false
  | _ => true
  end.

Definition rectangular (r : QueryExecResult) : bool :=
  forallb (λ row, (length row =? length (columns r))%nat && forallb isSqlValue row)
          (values r).

Definition WellFormed `{Database E} : Prop :=
  ∀ sql e results e',
    exec sql e = (inr results, e') → Forall (λ r, rectangular r = true) results.

End SqlJs.

(** ** Computations that read and write a store, act on the world and may throw *)

(** What a handler does to the world outside the React state. *)
Inductive Effect : Type :=
| DbExec (sql : string)
| DbRun (sql : string)
| DbGetRowsModified
| DbExport
| ConsoleError (label : string) (err : Js.thrown)
| ConsoleLog (label : string)
| Alert (message : string)
| Download (fileName : string) (bytes : list Byte.byte).

Module Eff.

(** From a store: what was returned or thrown, the store left behind, and
    the effects in the order they happened. *)
Definition M (S A : Type) : Type := S → (Js.thrown + A) * S * list Effect.

Section Ops.
Context {S : Type}.

Definition ret {A} (a : A) : M S A := λ s, (inr a, s, []).

Definition bind {A B} (m : M S A) (k : A → M S B) : M S B := λ s,
  match m s with
  | (inr a, s1, log1) => let '(r, s2, log2) := k a s1 in (r, s2, log1 ++ log2)
  | (inl err, s1, log1) => (inl err, s1, log1)
  end.

Definition throw {A} (err : Js.thrown) : M S A := λ s, (inl err, s, []).

(** [try { body } catch (err) { handler }]: the handler runs in the store
    the body left behind. *)
Definition try_catch {A} (body : M S A) (handler : Js.thrown → M S A) : M S A := λ s,
  match body s with
  | (inr a, s1, log1) => (inr a, s1, log1)
  | (inl err, s1, log1) => let '(r, s2, log2) := handler err s1 in (r, s2, log1 ++ log2)
  end.

Definition get : M S S := λ s, (inr s, s, []).
Definition modify (f : S → S) : M S () := λ s, (inr (), f s, []).
Definition emit (x : Effect) : M S () := λ s, (inr (), s, [x]).

(** [xs.forEach(x => { acc = f(acc, x) })] *)
Fixpoint forEach {A B} (f : B → A → M S B) (acc : B) (xs : list A) : M S B :=
  match xs with
  | [] => ret acc
  | x :: rest => bind (f acc x) (λ acc', forEach f acc' rest)
  end.
End Ops.

End Eff.

Notation "'let*' x := m 'in' k" := (Eff.bind m (λ x, k))
  (at level 10, x name, m at level 100, k at level 200).
Notation "m ;;; k" := (Eff.bind m (λ _, k))
  (at level 100, k at level 200, right associativity).
Notation "'try' body 'catch' x => handler" := (Eff.try_catch body (λ x, handler))
  (at level 10, x name, body at level 200, handler at level 200).

(** ** The data of the root view *)

Module Column.
Record t : Type := {
  name : Js.value;
  type : Js.value;
  notNull : bool;
  defaultValue : Js.value;
  primaryKey : bool;
}.
End Column.

Module ForeignKey.
Record t : Type := {
  id : string;
  columnName : Js.value;
  referencedTable : Js.value;
  referencedColumn : Js.value;
}.
End ForeignKey.

Module TableSchema.
(** The casts of the source ([as string]) are erased when the program runs:
    a field holds the cell the engine returned. *)
Record t : Type := {
  name : Js.value;
  columns : list Column.t;
  foreignKeys : list ForeignKey.t;
}.
End TableSchema.

Module File.
Record t : Type := {
  name : string;
  contents : list Byte.byte;
}.
End File.

(** [interface TableRow { [key: string]: string | number | null }], as the
    object is at run time. *)
Abbreviation TableRow := (gmap string Js.value).

(** ** The console and the alert box *)

Module Browser.

Definition console_error {S} (label : string) (err : Js.thrown) : Eff.M S () :=
  Eff.emit (ConsoleError label err).
Definition console_log {S} (label : string) : Eff.M S () :=
  Eff.emit (ConsoleLog label).
Definition alert {S} (message : string) : Eff.M S () :=
  Eff.emit (Alert message).

End Browser.

(** ** Calls on the database object *)

Module Db.

Definition dquote : string := String (ascii_of_nat 34) EmptyString.

Definition catalogQuery : string :=
  "SELECT name FROM sqlite_master WHERE type='table';".

Section Calls.
Context `{Js.Host} {E : Type} `{SqlJs.Database E}.

Definition call {A} (label : Effect) (method : E → (Js.thrown + A) * E)
  : Eff.M E A := λ e,
  let '(r, e') := method e in (r, e', [label]).

Definition exec (sql : string) := call (DbExec sql) (SqlJs.exec sql).
Definition run (sql : string) := call (DbRun sql) (SqlJs.run sql).
Definition getRowsModified :=
  call DbGetRowsModified (λ e, (inr (SqlJs.getRowsModified e), e)).
Definition export := call DbExport SqlJs.export.

(** [tableQuery[0]?.values.map((row) => row[0] as string) || []] *)
Definition tableNamesOf (tableQuery : list SqlJs.QueryExecResult) : list Js.value :=
  match tableQuery with
  | first :: _ => map (λ row, Js.index row 0) (SqlJs.values first)
  | [] => []
  end.

Definition convertSqlValue (value : Js.value) : Js.value :=
  match value with
  | Js.VUint8Array bytes => Js.VString (Js.TextDecoder_decode bytes)
  | _ => value
  end.

(** What [fetchTables] does inside its [try] before it sets the state:
    only [db] is touched. *)
Definition fetchTablesData : Eff.M E (gmap string (list TableRow)) :=
  let* tableQuery := exec catalogQuery in
  let tableNames := tableNamesOf tableQuery in
  Eff.forEach (λ (tableData : gmap string (list TableRow)) table,
    let* result :=
      exec ("SELECT * FROM " +:+ dquote +:+ Js.String table +:+ dquote +:+ ";") in
    match result with
    | first :: _ =>
        let columns := SqlJs.columns first in
        let values := SqlJs.values first in
        Eff.ret (Js.assign tableData (Js.String table)
          (map (λ row, Js.fromEntries
                  (imap (λ i col, (col, convertSqlValue (Js.index row i))) columns))
               values))
    | [] => Eff.ret (Js.assign tableData (Js.String table) [])
    end) ∅ tableNames.

Definition columnOf (col : list Js.value) : Column.t :=
  {| Column.name := Js.index col 1;
     Column.type := Js.index col 2;
     Column.notNull := Js.Boolean (Js.index col 3);
     Column.defaultValue := Js.index col 4;
     Column.primaryKey := Js.Boolean (Js.index col 5) |}.

Definition foreignKeyOf (tableName : Js.value) (index : nat) (fk : list Js.value)
  : ForeignKey.t :=
  {| ForeignKey.id := Js.String tableName +:+ "_fk_" +:+ pretty (N.of_nat index);
     ForeignKey.columnName := Js.index fk 3;
     ForeignKey.referencedTable := Js.index fk 2;
     ForeignKey.referencedColumn := Js.index fk 4 |}.

(** The body of the [forEach] of [fetchTableSchemas]: [schemas] is the
    array built so far, and the [push] is the last thing its [try] does. *)
Definition fetchTableSchema (schemas : list TableSchema.t) (tableName : Js.value)
  : Eff.M E (list TableSchema.t) :=
  try
    let* columnInfo :=
      exec ("PRAGMA table_info(" +:+ dquote +:+ Js.String tableName +:+ dquote +:+ ");") in
    match columnInfo with
    | info :: _ =>
        let columns := map columnOf (SqlJs.values info) in
        let* foreignKeyInfo :=
          exec ("PRAGMA foreign_key_list(" +:+ dquote +:+ Js.String tableName +:+ dquote +:+ ");") in
        let foreignKeys :=
          match foreignKeyInfo with
          | fkInfo :: _ => imap (foreignKeyOf tableName) (SqlJs.values fkInfo)
          | [] => []
          end in
        Eff.ret (schemas ++ [ {| TableSchema.name := tableName;
                                 TableSchema.columns := columns;
                                 TableSchema.foreignKeys := foreignKeys |} ])
    | [] => Eff.ret schemas
    end
  catch columnErr =>
    (Browser.console_error ("Error fetching schema for table " +:+ Js.String tableName +:+ ":")
                   columnErr ;;;
     Eff.ret schemas).

(** What [fetchTableSchemas] does inside its [try] before it sets the
    state. *)
Definition fetchTableSchemasData : Eff.M E (list TableSchema.t) :=
  let* tableQuery := exec catalogQuery in
  let tableNames := tableNamesOf tableQuery in
  Eff.forEach fetchTableSchema [] tableNames.

End Calls.

End Db.

(** ** The root view: App.tsx *)

Module App.

(** The state of the component.  [db] holds the engine's state: the
    [Database] object is mutable and the view holds its only reference. *)
Record State (E : Type) : Type := {
  db : option E;
  file : option File.t;
  leftWidth : Js.number;
  topHeightLeft : Js.number;
  topHeightRight : Js.number;
  editorContent : string;
  tables : gmap string (list TableRow);
  tableSchemas : list TableSchema.t;
  queryResults : option (gmap string (list TableRow));
  queryError : option string;
  queryMessage : option string;
}.
Arguments db {E}. Arguments file {E}. Arguments leftWidth {E}.
Arguments topHeightLeft {E}. Arguments topHeightRight {E}.
Arguments editorContent {E}. Arguments tables {E}. Arguments tableSchemas {E}.
Arguments queryResults {E}. Arguments queryError {E}. Arguments queryMessage {E}.
Arguments Build_State {E}.

Definition minFraction : Js.number := Js.Finite (Q2Qc (2 # 10)).
Definition maxFraction : Js.number := Js.Finite (Q2Qc (8 # 10)).

Definition initial E : State E := {|
  db := None;
  file := None;
  leftWidth := Js.Finite (Q2Qc (3 # 10));
  topHeightLeft := Js.Finite (Q2Qc (5 # 10));
  topHeightRight := Js.Finite (Q2Qc (5 # 10));
  editorContent := "-- Write your SQL here";
  tables := ∅;
  tableSchemas := [];
  queryResults := None;
  queryError := None;
  queryMessage := None;
|}.

Section Setters.
Context {E : Type}.

Definition with_db (v : option E) (s : State E) : State E :=
  Build_State v (file s) (leftWidth s) (topHeightLeft s) (topHeightRight s)
    (editorContent s) (tables s) (tableSchemas s) (queryResults s)
    (queryError s) (queryMessage s).
Definition with_file (v : option File.t) (s : State E) : State E :=
  Build_State (db s) v (leftWidth s) (topHeightLeft s) (topHeightRight s)
    (editorContent s) (tables s) (tableSchemas s) (queryResults s)
    (queryError s) (queryMessage s).
Definition with_leftWidth (v : Js.number) (s : State E) : State E :=
  Build_State (db s) (file s) v (topHeightLeft s) (topHeightRight s)
    (editorContent s) (tables s) (tableSchemas s) (queryResults s)
    (queryError s) (queryMessage s).
Definition with_topHeightLeft (v : Js.number) (s : State E) : State E :=
  Build_State (db s) (file s) (leftWidth s) v (topHeightRight s)
    (editorContent s) (tables s) (tableSchemas s) (queryResults s)
    (queryError s) (queryMessage s).
Definition with_topHeightRight (v : Js.number) (s : State E) : State E :=
  Build_State (db s) (file s) (leftWidth s) (topHeightLeft s) v
    (editorContent s) (tables s) (tableSchemas s) (queryResults s)
    (queryError s) (queryMessage s).
Definition with_editorContent (v : string) (s : State E) : State E :=
  Build_State (db s) (file s) (leftWidth s) (topHeightLeft s) (topHeightRight s)
    v (tables s) (tableSchemas s) (queryResults s)
    (queryError s) (queryMessage s).
Definition with_tables (v : gmap string (list TableRow)) (s : State E) : State E :=
  Build_State (db s) (file s) (leftWidth s) (topHeightLeft s) (topHeightRight s)
    (editorContent s) v (tableSchemas s) (queryResults s)
    (queryError s) (queryMessage s).
Definition with_tableSchemas (v : list TableSchema.t) (s : State E) : State E :=
  Build_State (db s) (file s) (leftWidth s) (topHeightLeft s) (topHeightRight s)
    (editorContent s) (tables s) v (queryResults s)
    (queryError s) (queryMessage s).
Definition with_queryResults (v : option (gmap string (list TableRow)))
           (s : State E) : State E :=
  Build_State (db s) (file s) (leftWidth s) (topHeightLeft s) (topHeightRight s)
    (editorContent s) (tables s) (tableSchemas s) v
    (queryError s) (queryMessage s).
Definition with_queryError (v : option string) (s : State E) : State E :=
  Build_State (db s) (file s) (leftWidth s) (topHeightLeft s) (topHeightRight s)
    (editorContent s) (tables s) (tableSchemas s) (queryResults s)
    v (queryMessage s).
Definition with_queryMessage (v : option string) (s : State E) : State E :=
  Build_State (db s) (file s) (leftWidth s) (topHeightLeft s) (topHeightRight s)
    (editorContent s) (tables s) (tableSchemas s) (queryResults s)
    (queryError s) v.

(** The setters of [useState]; a handler never reads back what it set, so
    each is an assignment. *)
Definition setDb v : Eff.M (State E) () := Eff.modify (with_db v).
Definition setFile v : Eff.M (State E) () := Eff.modify (with_file v).
Definition setLeftWidth v : Eff.M (State E) () := Eff.modify (with_leftWidth v).
Definition setTopHeightLeft v : Eff.M (State E) () := Eff.modify (with_topHeightLeft v).
Definition setTopHeightRight v : Eff.M (State E) () := Eff.modify (with_topHeightRight v).
Definition setEditorContent v : Eff.M (State E) () := Eff.modify (with_editorContent v).
Definition setTables v : Eff.M (State E) () := Eff.modify (with_tables v).
Definition setTableSchemas v : Eff.M (State E) () := Eff.modify (with_tableSchemas v).
Definition setQueryResults v : Eff.M (State E) () := Eff.modify (with_queryResults v).
Definition setQueryError v : Eff.M (State E) () := Eff.modify (with_queryError v).
Definition setQueryMessage v : Eff.M (State E) () := Eff.modify (with_queryMessage v).

(** Code that uses [db] and nothing else of the state.  Every handler tests
    [db] for null before it gets there; on null the first call would throw
    a TypeError. *)
Definition on_db {A} (m : Eff.M E A) : Eff.M (State E) A := λ s,
  match db s with
  | Some e => let '(r, e', log) := m e in (r, with_db (Some e') s, log)
  | None => (inl (Js.Error "Cannot read properties of null"), s, [])
  end.
End Setters.

Section Handlers.
Context `{Js.Host} {E : Type} `{SqlJs.Database E}.

Definition fetchTables : Eff.M (State E) () :=
  let* s := Eff.get in
  match db s with
  | None => Eff.ret ()
  | Some _ =>
      try
        let* tableData := on_db Db.fetchTablesData in
        setTables tableData
      catch err => Browser.console_error "Error fetching tables:" err
  end.

Definition fetchTableSchemas : Eff.M (State E) () :=
  let* s := Eff.get in
  match db s with
  | None => Eff.ret ()
  | Some _ =>
      try
        let* schemas := on_db Db.fetchTableSchemasData in
        setTableSchemas schemas
      catch err => Browser.console_error "Error fetching table schemas:" err
  end.

Definition dmlPatterns : list Regex.regex :=
  [ Regex.seq [Regex.Star Regex.s; Regex.lit "INSERT"; Regex.Plus Regex.s; Regex.lit "INTO"];
    Regex.seq [Regex.Star Regex.s; Regex.lit "UPDATE"; Regex.Plus Regex.s];
    Regex.seq [Regex.Star Regex.s; Regex.lit "DELETE"; Regex.Plus Regex.s; Regex.lit "FROM"];
    Regex.seq [Regex.Star Regex.s; Regex.lit "CREATE"; Regex.Plus Regex.s; Regex.lit "TABLE"];
    Regex.seq [Regex.Star Regex.s; Regex.lit "DROP"; Regex.Plus Regex.s; Regex.lit "TABLE"];
    Regex.seq [Regex.Star Regex.s; Regex.lit "ALTER"; Regex.Plus Regex.s; Regex.lit "TABLE"] ].

Definition isDMLQuery (query : string) : bool :=
  existsb (λ pattern, Regex.test pattern (Js.code_units query)) dmlPatterns.

(** One row of a result set on the query path of [executeQuery]. *)
Definition resultRow (columns : list string) (row : list Js.value) : TableRow :=
  Js.fromEntries
    (imap (λ index col,
             let value := Js.index row index in
             let value :=
               match value with
               | Js.VUint8Array bytes => Js.VString (Js.TextDecoder_decode bytes)
               | _ => value
               end in
             (col, value))
          columns).

(** The object built from the result sets of [exec] on the query path. *)
Definition resultTables (result : list SqlJs.QueryExecResult)
  : gmap string (list TableRow) :=
  foldl (λ tableData table,
           Js.assign tableData (Js.join ", " (SqlJs.columns table))
             (map (resultRow (SqlJs.columns table)) (SqlJs.values table)))
        ∅ result.

(** The writes to [style] through the two refs are not modelled. *)
Definition executeQuery : Eff.M (State E) () :=
  let* s := Eff.get in
  match db s with
  | None => Eff.ret ()
  | Some _ =>
      setQueryError None ;;;
      setQueryMessage None ;;;
      try
        let currentLeftWidth := leftWidth s in
        let isDML := isDMLQuery (editorContent s) in
        (if isDML then
           try
             on_db (Db.run (editorContent s)) ;;;
             let* rowsChanged := on_db Db.getRowsModified in
             setQueryResults (Some ∅) ;;;
             setQueryMessage
               (Some ("Query executed successfully. Rows affected: " +:+ pretty rowsChanged))
           catch dmlError =>
             (setQueryError (Some ("SQL Error: " +:+ Js.errorMessage dmlError)) ;;;
              Browser.console_error "SQL DML Error:" dmlError)
         else
           let* result := on_db (Db.exec (editorContent s)) in
           Browser.console_log "Query Result:" ;;;
           match result with
           | _ :: _ => setQueryResults (Some (resultTables result))
           | [] =>
               setQueryResults (Some ∅) ;;;
               setQueryMessage (Some "Query executed successfully. No rows returned.")
           end) ;;;
        fetchTables ;;;
        fetchTableSchemas ;;;
        setLeftWidth currentLeftWidth
      catch err =>
        (Browser.console_error "SQL Execution Error:" err ;;;
         setQueryError (Some ("SQL Error: " +:+ Js.errorMessage err)) ;;;
         setQueryResults (Some ∅) ;;;
         fetchTables ;;;
         fetchTableSchemas)
  end.

(** The blob, its URL and the anchor are one effect: the click downloads
    the exported bytes under the name in [a.download]. *)
Definition downloadDatabase : Eff.M (State E) () :=
  let* s := Eff.get in
  match db s with
  | None =>
      Browser.alert "No database to download. Please create tables or load a database first."
  | Some _ =>
      try
        let* data := on_db Db.export in
        let fileName :=
          match file s with
          | Some f => File.name f
          | None => "sql-playground-export.sqlite"
          end in
        Eff.emit (Download fileName data) ;;;
        Browser.alert ("Database " +:+ Db.dquote +:+ fileName +:+ Db.dquote
                  +:+ " downloaded successfully!")
      catch err =>
        (Browser.console_error "Error downloading database:" err ;;;
         Browser.alert ("Error downloading database: " +:+ Js.errorMessage err))
  end.

(** [SQL] is what [initSqlJs] and [new SQL.Database()] come to: a fresh
    engine, or what was thrown. *)
Definition clearDatabase (SQL : Js.thrown + E) : Eff.M (State E) () :=
  try
    let* newDb := (match SQL with inl err => Eff.throw err | inr e => Eff.ret e end) in
    setDb (Some newDb) ;;;
    setFile None ;;;
    setTables ∅ ;;;
    setTableSchemas [] ;;;
    setQueryResults None ;;;
    setQueryError None ;;;
    setQueryMessage None ;;;
    setEditorContent "-- Write your SQL here" ;;;
    setQueryMessage (Some "Database cleared successfully. Start with a fresh database.")
  catch err =>
    (Browser.console_error "Error clearing database:" err ;;;
     Browser.alert ("Error clearing database: " +:+ Js.errorMessage err)).

(** [useEffect(() => { if (db) { fetchTables(); fetchTableSchemas(); } }, [db])] *)
Definition dbEffect : Eff.M (State E) () :=
  let* s := Eff.get in
  match db s with
  | Some _ => fetchTables ;;; fetchTableSchemas
  | None => Eff.ret ()
  end.

End Handlers.

(** *** Pane resizing *)

(** [clientX] and [clientY] of a mouse event are finite; the dimensions of
    the window are whole numbers of pixels, zero at the least. *)
Record MouseEvent : Type := {
  clientX : Qc;
  clientY : Qc;
}.

Record Window : Type := {
  innerWidth : N;
  innerHeight : N;
}.

Definition of_N (n : N) : Js.number := Js.Finite (Q2Qc (inject_Z (Z.of_N n))).

Section Resize.
Context {E : Type}.

(** [onMouseMove] of [handleHorizontalResize]: [startX] and
    [startFraction] were read when the button went down. *)
Definition horizontalMove (startX : Qc) (startFraction : Js.number)
           (moveEvent : MouseEvent) (window : Window) : Eff.M (State E) () :=
  let delta :=
    Js.div (Js.sub (Js.Finite (clientX moveEvent)) (Js.Finite startX))
           (of_N (innerWidth window)) in
  let newFraction :=
    Js.Math_max minFraction (Js.Math_min maxFraction (Js.add startFraction delta)) in
  setLeftWidth newFraction.

(** [onMouseMove] of [handleVerticalResize]. *)
Definition verticalMove (setHeight : Js.number → Eff.M (State E) ())
           (startY : Qc) (startHeight : Js.number)
           (moveEvent : MouseEvent) (window : Window) : Eff.M (State E) () :=
  let delta :=
    Js.div (Js.sub (Js.Finite (clientY moveEvent)) (Js.Finite startY))
           (of_N (innerHeight window)) in
  let newFraction :=
    Js.Math_max minFraction (Js.Math_min maxFraction (Js.add startHeight delta)) in
  setHeight newFraction.

(** A drag: the button goes down on a resizer, then the mouse moves any
    number of times, each time under the window of that moment. *)
Definition handleHorizontalResize (e : MouseEvent) (moves : list (MouseEvent * Window))
  : Eff.M (State E) () :=
  let* s := Eff.get in
  let startX := clientX e in
  let startFraction := leftWidth s in
  Eff.forEach (λ _ move, horizontalMove startX startFraction move.1 move.2) () moves.

Definition handleVerticalResize (e : MouseEvent)
           (setHeight : Js.number → Eff.M (State E) ()) (startHeight : Js.number)
           (moves : list (MouseEvent * Window)) : Eff.M (State E) () :=
  let startY := clientY e in
  Eff.forEach (λ _ move, verticalMove setHeight startY startHeight move.1 move.2) () moves.
End Resize.

(** *** What the view renders *)

Inductive ResultsPane : Type :=
| ErrorBox (text : string)
| SuccessBox (text : string)
| QueryOutputTable (results : option (gmap string (list TableRow))).

Record View : Type := {
  AvailableTables_tables : gmap string (list TableRow);
  SchemaViewer_tables : list TableSchema.t;
  Editor_value : string;
  resultsPane : ResultsPane;
}.

(** A string or null in a condition: null and the empty string are false. *)
Definition truthy (o : option string) : bool :=
  match o with
  | Some text => negb (String.eqb text "")
  | None => false
  end.

Definition render {E} (s : State E) : View := {|
  AvailableTables_tables := tables s;
  SchemaViewer_tables := tableSchemas s;
  Editor_value := editorContent s;
  resultsPane :=
    if truthy (queryError s) then ErrorBox (default "" (queryError s))
    else if truthy (queryMessage s) then SuccessBox (default "" (queryMessage s))
    else QueryOutputTable (queryResults s);
|}.

(** *** The view as a machine over what happens to it *)

(** [DbReady] is the [setDb] that ends the effect on [file]; [ClearDb] is a
    clear that was asked for coming to its end, with what [initSqlJs] and
    [new SQL.Database()] came to (the click itself changes nothing in the
    view: [clearDatabase] awaits first).  The effect on [db] runs when [db]
    was set. *)
Inductive Event (E : Type) : Type :=
| DbReady (newDb : E)
| FileSelected (f : File.t)
| EditorChange (newValue : option string)
| RunSql
| DownloadDb
| ClearDb (SQL : Js.thrown + E)
| DragHorizontal (e : MouseEvent) (moves : list (MouseEvent * Window))
| DragLeft (e : MouseEvent) (moves : list (MouseEvent * Window))
| DragRight (e : MouseEvent) (moves : list (MouseEvent * Window)).
Arguments DbReady {E}. Arguments FileSelected {E}. Arguments EditorChange {E}.
Arguments RunSql {E}. Arguments DownloadDb {E}. Arguments ClearDb {E}.
Arguments DragHorizontal {E}. Arguments DragLeft {E}. Arguments DragRight {E}.

Section Machine.
Context `{Js.Host} {E : Type} `{SqlJs.Database E}.

Definition handler (ev : Event E) : Eff.M (State E) () :=
  match ev with
  | DbReady newDb => setDb (Some newDb) ;;; dbEffect
  | FileSelected f => setFile (Some f)
  | EditorChange newValue => setEditorContent (default "" newValue)
  | RunSql => executeQuery
  | DownloadDb => downloadDatabase
  | ClearDb SQL =>
      clearDatabase SQL ;;;
      match SQL with
      | inr _ => dbEffect
      | inl _ => Eff.ret ()
      end
  | DragHorizontal e moves => handleHorizontalResize e moves
  | DragLeft e moves =>
      let* s := Eff.get in
      handleVerticalResize e setTopHeightLeft (topHeightLeft s) moves
  | DragRight e moves =>
      let* s := Eff.get in
      handleVerticalResize e setTopHeightRight (topHeightRight s) moves
  end.

Definition step (s : State E) (ev : Event E) : State E := (handler ev s).1.2.

Definition run_events (evs : list (Event E)) (s : State E) : State E :=
  foldl step s evs.
End Machine.

End App.

(** ** The navigation bar: Navbar.tsx *)

Module Navbar.

(** What the component calls on its props. *)
Inductive Emitted : Type :=
| onFileSelect (file : File.t)
| onDownloadDb
| onClearDb.

(** What the user does to the bar.  A change of the file input carries the
    input's [files] (null or a list); a click on Clear carries the answer to
    [window.confirm]. *)
Inductive Input : Type :=
| FileInputChange (files : option (list File.t))
| DownloadClick
| ClearClick (confirmed : bool).

Definition initialFileName : string := "Select a database file".

(** [handleFileUpload]: the new [fileName] and the calls made. *)
Definition handleFileUpload (files : option (list File.t)) (fileName : string)
  : string * list Emitted :=
  match files with
  | Some (file :: _) => (File.name file, [onFileSelect file])
  | _ => (fileName, [])
  end.

Definition handleClearDb (confirmed : bool) (fileName : string)
  : string * list Emitted :=
  if confirmed then ("New Database", [onClearDb]) else (fileName, []).

Definition handle (i : Input) (fileName : string) : string * list Emitted :=
  match i with
  | FileInputChange files => handleFileUpload files fileName
  | DownloadClick => (fileName, [onDownloadDb])
  | ClearClick confirmed => handleClearDb confirmed fileName
  end.

End Navbar.

(** ** A small engine and host to run the view on *)

Module Sample.

Definition decimal (q : Qc) : string :=
  if bool_decide (Qden q = 1%positive) then pretty (Qnum q)
  else pretty (Qnum q) +:+ "/" +:+ pretty (Z.pos (Qden q)).

#[global] Instance host : Js.Host := {|
  Js.TextDecoder_decode bytes := string_of_list_ascii (map ascii_of_byte bytes);
  Js.Number_toString n :=
    match n with
    | Js.Finite q => decimal q
    | Js.PosInfinity => "Infinity"
    | Js.NegInfinity => "-Infinity"
    | Js.NaN => "NaN"
    end;
|}.

(** A database with the tables [p(id)], [a(p_id -> p.id, data)] and
    [b(p_id -> p.id)].  [b] starts empty and [INSERT INTO b VALUES (1)] adds
    a row to it; a database read from a file that is no database throws on
    every statement, and its export is the bytes of the file. *)
Record ToyDb : Type := {
  notADatabase : bool;
  inserted : nat;
}.

Definition num (z : Z) : Js.value := Js.VNumber (Js.Finite (Q2Qc (inject_Z z))).
Definition str (x : string) : Js.value := Js.VString x.

Definition quoted (name : string) : string := Db.dquote +:+ name +:+ Db.dquote.

Definition info (rows : list (list Js.value)) : list SqlJs.QueryExecResult :=
  [ {| SqlJs.columns := ["cid"; "name"; "type"; "notnull"; "dflt_value"; "pk"];
       SqlJs.values := rows |} ].

Definition fks (rows : list (list Js.value)) : list SqlJs.QueryExecResult :=
  [ {| SqlJs.columns := ["id"; "seq"; "table"; "from"; "to"; "on_update"; "on_delete"; "match"];
       SqlJs.values := rows |} ].

Definition fk_to_p : list Js.value :=
  [num 0; num 0; str "p"; str "p_id"; str "id"; str "NO ACTION"; str "NO ACTION"; str "NONE"].

Definition answers (e : ToyDb) : list (string * list SqlJs.QueryExecResult) :=
  [ (Db.catalogQuery,
     [ {| SqlJs.columns := ["name"]; SqlJs.values := [[str "p"]; [str "a"]; [str "b"]] |} ]);
    ("SELECT * FROM " +:+ quoted "p" +:+ ";",
     [ {| SqlJs.columns := ["id"]; SqlJs.values := [[num 1]] |} ]);
    ("SELECT * FROM " +:+ quoted "a" +:+ ";",
     [ {| SqlJs.columns := ["p_id"; "data"];
          SqlJs.values := [[num 1; Js.VUint8Array [Byte.x68; Byte.x69]]] |} ]);
    ("SELECT * FROM " +:+ quoted "b" +:+ ";",
     match inserted e with
     | O => []
     | n => [ {| SqlJs.columns := ["p_id"]; SqlJs.values := replicate n [num 1] |} ]
     end);
    ("PRAGMA table_info(" +:+ quoted "p" +:+ ");",
     info [[num 0; str "id"; str "INTEGER"; num 0; Js.VNull; num 1]]);
    ("PRAGMA table_info(" +:+ quoted "a" +:+ ");",
     info [[num 0; str "p_id"; str "INTEGER"; num 1; Js.VNull; num 0];
           [num 1; str "data"; str "BLOB"; num 0; Js.VNull; num 0]]);
    ("PRAGMA table_info(" +:+ quoted "b" +:+ ");",
     info [[num 0; str "p_id"; str "INTEGER"; num 0; Js.VNull; num 0]]);
    ("PRAGMA foreign_key_list(" +:+ quoted "p" +:+ ");", []);
    ("PRAGMA foreign_key_list(" +:+ quoted "a" +:+ ");", fks [fk_to_p]);
    ("PRAGMA foreign_key_list(" +:+ quoted "b" +:+ ");", fks [fk_to_p]);
    ("SELECT 1 AS x; SELECT 2 AS x",
     [ {| SqlJs.columns := ["x"]; SqlJs.values := [[num 1]] |};
       {| SqlJs.columns := ["x"]; SqlJs.values := [[num 2]] |} ]) ].

Fixpoint assoc {A} (key : string) (l : list (string * A)) : option A :=
  match l with
  | [] => None
  | (k, v) :: rest => if String.eqb key k then Some v else assoc key rest
  end.

Definition toy_exec (sql : string) (e : ToyDb)
  : (Js.thrown + list SqlJs.QueryExecResult) * ToyDb :=
  if notADatabase e then (inl (Js.Error "file is not a database"), e)
  else match assoc sql (answers e) with
       | Some results => (inr results, e)
       | None => (inl (Js.Error "near statement: syntax error"), e)
       end.

Definition toy_run (sql : string) (e : ToyDb) : (Js.thrown + ()) * ToyDb :=
  if notADatabase e then (inl (Js.Error "file is not a database"), e)
  else if String.eqb sql "INSERT INTO b VALUES (1)"
       then (inr (), {| notADatabase := false; inserted := S (inserted e) |})
       else (inl (Js.Error "no such table"), e).

#[global] Instance toy : SqlJs.Database ToyDb := {|
  SqlJs.exec := toy_exec;
  SqlJs.run := toy_run;
  SqlJs.getRowsModified e := 1%N;
  SqlJs.export e :=
    if notADatabase e then (inr [Byte.x6e; Byte.x6f; Byte.x74], e)
    else (inr [Byte.x53; Byte.x51; Byte.x4c], e);
|}.

(** A mouse event at a whole number of pixels, and a window. *)
Definition at_pixel (x y : Z) : App.MouseEvent :=
  {| App.clientX := Q2Qc (inject_Z x); App.clientY := Q2Qc (inject_Z y) |}.
Definition window (w h : N) : App.Window :=
  {| App.innerWidth := w; App.innerHeight := h |}.

Definition fresh : ToyDb := {| notADatabase := false; inserted := 0 |}.
Definition broken : ToyDb := {| notADatabase := true; inserted := 0 |}.

(** The view with a database loaded and a text in the editor. *)
Definition loaded (e : ToyDb) (sql : string) : App.State ToyDb :=
  App.with_editorContent sql (App.with_db (Some e) (App.initial ToyDb)).

End Sample.


(** ** The claims as the specification words them, where the code differs *)

Module Claimed.

(** The six prefixes, each a literal text with single blanks. *)
Definition dmlPrefixes : list string :=
  ["INSERT INTO"; "UPDATE"; "DELETE FROM"; "CREATE TABLE"; "DROP TABLE"; "ALTER TABLE"].

Fixpoint dropWhile {A} (p : A → bool) (l : list A) : list A :=
  match l with
  | [] => []
  | x :: rest => if p x then dropWhile p rest else l
  end.

(** [u] begins with the text [w], letter case apart. *)
Fixpoint beginsWith (w u : list N) : bool :=
  match w, u with
  | [], _ => true
  | _ :: _, [] => false
  | p :: w', c :: u' => (Regex.upcase c =? Regex.upcase p)%N && beginsWith w' u'
  end.

(** "after optional leading whitespace, begins (case-insensitively) with
    one of exactly six prefixes" *)
Definition isDMLQuery (query : string) : bool :=
  existsb (λ w, beginsWith (Js.code_units w)
                           (dropWhile Regex.isWhiteSpace (Js.code_units query)))
          dmlPrefixes.

(** "foreign-key descriptors with exactly the fields source column,
    referenced table, and referenced column" *)
Definition foreignKeyFields (fk : ForeignKey.t) : Js.value * Js.value * Js.value :=
  (ForeignKey.columnName fk, ForeignKey.referencedTable fk, ForeignKey.referencedColumn fk).

End Claimed.

(** ** What the six patterns of [isDMLQuery] accept *)

Module Shape.

Definition blanks (u : list N) : Prop :=
  Forall (λ c, Regex.isWhiteSpace c = true) u.

(** [u] is the word [w], letter case apart. *)
Definition spells (w : string) (u : list N) : Prop :=
  Forall2 (λ p c, Regex.upcase c = Regex.upcase p) (Js.code_units w) u.

(** [^\s*w1\s+w2] *)
Definition twoWords (w1 w2 : string) (u : list N) : Prop :=
  ∃ lead k1 gap k2 rest,
    u = lead ++ k1 ++ gap ++ k2 ++ rest ∧
    blanks lead ∧ spells w1 k1 ∧ gap ≠ [] ∧ blanks gap ∧ spells w2 k2.

(** [^\s*w\s+] *)
Definition wordThenBlank (w : string) (u : list N) : Prop :=
  ∃ lead k gap rest,
    u = lead ++ k ++ gap ++ rest ∧
    blanks lead ∧ spells w k ∧ gap ≠ [] ∧ blanks gap.

Definition dml (u : list N) : Prop :=
  twoWords "INSERT" "INTO" u ∨ wordThenBlank "UPDATE" u ∨
  twoWords "DELETE" "FROM" u ∨ twoWords "CREATE" "TABLE" u ∨
  twoWords "DROP" "TABLE" u ∨ twoWords "ALTER" "TABLE" u.

End Shape.

(** ** Notions the statements use *)

Section Notions.
Context `{Js.Host} {E : Type} `{SqlJs.Database E}.
Import App.

(** What a read gave, or the old value when it threw. *)
Definition from_inr {A} (old : A) (r : Js.thrown + A) : A :=
  match r with
  | inr a => a
  | inl _ => old
  end.

(** The console line of a [catch], when there was something to catch. *)
Definition logged (label : string) {A} (r : Js.thrown + A) : list Effect :=
  match r with
  | inr _ => []
  | inl err => [ConsoleError label err]
  end.

(** The two calls that end both paths of [executeQuery]. *)
Definition refetch : Eff.M (State E) () := fetchTables ;;; fetchTableSchemas.

(** What [refetch] comes to on an engine [e]: the new [tables] and
    [tableSchemas] if they were read, the engine after the reads, and the
    effects. *)
Definition catalog (e : E)
  : (Js.thrown + gmap string (list TableRow)) * (Js.thrown + list TableSchema.t)
    * E * list Effect :=
  let '(r1, e1, log1) := Db.fetchTablesData e in
  let '(r2, e2, log2) := Db.fetchTableSchemasData e1 in
  (r1, r2, e2,
   (log1 ++ logged "Error fetching tables:" r1)
   ++ (log2 ++ logged "Error fetching table schemas:" r2)).

(** The state after the two resets that open [executeQuery]. *)
Definition cleared (s : State E) : State E :=
  with_queryMessage None (with_queryError None s).

(** [executeQuery] up to the refetch, on an engine [e]: the state reached,
    the effects so far, and whether the path ends with [setLeftWidth] (every
    path but the outer [catch]). *)
Definition statement (s : State E) (e : E) : State E * list Effect * bool :=
  let sql := editorContent s in
  if isDMLQuery sql then
    match SqlJs.run sql e with
    | (inr _, e1) =>
        (with_queryMessage
           (Some ("Query executed successfully. Rows affected: "
                  +:+ pretty (SqlJs.getRowsModified e1)))
           (with_queryResults (Some ∅) (with_db (Some e1) (cleared s))),
         [DbRun sql; DbGetRowsModified], true)
    | (inl err, e1) =>
        (with_queryError (Some ("SQL Error: " +:+ Js.errorMessage err))
           (with_db (Some e1) (cleared s)),
         [DbRun sql; ConsoleError "SQL DML Error:" err], true)
    end
  else
    match SqlJs.exec sql e with
    | (inr [], e1) =>
        (with_queryMessage (Some "Query executed successfully. No rows returned.")
           (with_queryResults (Some ∅) (with_db (Some e1) (cleared s))),
         [DbExec sql; ConsoleLog "Query Result:"], true)
    | (inr result, e1) =>
        (with_queryResults (Some (resultTables result)) (with_db (Some e1) (cleared s)),
         [DbExec sql; ConsoleLog "Query Result:"], true)
    | (inl err, e1) =>
        (with_queryResults (Some ∅)
           (with_queryError (Some ("SQL Error: " +:+ Js.errorMessage err))
              (with_db (Some e1) (cleared s))),
         [DbExec sql; ConsoleError "SQL Execution Error:" err], false)
    end.

(** The engine when the statement has run, thrown or not. *)
Definition afterStatement (sql : string) (e : E) : E :=
  if isDMLQuery sql then (SqlJs.run sql e).2 else (SqlJs.exec sql e).2.

(** Two states with the same layout, file and editor text. *)
Definition sameSurround (s s' : State E) : Prop :=
  file s' = file s ∧ editorContent s' = editorContent s ∧
  leftWidth s' = leftWidth s ∧ topHeightLeft s' = topHeightLeft s ∧
  topHeightRight s' = topHeightRight s.

(** [tables] is as before, or it is what some read of the catalog returned. *)
Definition tablesFrom (old new : gmap string (list TableRow)) : Prop :=
  new = old ∨ ∃ e td e1 log, Db.fetchTablesData e = (inr td, e1, log) ∧ new = td.

(** [queryResults] after [executeQuery]: as before, empty, or built from
    the result sets of the statement. *)
Definition resultsFrom (s : State E)
           (new : option (gmap string (list TableRow))) : Prop :=
  new = queryResults s ∨ new = Some ∅ ∨
  ∃ e result e1,
    SqlJs.exec (editorContent s) e = (inr result, e1) ∧
    new = Some (resultTables result).

(** A string, a number or null. *)
Definition isPrimitive (v : Js.value) : bool :=
  match v with
  | Js.VString _ | Js.VNumber _ | Js.VNull => true
  | Js.VUint8Array _ | Js.VUndefined => false
  end.

(** Every cell of a row, and of every row under every key, is one. *)
Definition rowPrimitive (row : TableRow) : Prop :=
  ∀ col cell, row !! col = Some cell → isPrimitive cell = true.

Definition rowsPrimitive (t : gmap string (list TableRow)) : Prop :=
  ∀ key rows, t !! key = Some rows → Forall rowPrimitive rows.

(** What the display components are handed. *)
Definition statePrimitive (s : State E) : Prop :=
  rowsPrimitive (tables s) ∧
  ∀ results, queryResults s = Some results → rowsPrimitive results.

(** Two states with the same three fractions. *)
Definition sameLayout (s s' : State E) : Prop :=
  leftWidth s' = leftWidth s ∧ topHeightLeft s' = topHeightLeft s ∧
  topHeightRight s' = topHeightRight s.

(** Two states with the same rows to display. *)
Definition sameRows (s s' : State E) : Prop :=
  tables s' = tables s ∧ queryResults s' = queryResults s.

(** The texts of the two pragmas for a table. *)
Definition tableInfoQuery (tableName : Js.value) : string :=
  "PRAGMA table_info(" +:+ Db.dquote +:+ Js.String tableName +:+ Db.dquote +:+ ");".

Definition foreignKeyListQuery (tableName : Js.value) : string :=
  "PRAGMA foreign_key_list(" +:+ Db.dquote +:+ Js.String tableName +:+ Db.dquote +:+ ");".

(** The record pushed for a table, from the first result set of each
    pragma. *)
Definition schemaOf (tableName : Js.value) (info : SqlJs.QueryExecResult)
           (foreignKeyInfo : list SqlJs.QueryExecResult) : TableSchema.t :=
  {| TableSchema.name := tableName;
     TableSchema.columns := map Db.columnOf (SqlJs.values info);
     TableSchema.foreignKeys :=
       match foreignKeyInfo with
       | fkInfo :: _ => imap (Db.foreignKeyOf tableName) (SqlJs.values fkInfo)
       | [] => []
       end |}.

(** The record of a table on an engine that reads leave as it is, if it
    gets one. *)
Definition schemaFor (e : E) (tableName : Js.value) : option TableSchema.t :=
  match SqlJs.exec (tableInfoQuery tableName) e with
  | (inr (info :: _), _) =>
      match SqlJs.exec (foreignKeyListQuery tableName) e with
      | (inr foreignKeyInfo, _) => Some (schemaOf tableName info foreignKeyInfo)
      | (inl _, _) => None
      end
  | _ => None
  end.

(** The name the download goes by. *)
Definition downloadName {E} (s : App.State E) : string :=
  match App.file s with
  | Some f => File.name f
  | None => "sql-playground-export.sqlite"
  end.

(** A fraction between the two bounds: a finite number from 0.2 to 0.8. *)
Definition inRange (n : Js.number) : Prop :=
  match n with
  | Js.Finite q => (Q2Qc (2 # 10) ≤ q)%Qc ∧ (q ≤ Q2Qc (8 # 10))%Qc
  | _ => False
  end.

(** A move whose [delta] is a number: not the quotient of zero by zero, that
    is, not a move in a window of size zero along the axis of the drag with
    the pointer at the coordinate where the drag began. *)
Definition definedMove (horizontal : bool) (e : App.MouseEvent)
           (move : App.MouseEvent * App.Window) : Prop :=
  if horizontal
  then App.innerWidth move.2 ≠ 0%N ∨ App.clientX move.1 ≠ App.clientX e
  else App.innerHeight move.2 ≠ 0%N ∨ App.clientY move.1 ≠ App.clientY e.

(** An event all of whose moves are such. *)
Definition definedEvent {E} (ev : App.Event E) : Prop :=
  match ev with
  | App.DragHorizontal e moves => Forall (definedMove true e) moves
  | App.DragLeft e moves | App.DragRight e moves => Forall (definedMove false e) moves
  | _ => True
  end.

(** The three fractions are between the bounds. *)
Definition layoutInRange {E} (s : App.State E) : Prop :=
  inRange (App.leftWidth s) ∧ inRange (App.topHeightLeft s) ∧
  inRange (App.topHeightRight s).

End Notions.

(** ** Notions for the rest of the root view *)

Section Outcomes.
Context {E : Type}.
Import App.

(** Not both an error and a message to show. *)
Definition oneOutcome (s : State E) : Prop :=
  queryError s = None ∨ queryMessage s = None.

(** The fraction a mouse move of a drag sets: the drag began at coordinate
    [start] with the pane at [startFraction]; the pointer is at [now] in a
    window of [size] pixels along the axis of the drag. *)
Definition fractionAt (startFraction : Js.number) (start now : Qc) (size : N)
  : Js.number :=
  Js.Math_max minFraction
    (Js.Math_min maxFraction
       (Js.add startFraction
          (Js.div (Js.sub (Js.Finite now) (Js.Finite start)) (of_N size)))).

(** The view when the last move of a drag has been handled: [set] is the
    setter of the dragged fraction. *)
Definition afterDrag (set : Js.number → State E → State E) (startFraction : Js.number)
           (start : Qc) (axis : MouseEvent * Window → Qc * N)
           (moves : list (MouseEvent * Window)) (s : State E) : State E :=
  match last moves with
  | Some move => set (fractionAt startFraction start (axis move).1 (axis move).2) s
  | None => s
  end.

Definition alongX (move : MouseEvent * Window) : Qc * N :=
  (clientX move.1, innerWidth move.2).
Definition alongY (move : MouseEvent * Window) : Qc * N :=
  (clientY move.1, innerHeight move.2).

End Outcomes.

(** ** Notions for the reads of the tables *)

Section TableReads.
Context `{Js.Host} {E : Type} `{SqlJs.Database E}.

(** The text of the select that reads a table. *)
Definition selectAllQuery (table : Js.value) : string :=
  "SELECT * FROM " +:+ Db.dquote +:+ Js.String table +:+ Db.dquote +:+ ";".

(** The body of the [forEach] of [fetchTables]: [tableData] is the object
    filled so far. *)
Definition readTable (tableData : gmap string (list TableRow)) (table : Js.value)
  : Eff.M E (gmap string (list TableRow)) :=
  let* result := Db.exec (selectAllQuery table) in
  match result with
  | first :: _ =>
      let columns := SqlJs.columns first in
      let values := SqlJs.values first in
      Eff.ret (Js.assign tableData (Js.String table)
        (map (λ row, Js.fromEntries
                (imap (λ i col, (col, Db.convertSqlValue (Js.index row i))) columns))
             values))
  | [] => Eff.ret (Js.assign tableData (Js.String table) [])
  end.

End TableReads.

(** A second sample engine: a database whose catalog lists, beside the table
    [p(id)], a virtual table [docs] of a module the engine was built
    without.  Every statement that touches [docs] throws. *)
Module Virtual.

Definition answers : list (string * list SqlJs.QueryExecResult) :=
  [ (Db.catalogQuery,
     [ {| SqlJs.columns := ["name"];
          SqlJs.values := [[Sample.str "p"]; [Sample.str "docs"]] |} ]);
    ("SELECT * FROM " +:+ Sample.quoted "p" +:+ ";",
     [ {| SqlJs.columns := ["id"]; SqlJs.values := [[Sample.num 1]] |} ]);
    ("PRAGMA table_info(" +:+ Sample.quoted "p" +:+ ");",
     Sample.info [[Sample.num 0; Sample.str "id"; Sample.str "INTEGER";
                   Sample.num 0; Js.VNull; Sample.num 1]]);
    ("PRAGMA foreign_key_list(" +:+ Sample.quoted "p" +:+ ");", []) ].

(** The engine counts the rows put into [p]. *)
Record Engine : Type := {
  replaced : nat;
}.

Definition engine : Engine := {| replaced := 0 |}.

(** [db.exec] runs any statement: [REPLACE INTO p VALUES (1)] writes. *)
Definition exec (sql : string) (e : Engine)
  : (Js.thrown + list SqlJs.QueryExecResult) * Engine :=
  if String.eqb sql "REPLACE INTO p VALUES (1)"
  then (inr [], {| replaced := S (replaced e) |})
  else match Sample.assoc sql answers with
       | Some results => (inr results, e)
       | None => (inl (Js.Error "no such module: fts5"), e)
       end.

#[global] Instance database : SqlJs.Database Engine := {|
  SqlJs.exec := exec;
  SqlJs.run sql e := (inl (Js.Error "no such module: fts5"), e);
  SqlJs.getRowsModified e := 0%N;
  SqlJs.export e := (inr [Byte.x53; Byte.x51; Byte.x4c], e);
|}.

(** The view with this database loaded and a listing from before. *)
Definition loaded : App.State Engine :=
  App.with_tables {[ "p" := [] ]} (App.with_db (Some engine) (App.initial Engine)).

End Virtual.

(** ** The bar in the page: the [Navbar] element of App.tsx *)

Module Page.

Section Wiring.
Context `{Js.Host} {E : Type} `{SqlJs.Database E}.

(** The label of the bar, the state of the root view, and the number of calls
    of [clearDatabase] that wait at [await initSqlJs(...)]. *)
Record State : Type := {
  fileName : string;
  app : App.State E;
  clearing : nat;
}.

Definition initial : State :=
  {| fileName := Navbar.initialFileName; app := App.initial E; clearing := 0 |}.

(** [<Navbar onFileSelect={setFile} onDownloadDb={downloadDatabase}
    onClearDb={clearDatabase} />]: what the root view does when the bar calls
    a prop.  [clearDatabase] is [async]: the call returns at its [await] with
    nothing set, and goes on when [initSqlJs] settles.  (The engine that the
    effect on [file] loads arrives later as well, as [App.DbReady].) *)
Definition call (c : Navbar.Emitted) (p : State) : State :=
  match c with
  | Navbar.onFileSelect file =>
      {| fileName := fileName p;
         app := (App.setFile (Some file) (app p)).1.2;
         clearing := clearing p |}
  | Navbar.onDownloadDb =>
      {| fileName := fileName p;
         app := (App.downloadDatabase (app p)).1.2;
         clearing := clearing p |}
  | Navbar.onClearDb =>
      {| fileName := fileName p; app := app p; clearing := S (clearing p) |}
  end.

(** The user does something to the bar. *)
Definition input (i : Navbar.Input) (p : State) : State :=
  let '(label, calls) := Navbar.handle i (fileName p) in
  let p' := foldl (λ p c, call c p) p calls in
  {| fileName := label; app := app p'; clearing := clearing p' |}.

(** [initSqlJs] settles for a call of [clearDatabase] that waits, with a
    fresh engine or with what was thrown: the rest of [clearDatabase] runs,
    and the effect on [db] after it; the bar is not told.  With no call
    waiting there is nothing to go on with. *)
Definition resume (SQL : Js.thrown + E) (p : State) : State :=
  match clearing p with
  | O => p
  | S n =>
      {| fileName := fileName p;
         app := App.step (app p) (App.ClearDb SQL);
         clearing := n |}
  end.

Inductive Event : Type :=
| Bar (i : Navbar.Input)
| ClearSettled (SQL : Js.thrown + E).

Definition step (p : State) (ev : Event) : State :=
  match ev with
  | Bar i => input i p
  | ClearSettled SQL => resume SQL p
  end.

Definition run (events : list Event) (p : State) : State := foldl step p events.

(** The label is one of the two fixed texts, or the name of the file the
    view holds. *)
Definition labelled (p : State) : Prop :=
  fileName p = "New Database" ∨
  match App.file (app p) with
  | Some f => fileName p = File.name f
  | None => fileName p = Navbar.initialFileName
  end.

Definition confirmedClear (i : Navbar.Input) : bool :=
  match i with
  | Navbar.ClearClick confirmed => confirmed
  | _ => false
  end.

(** Every confirmed clear settles before the next input to the bar;
    [waiting] says that a clear waits when the events start. *)
Fixpoint inTurn (waiting : bool) (events : list Event) : bool :=
  match events with
  | [] => true
  | Bar i :: events => if waiting then false else inTurn (confirmedClear i) events
  | ClearSettled _ :: events => inTurn false events
  end.

End Wiring.
Arguments State E : clear implicits.
Arguments Event E : clear implicits.

End Page.

(** ** The schema graph: SchemaViewer.tsx *)

Module SchemaViewer.

Definition sameNumber (a b : Js.number) : bool :=
  match a, b with
  | Js.Finite p, Js.Finite q => bool_decide (p = q)
  | Js.PosInfinity, Js.PosInfinity => true
  | Js.NegInfinity, Js.NegInfinity => true
  | _, _ => false
  end.

(** [a === b] on the values of a schema record.  Two byte arrays are equal
    only as the same object; the two sides of every comparison of this
    component come from different result sets, and the comparison of two
    arrays is read as false. *)
Definition strictEquals (a b : Js.value) : bool :=
  match a, b with
  | Js.VString s, Js.VString t => String.eqb s t
  | Js.VNumber m, Js.VNumber n => sameNumber m n
  | Js.VNull, Js.VNull => true
  | Js.VUndefined, Js.VUndefined => true
  | _, _ => false
  end.

(** *** The handles of a table's node *)

Inductive HandleType : Type := source | target.

(** A [Handle] element: its [type] and its [id], if it has one. *)
Record Handle : Type := {
  handleType : HandleType;
  handleId : option string;
}.

Section Nodes.
Context `{Js.Host}.

Definition isForeignKey (table : TableSchema.t) (column : Column.t) : bool :=
  existsb (λ fk, strictEquals (ForeignKey.columnName fk) (Column.name column))
          (TableSchema.foreignKeys table).

Definition sourceHandleId (tableName columnName : Js.value) : string :=
  Js.String tableName +:+ "-" +:+ Js.String columnName +:+ "-source".

Definition targetHandleId (tableName columnName : Js.value) : string :=
  Js.String tableName +:+ "-" +:+ Js.String columnName +:+ "-target".

(** The handles in the row of a column. *)
Definition columnHandles (table : TableSchema.t) (column : Column.t) : list Handle :=
  (if isForeignKey table column
   then [ {| handleType := source;
             handleId := Some (sourceHandleId (TableSchema.name table) (Column.name column)) |} ]
   else [])
  ++ (if Column.primaryKey column
      then [ {| handleType := target;
                handleId := Some (targetHandleId (TableSchema.name table) (Column.name column)) |} ]
      else []).

(** The handles [TableNode] renders, in order: the hidden one on top, those
    of the columns, the hidden one at the bottom. *)
Definition TableNode (table : TableSchema.t) : list Handle :=
  [ {| handleType := target; handleId := None |} ]
  ++ flat_map (columnHandles table) (TableSchema.columns table)
  ++ [ {| handleType := source; handleId := None |} ].

(** *** The cache of positions *)

(** An object [{ x, y }]. *)
Record XY : Type := {
  x : Js.value;
  y : Js.value;
}.

(** [nodePositionsRef.current] as the component itself fills it: an object
    created by [{}], with its own properties, and the object that a write
    under [__proto__] has put in the place of its prototype, if there was
    one.  (What the effect that reads [localStorage] puts there is not
    modelled.) *)
Record Cache : Type := {
  own : gmap string XY;
  proto : option XY;
}.

Definition emptyCache : Cache := {| own := ∅; proto := None |}.

(** What reading a property of the cache can give, and so what the
    [position] of a node can hold. *)
Inductive Placed : Type :=
| At (p : XY)
| Member (name : string)
| Scalar (v : Js.value).

(** The string-keyed properties of [Object.prototype]: eleven functions,
    and the accessor [__proto__]. *)
Definition objectPrototype : list string :=
  [ "constructor"; "hasOwnProperty"; "isPrototypeOf"; "propertyIsEnumerable";
    "toLocaleString"; "toString"; "valueOf"; "__defineGetter__"; "__defineSetter__";
    "__lookupGetter__"; "__lookupSetter__" ].

Definition inherited (k : string) : option Placed :=
  if bool_decide (k ∈ objectPrototype) then Some (Member k) else None.

(** [nodePositionsRef.current[k]]: an own property; or the prototype, for
    [__proto__]; or a property of the object in the prototype's place; or a
    member of [Object.prototype]; or [undefined]. *)
Definition lookup (c : Cache) (k : string) : option Placed :=
  match own c !! k with
  | Some p => Some (At p)
  | None =>
      if String.eqb k "__proto__" then
        Some (match proto c with
              | Some p => At p
              | None => Member "__proto__"
              end)
      else
        match proto c with
        | Some p =>
            if String.eqb k "x" then Some (Scalar (x p))
            else if String.eqb k "y" then Some (Scalar (y p))
            else inherited k
        | None => inherited k
        end
  end.

(** [nodePositionsRef.current[k] = p]: under [__proto__] the object takes
    the place of the prototype; under any other key it becomes an own
    property. *)
Definition store (c : Cache) (k : string) (p : XY) : Cache :=
  if String.eqb k "__proto__"
  then {| own := own c; proto := Some p |}
  else {| own := <[k := p]> (own c); proto := proto c |}.

(** [Boolean(v)] of what a read gave: objects and functions are true. *)
Definition truthy (v : Placed) : bool :=
  match v with
  | At _ | Member _ => true
  | Scalar v => Js.Boolean v
  end.

(** [v.x] and [v.y] of a value that is not null or undefined. *)
Definition getX (v : Placed) : Js.value :=
  match v with
  | At p => x p
  | _ => Js.VUndefined
  end.

Definition getY (v : Placed) : Js.value :=
  match v with
  | At p => y p
  | _ => Js.VUndefined
  end.

(** *** Nodes and edges *)

Record Node : Type := {
  id : Js.value;
  position : Placed;
  data : TableSchema.t;
  type : string;
  draggable : bool;
}.

(** An edge, without its label, styles and marker. *)
Record Edge : Type := {
  edgeId : string;
  edgeSource : Js.value;
  edgeTarget : Js.value;
  sourceHandle : string;
  targetHandle : string;
  edgeType : string;
  animated : bool;
}.

Definition integer (n : nat) : Js.value :=
  Js.VNumber (Js.Finite (Q2Qc (inject_Z (Z.of_nat n)))).

(** The place in the grid of the table at [index]: two tables a row. *)
Definition gridPosition (index : nat) : XY :=
  let row := Nat.div index 2 in
  let col := Nat.modulo index 2 in
  {| x := integer (col * 350 + 50); y := integer (row * 350 + 50) |}.

Definition generateInitialNodes (tables : list TableSchema.t) (c : Cache) : list Node :=
  imap (λ index table,
          let position :=
            match lookup c (Js.String (TableSchema.name table)) with
            | Some saved => if truthy saved then saved else At (gridPosition index)
            | None => At (gridPosition index)
            end in
          {| id := TableSchema.name table;
             position := position;
             data := table;
             type := "tableNode";
             draggable := true |})
       tables.

Definition edgeOf (table : TableSchema.t) (fk : ForeignKey.t) : Edge :=
  {| edgeId := ForeignKey.id fk;
     edgeSource := TableSchema.name table;
     edgeTarget := ForeignKey.referencedTable fk;
     sourceHandle := sourceHandleId (TableSchema.name table) (ForeignKey.columnName fk);
     targetHandle :=
       targetHandleId (ForeignKey.referencedTable fk) (ForeignKey.referencedColumn fk);
     edgeType := "smoothstep";
     animated := true |}.

Definition referencedTableExists (tables : list TableSchema.t) (fk : ForeignKey.t) : bool :=
  existsb (λ t, strictEquals (TableSchema.name t) (ForeignKey.referencedTable fk)) tables.

(** The two nested [forEach] of [generateEdges], each [push] at the end. *)
Definition generateEdges (tables : list TableSchema.t) : list Edge :=
  foldl (λ edges table,
           foldl (λ edges fk,
                    if referencedTableExists tables fk
                    then edges ++ [edgeOf table fk]
                    else edges)
                 edges (TableSchema.foreignKeys table))
        [] tables.

(** *** Keeping the cache *)

(** A change React Flow reports: of a node's position, which carries the
    node's id and, while the node is dragged, the position; or another. *)
Inductive NodeChange : Type :=
| PositionChange (changeId : string) (changePosition : option XY)
| OtherChange.

(** The [forEach] of [handleNodesChange], after React Flow has had the
    changes. *)
Definition handleNodesChange (changes : list NodeChange) (c : Cache) : Cache :=
  foldl (λ c change,
           match change with
           | PositionChange changeId (Some p) =>
               if negb (String.eqb changeId "")
               then store c changeId {| x := x p; y := y p |}
               else c
           | _ => c
           end)
        c changes.

(** The effect on [tables]: the positions of the nodes React Flow holds go
    to the cache, then nodes and edges are made anew. *)
Definition tablesEffect (nodes : list Node) (tables : list TableSchema.t) (c : Cache)
  : list Node * list Edge * Cache :=
  let c' :=
    foldl (λ c node,
             if truthy (position node)
             then store c (Js.String (id node))
                        {| x := getX (position node); y := getY (position node) |}
             else c)
          c nodes in
  (generateInitialNodes tables c', generateEdges tables, c').

End Nodes.

End SchemaViewer.

(** ** Notions for the schema graph *)

(** A key under which a write makes an own property and a read with none
    finds nothing: not [__proto__] and no member of [Object.prototype]. *)
Definition plainKey (k : string) : bool :=
  negb (String.eqb k "__proto__") && bool_decide (k ∉ SchemaViewer.objectPrototype).

(** Whether a change writes the cache under [k]. *)
Definition movesNode (k : string) (change : SchemaViewer.NodeChange) : bool :=
  match change with
  | SchemaViewer.PositionChange changeId (Some _) =>
      negb (String.eqb changeId "") && String.eqb changeId k
  | _ => false
  end.

Section GraphNotions.
Context `{Js.Host}.
Import SchemaViewer.

(** The edges that go out of one table. *)
Definition edgesOf (tables : list TableSchema.t) (table : TableSchema.t) : list Edge :=
  flat_map (λ fk, if referencedTableExists tables fk then [edgeOf table fk] else [])
           (TableSchema.foreignKeys table).

(** The component is mounted with [tables], nothing being saved in
    [localStorage]: the nodes React Flow holds are those
    [generateInitialNodes] makes from the empty cache, and the effect on
    [tables] runs. *)
Definition mount (tables : list TableSchema.t) : list Node * list Edge * Cache :=
  tablesEffect (generateInitialNodes tables emptyCache) tables emptyCache.

(** The prop [tables] changes, and the effect on it runs, no node having
    been moved since the nodes were set. *)
Definition rerender (tables : list TableSchema.t) (st : list Node * list Edge * Cache)
  : list Node * list Edge * Cache :=
  tablesEffect st.1.1 tables st.2.

(** What holds of the nodes and the cache while the table under [kb] is
    shown at [p] and no table under [kc] has been shown. *)
Definition settled (kb kc : string) (p : XY) (st : list Node * list Edge * Cache) : Prop :=
  proto st.2 = None ∧ own st.2 !! kc = None ∧ own st.2 !! kb = Some p ∧
  ∀ node, node ∈ st.1.1 →
          Js.String (id node) ≠ kc ∧ Js.String (id node) ≠ "__proto__" ∧
          (Js.String (id node) = kb → position node = At p).

End GraphNotions.

(** The records [fetchTableSchemas] makes of the three tables of the sample
    engine. *)
Module SampleGraph.

Definition p : TableSchema.t :=
  {| TableSchema.name := Sample.str "p";
     TableSchema.columns :=
       [ {| Column.name := Sample.str "id"; Column.type := Sample.str "INTEGER";
            Column.notNull := false; Column.defaultValue := Js.VNull;
            Column.primaryKey := true |} ];
     TableSchema.foreignKeys := [] |}.

Definition a_fk : ForeignKey.t :=
  {| ForeignKey.id := "a_fk_0";
     ForeignKey.columnName := Sample.str "p_id";
     ForeignKey.referencedTable := Sample.str "p";
     ForeignKey.referencedColumn := Sample.str "id" |}.

Definition a : TableSchema.t :=
  {| TableSchema.name := Sample.str "a";
     TableSchema.columns :=
       [ {| Column.name := Sample.str "p_id"; Column.type := Sample.str "INTEGER";
            Column.notNull := true; Column.defaultValue := Js.VNull;
            Column.primaryKey := false |};
         {| Column.name := Sample.str "data"; Column.type := Sample.str "BLOB";
            Column.notNull := false; Column.defaultValue := Js.VNull;
            Column.primaryKey := false |} ];
     TableSchema.foreignKeys := [a_fk] |}.

Definition b : TableSchema.t :=
  {| TableSchema.name := Sample.str "b";
     TableSchema.columns :=
       [ {| Column.name := Sample.str "p_id"; Column.type := Sample.str "INTEGER";
            Column.notNull := false; Column.defaultValue := Js.VNull;
            Column.primaryKey := false |} ];
     TableSchema.foreignKeys :=
       [ {| ForeignKey.id := "b_fk_0";
            ForeignKey.columnName := Sample.str "p_id";
            ForeignKey.referencedTable := Sample.str "p";
            ForeignKey.referencedColumn := Sample.str "id" |} ] |}.

(** A table that takes its name from a method of every object. *)
Definition valueOf : TableSchema.t :=
  {| TableSchema.name := Sample.str "valueOf";
     TableSchema.columns := [];
     TableSchema.foreignKeys := [] |}.

Definition at_point (x y : Z) : SchemaViewer.XY :=
  {| SchemaViewer.x := Sample.num x; SchemaViewer.y := Sample.num y |}.

End SampleGraph.

(** ** The results table: the component [QueryOutputTable] *)

Module QueryOutputTable.

(** What the component returns: the line "No output available", or one
    section for each key of [results]. *)
Inductive Output : Type :=
| NoOutput
| Sections (results : gmap string (list TableRow)).

(** [if (!results || Object.keys(results).length === 0)] *)
Definition render (results : option (gmap string (list TableRow))) : Output :=
  match results with
  | None => NoOutput
  | Some results =>
      if bool_decide (size results = 0) then NoOutput else Sections results
  end.

End QueryOutputTable.

(** ** Notions for the rows the view stores *)

Section StoredRows.
Context `{Js.Host}.

(** What is stored for a cell: the text of a byte array, the cell itself
    otherwise. *)
Definition decoded (cell : Js.value) : Js.value :=
  match cell with
  | Js.VUint8Array bytes => Js.VString (Js.TextDecoder_decode bytes)
  | _ => cell
  end.

(** The record [fetchTables] makes of a row. *)
Definition storedRow (columns : list string) (row : list Js.value) : TableRow :=
  Js.fromEntries (imap (λ i col, (col, Db.convertSqlValue (Js.index row i))) columns).

(** The key a result set goes under on the query path, and the rows that go
    there. *)
Definition keyOf (table : SqlJs.QueryExecResult) : string :=
  Js.join ", " (SqlJs.columns table).

Definition rowsOf (table : SqlJs.QueryExecResult) : list TableRow :=
  map (App.resultRow (SqlJs.columns table)) (SqlJs.values table).

(** The last of the result sets that go under [key]. *)
Definition lastUnder (key : string) (result : list SqlJs.QueryExecResult)
  : option SqlJs.QueryExecResult :=
  last (filter (λ table, keyOf table = key) result).

End StoredRows.

Section ReadRows.
Context `{Js.Host} {E : Type} `{SqlJs.Database E}.

(** Every entry of the object [fetchTables] builds is empty, or the record
    of what a select on the table of that name returned. *)
Definition readFrom (td : gmap string (list TableRow)) : Prop :=
  ∀ key rows,
    td !! key = Some rows →
    rows = [] ∨
    ∃ name (e' : E) first rest e'',
      key = Js.String name ∧
      SqlJs.exec (selectAllQuery name) e' = (inr (first :: rest), e'') ∧
      rows = map (storedRow (SqlJs.columns first)) (SqlJs.values first).

End ReadRows.

(** ** Notions for the records of the tables *)

Section Describing.
Context `{Js.Host} {E : Type} `{SqlJs.Database E}.

(** What the two pragmas on a table come to, on the engine as it is when the
    table's turn comes: its record if [table_info] returned a result set and
    neither pragma threw, and the engine the pragmas left. *)
Definition describe (tableName : Js.value) (e : E) : option TableSchema.t * E :=
  match SqlJs.exec (tableInfoQuery tableName) e with
  | (inr (info :: _), e1) =>
      match SqlJs.exec (foreignKeyListQuery tableName) e1 with
      | (inr foreignKeyInfo, e2) => (Some (schemaOf tableName info foreignKeyInfo), e2)
      | (inl _, e2) => (None, e2)
      end
  | (_, e1) => (None, e1)
  end.

(** The records of the tables of a list, each described on the engine the
    table before it left. *)
Fixpoint recordsOver (tableNames : list Js.value) (e : E) : list TableSchema.t * E :=
  match tableNames with
  | [] => ([], e)
  | tableName :: rest =>
      let '(record, e1) := describe tableName e in
      let '(records, e2) := recordsOver rest e1 in
      (option_list record ++ records, e2)
  end.

(** The texts [fetchTables] and [fetchTableSchemas] send to the engine when
    the catalog reports [tableNames]. *)
Definition readsOf (tableNames : list Js.value) : list string :=
  Db.catalogQuery
  :: flat_map (λ tableName, [ selectAllQuery tableName; tableInfoQuery tableName;
                              foreignKeyListQuery tableName ])
              tableNames.

End Describing.

(** ** Notions for what a handler does outside the state *)

Section Reads.
Context `{Js.Host} {E : Type} `{SqlJs.Database E}.

(** The texts handed to [db.exec], in the order of the calls. *)
Definition execTexts (log : list Effect) : list string :=
  omap (λ effect, match effect with DbExec sql => Some sql | _ => None end) log.

(** The table names the query on [sqlite_master] returns on an engine, none
    when it throws. *)
Definition reported (e : E) : list Js.value :=
  match SqlJs.exec Db.catalogQuery e with
  | (inr tableQuery, _) => Db.tableNamesOf tableQuery
  | (inl _, _) => []
  end.

(** The texts [fetchTables] builds for a list of names, and those of
    [fetchTableSchemas]: a name goes between the quotes as it is. *)
Definition selectsOf (tableNames : list Js.value) : list string :=
  Db.catalogQuery :: map selectAllQuery tableNames.

Definition pragmasOf (tableNames : list Js.value) : list string :=
  Db.catalogQuery
  :: flat_map (λ tableName, [ tableInfoQuery tableName; foreignKeyListQuery tableName ])
       tableNames.

Definition execOrError (effect : Effect) : Prop :=
  match effect with
  | DbExec _ | ConsoleError _ _ => True
  | _ => False
  end.

(** A pass over [texts]: nothing but calls of [db.exec] and errors on the
    console, and the texts executed are, in this order, among [texts]. *)
Definition passOver (texts : list string) (log : list Effect) : Prop :=
  Forall execOrError log ∧ sublist (execTexts log) texts.

(** What follows the first call of [executeQuery] before the catalog is read
    again: the question for the count of rows changed, or a line on the
    console. *)
Definition countOrConsole (effect : Effect) : Prop :=
  match effect with
  | DbGetRowsModified | ConsoleLog _ | ConsoleError _ _ => True
  | _ => False
  end.

End Reads.

(** * Proofs *)

(** ** Regular expressions *)

Section RegexFacts.
Import Regex.

Lemma Matches_Eps u : Matches Eps u ↔ u = [].
Proof.
  split; [inversion 1; done | intros ->; constructor].
Qed.

Lemma Matches_Class p u : Matches (Class p) u ↔ ∃ c, u = [c] ∧ p c = true.
Proof.
  split.
  - inversion 1; subst; eauto.
  - intros (c & -> & Hc). by constructor.
Qed.

Lemma Matches_Seq r1 r2 u :
  Matches (Seq r1 r2) u ↔ ∃ u1 u2, u = u1 ++ u2 ∧ Matches r1 u1 ∧ Matches r2 u2.
Proof.
  split.
  - inversion 1; subst; eauto.
  - intros (u1 & u2 & -> & H1 & H2). by constructor.
Qed.

Lemma Matches_Alt r1 r2 u : Matches (Alt r1 r2) u ↔ Matches r1 u ∨ Matches r2 u.
Proof.
  split.
  - inversion 1; subst; eauto.
  - intros [Hl | Hr]; [by apply MAltL | by apply MAltR].
Qed.

Lemma nullable_spec r : nullable r = true ↔ Matches r [].
Proof.
  induction r as [| |p|r1 IH1 r2 IH2|r1 IH1 r2 IH2|r IH]; simpl.
  - split; [done | inversion 1].
  - split; [constructor | done].
  - split; [done | inversion 1].
  - rewrite andb_true_iff, IH1, IH2, Matches_Seq. split.
    + intros [H1 H2]. by exists [], [].
    + intros (u1 & u2 & Hnil & H1 & H2).
      symmetry in Hnil. apply app_eq_nil in Hnil as [-> ->]. done.
  - rewrite orb_true_iff, IH1, IH2, Matches_Alt. done.
  - split; [constructor | done].
Qed.

(** A match of [r*] against a text that starts with [c] starts with a
    match of [r] that takes [c]. *)
Lemma star_uncons r c u :
  Matches (Star r) (c :: u) →
  ∃ u1 u2, u = u1 ++ u2 ∧ Matches r (c :: u1) ∧ Matches (Star r) u2.
Proof.
  intros H. remember (Star r) as rs eqn:Hrs. remember (c :: u) as w eqn:Hw.
  revert u Hw. induction H as [| | | | | |r' v1 v2 H1 _ H2 IH2]; intros w' Hw;
    try discriminate.
  injection Hrs as ->. destruct v1 as [|c' v1]; simpl in Hw.
  - by apply IH2.
  - injection Hw as -> <-. by exists v1, v2.
Qed.

Lemma deriv_spec r c u : Matches (deriv c r) u ↔ Matches r (c :: u).
Proof.
  revert u. induction r as [| |p|r1 IH1 r2 IH2|r1 IH1 r2 IH2|r IH]; intros u; simpl.
  - split; inversion 1.
  - split; inversion 1.
  - destruct (p c) eqn:Hp.
    + rewrite Matches_Eps, Matches_Class. split.
      * intros ->. eauto.
      * intros (c' & [= <- <-] & _). done.
    + rewrite Matches_Class. split; [inversion 1 |].
      intros (c' & [= <- _] & Hp'). congruence.
  - assert (Matches r1 [] ∧ Matches r2 (c :: u) ∨
            (∃ u1 u2, u = u1 ++ u2 ∧ Matches r1 (c :: u1) ∧ Matches r2 u2)
            ↔ Matches (Seq r1 r2) (c :: u)) as Hsplit.
    { rewrite Matches_Seq. split.
      - intros [[H1 H2] | (u1 & u2 & -> & H1 & H2)].
        + by exists [], (c :: u).
        + by exists (c :: u1), u2.
      - intros (v1 & v2 & Heq & H1 & H2). destruct v1 as [|c' v1]; simpl in Heq.
        + subst v2. by left.
        + injection Heq as <- ->. right. by exists v1, v2. }
    rewrite <- Hsplit. destruct (nullable r1) eqn:Hnull.
    + rewrite Matches_Alt, Matches_Seq, IH2. apply nullable_spec in Hnull.
      setoid_rewrite IH1. tauto.
    + rewrite Matches_Seq. setoid_rewrite IH1. split; [tauto |].
      intros [[H1 _] | ?]; [| done].
      apply nullable_spec in H1. congruence.
  - rewrite !Matches_Alt, IH1, IH2. done.
  - rewrite Matches_Seq. setoid_rewrite IH. split.
    + intros (u1 & u2 & -> & H1 & H2). by apply (MStarApp r (c :: u1) u2).
    + apply star_uncons.
Qed.

(** [test] finds a prefix in the language of the pattern, and only that. *)
Lemma test_spec r u :
  test r u = true ↔ ∃ p rest, u = p ++ rest ∧ Matches r p.
Proof.
  revert r. induction u as [|c u IH]; intros r; simpl.
  - rewrite orb_false_r, nullable_spec. split.
    + intros Hr. by exists [], [].
    + intros (p & rest & Heq & Hp).
      symmetry in Heq. apply app_eq_nil in Heq as [-> _]. done.
  - rewrite orb_true_iff, nullable_spec, IH. split.
    + intros [Hr | (p & rest & -> & Hp)].
      * by exists [], (c :: u).
      * exists (c :: p), rest. by rewrite <- deriv_spec.
    + intros (p & rest & Heq & Hp). destruct p as [|c' p]; simpl in Heq.
      * by left.
      * injection Heq as <- ->. right. exists p, rest. by rewrite deriv_spec.
Qed.

End RegexFacts.

Section PatternFacts.
Import Regex.

Lemma Matches_Star_Class p u :
  Matches (Star (Class p)) u ↔ Forall (λ c, p c = true) u.
Proof.
  split.
  - intros H. remember (Star (Class p)) as rs eqn:Hrs.
    induction H as [| | | | | |r' v1 v2 H1 _ H2 IH2]; try discriminate.
    + constructor.
    + injection Hrs as ->. apply Matches_Class in H1 as (c & -> & Hc).
      constructor; [done | by apply IH2].
  - induction 1 as [|c u Hc _ IH]; [constructor |].
    apply (MStarApp _ [c] u); [by constructor | done].
Qed.

Lemma Matches_Plus_Class p u :
  Matches (Plus (Class p)) u ↔ u ≠ [] ∧ Forall (λ c, p c = true) u.
Proof.
  unfold Plus. rewrite Matches_Seq. split.
  - intros (u1 & u2 & -> & H1 & H2).
    apply Matches_Class in H1 as (c & -> & Hc). apply Matches_Star_Class in H2.
    split; [done | by constructor].
  - intros [Hne Hall]. destruct Hall as [|c u Hc Hall]; [done |].
    exists [c], u. split_and!; [done | by constructor | by apply Matches_Star_Class].
Qed.

Lemma Matches_chars cs u :
  Matches (chars cs) u ↔ Forall2 (λ p c, upcase c = upcase p) cs u.
Proof.
  revert u. induction cs as [|p cs IH]; intros u; simpl.
  - rewrite Matches_Eps. split; [intros ->; constructor | by inversion 1].
  - rewrite Matches_Seq. split.
    + intros (u1 & u2 & -> & H1 & H2).
      apply Matches_Class in H1 as (c & -> & Hc). apply N.eqb_eq in Hc.
      constructor; [done | by apply IH].
    + inversion 1 as [|? c ? u' Hc Hrest]; subst.
      exists [c], u'. split_and!; [done | | by apply IH].
      constructor. by apply N.eqb_eq.
Qed.

Lemma test_twoWords w1 w2 u :
  test (seq [Star s; lit w1; Plus s; lit w2]) u = true ↔ Shape.twoWords w1 w2 u.
Proof.
  rewrite test_spec. unfold Shape.twoWords, Shape.spells, Shape.blanks, lit, s. simpl.
  split.
  - intros (p & rest & -> & Hp).
    apply Matches_Seq in Hp as (lead & p1 & -> & Hlead & Hp).
    apply Matches_Seq in Hp as (k1 & p2 & -> & Hk1 & Hp).
    apply Matches_Seq in Hp as (gap & p3 & -> & Hgap & Hp).
    apply Matches_Seq in Hp as (k2 & p4 & -> & Hk2 & Hp).
    apply Matches_Eps in Hp as ->.
    apply Matches_Star_Class in Hlead. apply Matches_Plus_Class in Hgap as [Hne Hgap].
    apply Matches_chars in Hk1, Hk2.
    exists lead, k1, gap, k2, rest. rewrite app_nil_r, <- !app_assoc. done.
  - intros (lead & k1 & gap & k2 & rest & -> & Hlead & Hk1 & Hne & Hgap & Hk2).
    exists (lead ++ k1 ++ gap ++ k2 ++ []), rest. split.
    { rewrite app_nil_r, <- !app_assoc. done. }
    repeat (apply MSeq); [by apply Matches_Star_Class | by apply Matches_chars
                         | by apply Matches_Plus_Class | by apply Matches_chars
                         | constructor ].
Qed.

Lemma test_wordThenBlank w u :
  test (seq [Star s; lit w; Plus s]) u = true ↔ Shape.wordThenBlank w u.
Proof.
  rewrite test_spec. unfold Shape.wordThenBlank, Shape.spells, Shape.blanks, lit, s. simpl.
  split.
  - intros (p & rest & -> & Hp).
    apply Matches_Seq in Hp as (lead & p1 & -> & Hlead & Hp).
    apply Matches_Seq in Hp as (k1 & p2 & -> & Hk1 & Hp).
    apply Matches_Seq in Hp as (gap & p3 & -> & Hgap & Hp).
    apply Matches_Eps in Hp as ->.
    apply Matches_Star_Class in Hlead. apply Matches_Plus_Class in Hgap as [Hne Hgap].
    apply Matches_chars in Hk1.
    exists lead, k1, gap, rest. rewrite app_nil_r, <- !app_assoc. done.
  - intros (lead & k1 & gap & rest & -> & Hlead & Hk1 & Hne & Hgap).
    exists (lead ++ k1 ++ gap ++ []), rest. split.
    { rewrite app_nil_r, <- !app_assoc. done. }
    repeat (apply MSeq); [by apply Matches_Star_Class | by apply Matches_chars
                         | by apply Matches_Plus_Class | constructor ].
Qed.

(** The six patterns together. *)
Lemma isDMLQuery_shape query :
  App.isDMLQuery query = true ↔ Shape.dml (Js.code_units query).
Proof.
  unfold App.isDMLQuery, App.dmlPatterns, Shape.dml. cbn [existsb].
  rewrite orb_false_r, !orb_true_iff, !test_twoWords, test_wordThenBlank. tauto.
Qed.

End PatternFacts.

(** ** The handlers of the root view, in closed form *)

Section HandlerFacts.
Context `{Js.Host} {E : Type} `{SqlJs.Database E}.
Import App.

Lemma fetchTables_run (s : State E) e :
  db s = Some e →
  fetchTables s =
    let '(r, e1, log) := Db.fetchTablesData e in
    (inr (), with_tables (from_inr (tables s) r) (with_db (Some e1) s),
     log ++ logged "Error fetching tables:" r).
Proof.
  intros Hdb. unfold fetchTables, Eff.bind at 1, Eff.get. rewrite Hdb.
  unfold Eff.try_catch, Eff.bind, on_db. rewrite Hdb.
  destruct (Db.fetchTablesData e) as [[[err|td] e1] log]; simpl.
  - destruct s; simpl in *. done.
  - by rewrite app_nil_r.
Qed.

Lemma fetchTableSchemas_run (s : State E) e :
  db s = Some e →
  fetchTableSchemas s =
    let '(r, e1, log) := Db.fetchTableSchemasData e in
    (inr (), with_tableSchemas (from_inr (tableSchemas s) r) (with_db (Some e1) s),
     log ++ logged "Error fetching table schemas:" r).
Proof.
  intros Hdb. unfold fetchTableSchemas, Eff.bind at 1, Eff.get. rewrite Hdb.
  unfold Eff.try_catch, Eff.bind, on_db. rewrite Hdb.
  destruct (Db.fetchTableSchemasData e) as [[[err|td] e1] log]; simpl.
  - destruct s; simpl in *. done.
  - by rewrite app_nil_r.
Qed.

Lemma refetch_run (s : State E) e :
  db s = Some e →
  refetch s =
    let '(r1, r2, e2, log) := catalog e in
    (inr (),
     with_tableSchemas (from_inr (tableSchemas s) r2)
       (with_tables (from_inr (tables s) r1) (with_db (Some e2) s)),
     log).
Proof.
  intros Hdb. unfold refetch, catalog, Eff.bind.
  rewrite (fetchTables_run s e Hdb).
  destruct (Db.fetchTablesData e) as [[r1 e1] log1].
  rewrite (fetchTableSchemas_run _ e1) by done.
  destruct (Db.fetchTableSchemasData e1) as [[r2 e2] log2].
  destruct s; simpl in *. done.
Qed.

Lemma fetchTables_total (s : State E) :
  ∃ s' log, fetchTables s = (inr (), s', log).
Proof.
  destruct (db s) as [e|] eqn:Hdb.
  - rewrite (fetchTables_run s e Hdb).
    destruct (Db.fetchTablesData e) as [[r e1] log]. eauto.
  - unfold fetchTables, Eff.bind, Eff.get. rewrite Hdb. simpl. eauto.
Qed.

Lemma fetchTableSchemas_total (s : State E) :
  ∃ s' log, fetchTableSchemas s = (inr (), s', log).
Proof.
  destruct (db s) as [e|] eqn:Hdb.
  - rewrite (fetchTableSchemas_run s e Hdb).
    destruct (Db.fetchTableSchemasData e) as [[r e1] log]. eauto.
  - unfold fetchTableSchemas, Eff.bind, Eff.get. rewrite Hdb. simpl. eauto.
Qed.

Lemma refetch_total (s : State E) :
  ∃ s' log, refetch s = (inr (), s', log).
Proof.
  unfold refetch, Eff.bind.
  destruct (fetchTables_total s) as (s1 & log1 & ->).
  destruct (fetchTableSchemas_total s1) as (s2 & log2 & ->). eauto.
Qed.

Lemma refetch_then_setLeftWidth lw (s : State E) :
  (fetchTables ;;; fetchTableSchemas ;;; setLeftWidth lw) s =
    let '(_, s2, log2) := refetch s in (inr (), with_leftWidth lw s2, log2).
Proof.
  unfold refetch, Eff.bind.
  destruct (fetchTables_total s) as (s1 & log1 & ->).
  destruct (fetchTableSchemas_total s1) as (s2 & log2 & ->).
  simpl. by rewrite app_nil_r.
Qed.

Lemma executeQuery_run (s : State E) e :
  db s = Some e →
  executeQuery s =
    let '(s1, log0, again) := statement s e in
    let '(_, s2, log2) := refetch s1 in
    (inr (), if again then with_leftWidth (leftWidth s) s2 else s2, log0 ++ log2).
Proof.
  intros Hdb. unfold executeQuery, statement, cleared.
  unfold Eff.bind at 1. unfold Eff.get at 1. cbv beta iota zeta. rewrite Hdb.
  remember (Eff.bind fetchTables (λ _, Eff.bind fetchTableSchemas (λ _, setLeftWidth (leftWidth s)))) as tail eqn:Htail.
  remember (Eff.bind fetchTables (λ _, fetchTableSchemas)) as rf eqn:Hrf.
  assert (∀ s1, tail s1 = let '(_, s2, log2) := rf s1 in (inr (), with_leftWidth (leftWidth s) s2, log2)) as Htail'.
  { intros s1. subst. apply refetch_then_setLeftWidth. }
  assert (∀ s1, ∃ s2 log2, rf s1 = (inr (), s2, log2)) as Hrf'.
  { intros s1. subst. apply refetch_total. }
  unfold refetch. rewrite <- Hrf. clear Htail Hrf.
  destruct s as [d f lw thl thr ec tb ts qr qe qm]. simpl in Hdb. subst d.
  cbv beta iota zeta delta [Eff.bind Eff.try_catch Eff.modify Eff.emit Eff.ret Eff.get
    setQueryError setQueryMessage setQueryResults
    Browser.console_error Browser.console_log on_db Db.run Db.exec Db.call Db.getRowsModified
    db editorContent leftWidth file topHeightLeft topHeightRight tables tableSchemas
    queryResults queryError queryMessage
    with_db with_queryError with_queryMessage with_queryResults] in *.
  destruct (isDMLQuery ec).
  - destruct (SqlJs.run ec e) as [[err|[]] e1].
    + rewrite Htail'.
      match goal with |- context [rf ?s1] => destruct (Hrf' s1) as (s2 & log2 & ->) end.
      reflexivity.
    + rewrite Htail'.
      match goal with |- context [rf ?s1] => destruct (Hrf' s1) as (s2 & log2 & ->) end.
      reflexivity.
  - destruct (SqlJs.exec ec e) as [[err|[|r rs]] e1].
    + match goal with |- context [rf ?s1] => destruct (Hrf' s1) as (s2 & log2 & ->) end.
      reflexivity.
    + rewrite Htail'.
      match goal with |- context [rf ?s1] => destruct (Hrf' s1) as (s2 & log2 & ->) end.
      reflexivity.
    + rewrite Htail'.
      match goal with |- context [rf ?s1] => destruct (Hrf' s1) as (s2 & log2 & ->) end.
      reflexivity.
Qed.

End HandlerFacts.

(** ** Exceptions of the engine in [executeQuery] *)

Section Catching.
Context `{Js.Host} {E : Type} `{SqlJs.Database E}.
Import App.

Lemma executeQuery_total (s : State E) :
  ∃ s' log, executeQuery s = (inr (), s', log).
Proof.
  destruct (db s) as [e|] eqn:Hdb.
  - rewrite (executeQuery_run s e Hdb).
    destruct (statement s e) as [[s1 log0] again].
    destruct (refetch_total s1) as (s2 & log2 & ->). eauto.
  - unfold executeQuery, Eff.bind, Eff.get. rewrite Hdb. simpl. eauto.
Qed.

Lemma truthy_message (m : string) : truthy (Some ("SQL Error: " +:+ m)) = true.
Proof. reflexivity. Qed.

(** What the statement phase leaves when the engine throws. *)
Lemma statement_throws (s : State E) e err e1 :
  (if isDMLQuery (editorContent s)
   then SqlJs.run (editorContent s) e = (inl err, e1)
   else SqlJs.exec (editorContent s) e = (inl err, e1)) →
  ∃ s1 call label again,
    statement s e = (s1, [call; ConsoleError label err], again) ∧
    call = (if isDMLQuery (editorContent s)
            then DbRun (editorContent s) else DbExec (editorContent s)) ∧
    label = (if isDMLQuery (editorContent s)
             then "SQL DML Error:" else "SQL Execution Error:") ∧
    db s1 = Some e1 ∧
    queryError s1 = Some ("SQL Error: " +:+ Js.errorMessage err) ∧
    queryMessage s1 = None ∧
    file s1 = file s ∧ editorContent s1 = editorContent s ∧
    leftWidth s1 = leftWidth s ∧ topHeightLeft s1 = topHeightLeft s ∧
    topHeightRight s1 = topHeightRight s.
Proof.
  unfold statement. destruct (isDMLQuery (editorContent s)); intros ->;
    eexists _, _, _, _; split_and!; reflexivity.
Qed.

End Catching.

(** C1: every exception of the engine in [executeQuery], from [db.run] on the
    DML path or from [db.exec] on the query path, is caught: [executeQuery]
    returns normally from every state.  When the statement throws [err],
    [queryError] ends as "SQL Error: " followed by the message of [err], and
    the view shows it in the error box.  Nothing else is done about the
    failure: the effects are the one failing call, the line on the console,
    and the reads of the catalog that follow every statement; the engine is
    the one the failing call left, after those reads; the loaded file, the
    editor's text and the layout are as before. *)
Theorem executeQuery_catches `{Js.Host} {E : Type} `{SqlJs.Database E} (s : App.State E) :
  (App.executeQuery s).1.1 = inr () ∧
  ∀ e err e1,
    App.db s = Some e →
    (if App.isDMLQuery (App.editorContent s)
     then SqlJs.run (App.editorContent s) e = (inl err, e1)
     else SqlJs.exec (App.editorContent s) e = (inl err, e1)) →
    let s' := (App.executeQuery s).1.2 in
    App.queryError s' = Some ("SQL Error: " +:+ Js.errorMessage err) ∧
    App.resultsPane (App.render s') = App.ErrorBox ("SQL Error: " +:+ Js.errorMessage err) ∧
    (App.executeQuery s).2 =
      [ if App.isDMLQuery (App.editorContent s)
        then DbRun (App.editorContent s) else DbExec (App.editorContent s);
        ConsoleError (if App.isDMLQuery (App.editorContent s)
                      then "SQL DML Error:" else "SQL Execution Error:") err ]
      ++ (catalog e1).2 ∧
    App.db s' = Some (catalog e1).1.2 ∧
    App.file s' = App.file s ∧
    App.editorContent s' = App.editorContent s ∧
    App.leftWidth s' = App.leftWidth s ∧
    App.topHeightLeft s' = App.topHeightLeft s ∧
    App.topHeightRight s' = App.topHeightRight s.
Proof.
  split.
  { destruct (executeQuery_total s) as (s' & log & ->). done. }
  intros e err e1 Hdb Hthrows. cbv zeta.
  rewrite (executeQuery_run s e Hdb).
  destruct (statement_throws s e err e1 Hthrows)
    as (s1 & call & label & again & -> & -> & -> & Hdb1 & Hqe & Hqm & Hf & Hec & Hlw & Hl & Hr).
  rewrite (refetch_run s1 e1 Hdb1).
  destruct (catalog e1) as [[[r1 r2] e2] log].
  assert (App.queryError (if again
            then App.with_leftWidth (App.leftWidth s)
                   (App.with_tableSchemas (from_inr (App.tableSchemas s1) r2)
                      (App.with_tables (from_inr (App.tables s1) r1)
                         (App.with_db (Some e2) s1)))
            else App.with_tableSchemas (from_inr (App.tableSchemas s1) r2)
                   (App.with_tables (from_inr (App.tables s1) r1)
                      (App.with_db (Some e2) s1)))
          = Some ("SQL Error: " +:+ Js.errorMessage err)) as Hqe'.
  { by destruct again. }
  cbn [fst snd]. split_and!.
  - done.
  - unfold App.render. cbn [App.resultsPane]. rewrite Hqe'.
    by rewrite truthy_message.
  - done.
  - by destruct again.
  - by destruct again.
  - by destruct again.
  - by destruct again.
  - by destruct again.
  - by destruct again.
Qed.

(** The sample engine knows no table [c]: the insert throws and is shown. *)
Lemma executeQuery_catches_witness :
  App.queryError
    (App.executeQuery (Sample.loaded Sample.fresh "INSERT INTO c VALUES (1)")).1.2
  = Some "SQL Error: no such table"
  ∧ App.queryError (App.executeQuery (Sample.loaded Sample.fresh "SELECT 1")).1.2
  = Some "SQL Error: near statement: syntax error".
Proof.
  split.
  - apply (proj2 (executeQuery_catches
                    (Sample.loaded Sample.fresh "INSERT INTO c VALUES (1)"))
                 Sample.fresh (Js.Error "no such table") Sample.fresh);
      reflexivity.
  - apply (proj2 (executeQuery_catches (Sample.loaded Sample.fresh "SELECT 1"))
                 Sample.fresh (Js.Error "near statement: syntax error") Sample.fresh);
      reflexivity.
Defined.

(** ** The refetch that ends [executeQuery] *)

Section Refetching.
Context `{Js.Host} {E : Type} `{SqlJs.Database E}.
Import App.

Lemma statement_engine (s : State E) e :
  db (statement s e).1.1 = Some (afterStatement (editorContent s) e) ∧
  tables (statement s e).1.1 = tables s ∧
  tableSchemas (statement s e).1.1 = tableSchemas s.
Proof.
  unfold statement, afterStatement. destruct (isDMLQuery (editorContent s)).
  - by destruct (SqlJs.run (editorContent s) e) as [[err|[]] e1].
  - by destruct (SqlJs.exec (editorContent s) e) as [[err|[|r rs]] e1].
Qed.

Lemma catalog_starts (e : E) : ∃ rest, (catalog e).2 = DbExec Db.catalogQuery :: rest.
Proof.
  unfold catalog, Db.fetchTablesData, Eff.bind, Db.exec, Db.call.
  destruct (SqlJs.exec Db.catalogQuery e) as [[err|tableQuery] e0].
  - destruct (Db.fetchTableSchemasData e0) as [[r2 e2] log2]. by eexists.
  - destruct (Eff.forEach _ ∅ (Db.tableNamesOf tableQuery) e0) as [[r1 e1] log1].
    destruct (Db.fetchTableSchemasData e1) as [[r2 e2] log2]. by eexists.
Qed.

End Refetching.

(** C2, as the code has it: after every call of [executeQuery] with a database
    loaded, whether the statement returned or threw, the catalog is read
    again on the engine the statement left (the effects of the call end with
    those reads, the first of them the query on [sqlite_master]), and
    [tables] and [tableSchemas] are what the reads give: each is replaced as
    a whole by what was read, which depends on the engine alone, when its read
    returned; when its read threw, the value from before the call is kept. *)
Theorem executeQuery_refetches `{Js.Host} {E : Type} `{SqlJs.Database E}
        (s : App.State E) (e : E) :
  App.db s = Some e →
  let s' := (App.executeQuery s).1.2 in
  let read := catalog (afterStatement (App.editorContent s) e) in
  App.tables s' = from_inr (App.tables s) read.1.1.1 ∧
  App.tableSchemas s' = from_inr (App.tableSchemas s) read.1.1.2 ∧
  (App.executeQuery s).2 = (statement s e).1.2 ++ read.2 ∧
  ∃ rest, read.2 = DbExec Db.catalogQuery :: rest.
Proof.
  intros Hdb. cbv zeta. rewrite (executeQuery_run s e Hdb).
  destruct (statement_engine s e) as (Hdb1 & Ht & Hs).
  destruct (statement s e) as [[s1 log0] again]. cbn [fst snd] in *.
  rewrite (refetch_run s1 _ Hdb1).
  pose proof (catalog_starts (afterStatement (App.editorContent s) e)) as Hstarts.
  destruct (catalog (afterStatement (App.editorContent s) e)) as [[[r1 r2] e2] log].
  cbn [fst snd] in *. rewrite <- Ht, <- Hs. split_and!; try done; by destruct again.
Qed.

(** After an insert into [b] of the sample engine, the three tables are
    read again; [b] now has a row. *)
Lemma executeQuery_refetches_witness :
  let s := Sample.loaded Sample.fresh "INSERT INTO b VALUES (1)" in
  App.db s = Some Sample.fresh ∧
  App.tables (App.executeQuery s).1.2
  = from_inr (App.tables s)
      (catalog (afterStatement (App.editorContent s) Sample.fresh)).1.1.1 ∧
  length <$> (App.tables (App.executeQuery s).1.2 !! "b") = Some 1.
Proof.
  split; [reflexivity |]. split.
  - exact (proj1 (executeQuery_refetches
                    (Sample.loaded Sample.fresh "INSERT INTO b VALUES (1)")
                    Sample.fresh eq_refl)).
  - vm_compute. reflexivity.
Defined.

(** C2 as the specification words it fails on a file that is no database:
    every read of the catalog throws, and two views that differ in [tables]
    alone still differ after the same statement on the same engine. *)
Lemma executeQuery_refetches_counterexample :
  ∃ s1 s2 : App.State Sample.ToyDb,
    App.db s1 = Some Sample.broken ∧ App.db s2 = Some Sample.broken ∧
    App.editorContent s1 = App.editorContent s2 ∧
    App.tables (App.executeQuery s1).1.2 !! "old" = None ∧
    App.tables (App.executeQuery s2).1.2 !! "old" = Some [].
Proof.
  exists (Sample.loaded Sample.broken "SELECT 1"),
         (App.with_tables {[ "old" := [] ]} (Sample.loaded Sample.broken "SELECT 1")).
  split_and!; vm_compute; reflexivity.
Qed.

(** ** What the handlers leave alone *)

Section Frames.
Context `{Js.Host} {E : Type} `{SqlJs.Database E}.
Import App.

Lemma refetch_frame (s : State E) :
  ∃ s' log,
    refetch s = (inr (), s', log) ∧ sameSurround s s' ∧
    queryResults s' = queryResults s ∧ queryError s' = queryError s ∧
    queryMessage s' = queryMessage s ∧ tablesFrom (tables s) (tables s').
Proof.
  destruct (db s) as [e|] eqn:Hdb.
  - rewrite (refetch_run s e Hdb). unfold catalog.
    destruct (Db.fetchTablesData e) as [[r1 e1] log1] eqn:Hread.
    destruct (Db.fetchTableSchemasData e1) as [[r2 e2] log2].
    eexists _, _. split; [reflexivity |]. split_and!; try done.
    destruct r1 as [err|td]; [by left | right; by exists e, td, e1, log1].
  - unfold refetch, fetchTables, fetchTableSchemas, Eff.bind, Eff.get.
    rewrite Hdb. simpl. rewrite Hdb. simpl.
    eexists _, _. split; [reflexivity |]. split_and!; try done. by left.
Qed.

Lemma statement_frame (s : State E) e :
  sameSurround s (statement s e).1.1 ∧
  tables (statement s e).1.1 = tables s ∧
  resultsFrom s (queryResults (statement s e).1.1).
Proof.
  unfold statement, resultsFrom. destruct (isDMLQuery (editorContent s)).
  - destruct (SqlJs.run (editorContent s) e) as [[err|[]] e1];
      cbn [fst snd]; split_and!; try done; eauto.
  - destruct (SqlJs.exec (editorContent s) e) as [[err|[|r rs]] e1] eqn:Hexec;
      cbn [fst snd]; split_and!; try done; eauto 10.
Qed.

Lemma executeQuery_frame (s : State E) :
  ∃ s' log,
    executeQuery s = (inr (), s', log) ∧ sameSurround s s' ∧
    tablesFrom (tables s) (tables s') ∧ resultsFrom s (queryResults s').
Proof.
  destruct (db s) as [e|] eqn:Hdb.
  - rewrite (executeQuery_run s e Hdb).
    destruct (statement_frame s e) as (Hsur & Ht & Hq).
    destruct (statement s e) as [[s1 log0] again]. cbn [fst snd] in *.
    destruct (refetch_frame s1) as (s2 & log2 & -> & Hsur2 & Hq2 & _ & _ & Ht2).
    eexists _, _. split; [reflexivity |].
    unfold sameSurround in *. rewrite Ht in Ht2.
    destruct again; cbn; rewrite ?Hq2; split_and!; try done; try tauto;
      intuition congruence.
  - unfold executeQuery, Eff.bind, Eff.get. rewrite Hdb. simpl.
    eexists _, _. split; [reflexivity |]. split_and!; try done; by left.
Qed.

Lemma dbEffect_frame (s : State E) :
  ∃ s' log,
    dbEffect s = (inr (), s', log) ∧ sameSurround s s' ∧
    queryResults s' = queryResults s ∧ tablesFrom (tables s) (tables s').
Proof.
  unfold dbEffect, Eff.bind at 1, Eff.get. destruct (db s) as [e|] eqn:Hdb.
  - destruct (refetch_frame s) as (s' & log & Hrun & Hsur & Hq & _ & _ & Ht).
    simpl. fold refetch. rewrite Hrun. eauto 10.
  - simpl. eexists _, _. split; [reflexivity |]. split_and!; try done. by left.
Qed.

Lemma downloadDatabase_frame (s : State E) :
  ∃ s' log,
    downloadDatabase s = (inr (), s', log) ∧ sameSurround s s' ∧
    queryResults s' = queryResults s ∧ tables s' = tables s.
Proof.
  unfold downloadDatabase, Eff.bind at 1, Eff.get. destruct (db s) as [e|] eqn:Hdb.
  - unfold Eff.try_catch, Eff.bind, on_db, Db.export, Db.call. rewrite Hdb.
    destruct (SqlJs.export e) as [[err|data] e1]; simpl;
      eexists _, _; (split; [reflexivity |]); done.
  - simpl. eexists _, _. split; [reflexivity |]. done.
Qed.

End Frames.

(** ** Cells of the rows the view holds *)

Section Primitives.
Context `{Js.Host} {E : Type} `{SqlJs.Database E}.
Import App.

Lemma convertSqlValue_primitive v :
  SqlJs.isSqlValue v = true → isPrimitive (Db.convertSqlValue v) = true.
Proof. by destruct v. Qed.

Lemma fromEntries_lookup {V} (entries : list (string * V)) k v :
  Js.fromEntries entries !! k = Some v → (k, v) ∈ entries.
Proof.
  unfold Js.fromEntries.
  assert (∀ o : gmap string V,
            foldl (λ o kv, <[kv.1 := kv.2]> o) o entries !! k = Some v →
            o !! k = Some v ∨ (k, v) ∈ entries) as Hgen.
  { induction entries as [|[k' v'] entries IH]; intros o; simpl; [by left |].
    intros Hlook. destruct (IH _ Hlook) as [Ho | Hin].
    - destruct (decide (k' = k)) as [->|Hne].
      + rewrite lookup_insert_eq in Ho. injection Ho as ->. right. by left.
      + rewrite lookup_insert_ne in Ho by done. by left.
    - right. by right. }
  intros Hlook. destruct (Hgen ∅ Hlook) as [Hempty | Hin]; [| done].
  by rewrite lookup_empty in Hempty.
Qed.

Lemma converted_row_primitive columns row :
  SqlJs.rectangular {| SqlJs.columns := columns; SqlJs.values := [row] |} = true →
  rowPrimitive
    (Js.fromEntries (imap (λ i col, (col, Db.convertSqlValue (Js.index row i))) columns)).
Proof.
  unfold SqlJs.rectangular. simpl. rewrite andb_true_r, andb_true_iff, Nat.eqb_eq.
  intros [Hlen Hcells] col cell Hlook.
  apply fromEntries_lookup, elem_of_lookup_imap in Hlook as (i & col' & [= -> ->] & Hi).
  apply convertSqlValue_primitive. unfold Js.index.
  apply lookup_lt_Some in Hi. rewrite <- Hlen in Hi.
  destruct (lookup_lt_is_Some_2 row i Hi) as [v Hv]. rewrite Hv. simpl.
  rewrite forallb_forall in Hcells. apply Hcells.
  apply list_elem_of_In, list_elem_of_lookup. eauto.
Qed.

Lemma converted_rows_primitive (r : SqlJs.QueryExecResult) :
  SqlJs.rectangular r = true →
  Forall rowPrimitive
    (map (λ row, Js.fromEntries
                   (imap (λ i col, (col, Db.convertSqlValue (Js.index row i)))
                         (SqlJs.columns r)))
         (SqlJs.values r)).
Proof.
  unfold SqlJs.rectangular. rewrite forallb_forall. intros Hrect.
  apply Forall_forall. intros row' Hin.
  apply list_elem_of_In, in_map_iff in Hin as (row & <- & Hrow).
  apply converted_row_primitive. unfold SqlJs.rectangular. simpl.
  by rewrite (Hrect row Hrow).
Qed.

Lemma assign_primitive t key rows :
  rowsPrimitive t → Forall rowPrimitive rows → rowsPrimitive (Js.assign t key rows).
Proof.
  intros Ht Hrows key' rows'. unfold Js.assign.
  destruct (String.eqb key "__proto__"); [apply Ht |].
  destruct (decide (key = key')) as [->|Hne].
  - rewrite lookup_insert_eq. by intros [= <-].
  - rewrite lookup_insert_ne by done. apply Ht.
Qed.

Lemma empty_primitive : rowsPrimitive ∅.
Proof. intros key rows. by rewrite lookup_empty. Qed.

Lemma resultTables_primitive result :
  Forall (λ r, SqlJs.rectangular r = true) result → rowsPrimitive (resultTables result).
Proof.
  unfold resultTables. generalize empty_primitive.
  generalize (∅ : gmap string (list TableRow)).
  induction result as [|r result IH]; intros t Ht Hrect; simpl; [done |].
  inversion Hrect as [|? ? Hr Hrest]; subst.
  apply IH; [| done]. apply assign_primitive; [done |].
  by apply converted_rows_primitive.
Qed.

End Primitives.

Section Loops.
Context {S A B : Type}.

(** What holds of the accumulator of a [forEach] that returned. *)
Lemma forEach_result (I : B → Prop) (f : B → A → Eff.M S B) xs :
  (∀ acc x s b s' log, I acc → f acc x s = (inr b, s', log) → I b) →
  ∀ acc s b s' log, I acc → Eff.forEach f acc xs s = (inr b, s', log) → I b.
Proof.
  intros Hstep. induction xs as [|x xs IH]; intros acc s b s' log Hacc; simpl.
  - unfold Eff.ret. by intros [= <- _ _].
  - unfold Eff.bind. destruct (f acc x s) as [[[err|b1] s1] log1] eqn:Hf; [done |].
    destruct (Eff.forEach f b1 xs s1) as [[r2 s2] log2] eqn:Hrest.
    intros [= -> <- _]. eapply IH; [| exact Hrest]. by eapply Hstep.
Qed.

(** What holds of the store after a [forEach], returned or thrown. *)
Lemma forEach_store (P : S → Prop) (Q : A → Prop) (f : B → A → Eff.M S B) xs :
  (∀ acc x s, Q x → P s → P (f acc x s).1.2) →
  Forall Q xs →
  ∀ acc s, P s → P (Eff.forEach f acc xs s).1.2.
Proof.
  intros Hstep. induction 1 as [|x xs Hx _ IH]; intros acc s Hs; simpl; [done |].
  unfold Eff.bind. pose proof (Hstep acc x s Hx Hs) as Hs1.
  destruct (f acc x s) as [[[err|b1] s1] log1]; [done |].
  specialize (IH b1 s1 Hs1).
  by destruct (Eff.forEach f b1 xs s1) as [[r2 s2] log2].
Qed.
End Loops.

Section ReadsPrimitive.
Context `{Js.Host} {E : Type} `{SqlJs.Database E}.
Import App.

Lemma Db_exec_returned sql (e : E) results e1 log :
  Db.exec sql e = (inr results, e1, log) → SqlJs.exec sql e = (inr results, e1).
Proof.
  unfold Db.exec, Db.call. destruct (SqlJs.exec sql e) as [r e']. by intros [= -> ->].
Qed.

Lemma fetchTablesData_primitive (e : E) td e1 log :
  SqlJs.WellFormed →
  Db.fetchTablesData e = (inr td, e1, log) → rowsPrimitive td.
Proof.
  intros Hwf. unfold Db.fetchTablesData, Eff.bind.
  destruct (Db.exec Db.catalogQuery e) as [[[err|tableQuery] e0] log0]; [done |].
  destruct (Eff.forEach _ ∅ (Db.tableNamesOf tableQuery) e0) as [[r2 e2] log2] eqn:Hloop.
  intros [= -> <- _].
  eapply (forEach_result rowsPrimitive); [| apply empty_primitive | exact Hloop].
  clear Hloop. intros acc table s b s' log' Hacc. unfold Eff.bind.
  destruct (Db.exec _ s) as [[[err|result] s1] log1] eqn:Hexec; [done |].
  apply Db_exec_returned, Hwf in Hexec.
  destruct result as [|first rest]; simpl; intros [= <- _ _];
    apply assign_primitive; try done.
  apply converted_rows_primitive. by inversion Hexec.
Qed.

Lemma tablesFrom_primitive old new :
  SqlJs.WellFormed → rowsPrimitive old → tablesFrom old new → rowsPrimitive new.
Proof.
  intros Hwf Hold [-> | (e & td & e1 & log & Hread & ->)]; [done |].
  by eapply fetchTablesData_primitive.
Qed.

Lemma resultsFrom_primitive (s : State E) new :
  SqlJs.WellFormed → statePrimitive s → resultsFrom s new →
  ∀ results, new = Some results → rowsPrimitive results.
Proof.
  intros Hwf [_ Hold] [-> | [-> | (e & result & e1 & Hexec & ->)]] results.
  - apply Hold.
  - intros [= <-]. apply empty_primitive.
  - intros [= <-]. apply resultTables_primitive. by eapply Hwf.
Qed.

End ReadsPrimitive.

(** ** The machine: what each event keeps *)

Section MachineFacts.
Context `{Js.Host} {E : Type} `{SqlJs.Database E}.
Import App.

Lemma clearDatabase_frame SQL (s : State E) :
  ∃ s' log,
    clearDatabase SQL s = (inr (), s', log) ∧ sameLayout s s' ∧
    (sameRows s s' ∨ tables s' = ∅ ∧ queryResults s' = None).
Proof.
  unfold clearDatabase, Eff.try_catch, Eff.bind.
  destruct SQL as [err|newDb]; simpl; eexists _, _; (split; [reflexivity |]);
    split; try done; [by left | by right].
Qed.

Lemma horizontal_drag_frame e moves (s : State E) :
  sameRows s (handleHorizontalResize e moves s).1.2.
Proof.
  unfold handleHorizontalResize, Eff.bind, Eff.get.
  pose proof (forEach_store (λ s', sameRows s s') (λ _, True)
                (λ (_ : ()) (move : MouseEvent * Window),
                   @horizontalMove E (clientX e) (leftWidth s) move.1 move.2)
                moves) as Hloop.
  specialize (Hloop (λ _ _ s1 _ Hs1, Hs1) (Forall_true _ _ (λ _, I)) () s (conj eq_refl eq_refl)).
  by destruct (Eff.forEach _ () moves s) as [[r s'] log].
Qed.

Lemma vertical_drag_frame e setHeight startHeight moves (s : State E) :
  (∀ v s1, sameRows s1 (setHeight v s1).1.2) →
  sameRows s (handleVerticalResize e setHeight startHeight moves s).1.2.
Proof.
  intros Hset. unfold handleVerticalResize.
  apply (forEach_store (λ s', sameRows s s') (λ _, True)); [| by apply Forall_true | done].
  intros [] move s1 _ [Ht Hq]. unfold verticalMove.
  destruct (Hset (Js.Math_max minFraction
                    (Js.Math_min maxFraction
                       (Js.add startHeight
                          (Js.div (Js.sub (Js.Finite (clientY move.1))
                                          (Js.Finite (clientY e)))
                                  (of_N (innerHeight move.2))))))
                 s1) as [Ht1 Hq1].
  split; congruence.
Qed.

Lemma step_primitive (s : State E) ev :
  SqlJs.WellFormed → statePrimitive s → statePrimitive (step s ev).
Proof.
  intros Hwf Hs. pose proof Hs as [Ht Hq]. unfold step.
  destruct ev as [newDb|f|newValue| | |SQL|e moves|e moves|e moves]; cbn [handler].
  - unfold Eff.bind, setDb, Eff.modify.
    destruct (dbEffect_frame (with_db (Some newDb) s)) as (s' & log & -> & _ & Hq' & Ht').
    cbn [fst snd]. split; [by eapply tablesFrom_primitive | by rewrite Hq'].
  - done.
  - done.
  - destruct (executeQuery_frame s) as (s' & log & -> & _ & Ht' & Hq').
    cbn [fst snd]. split; [by eapply tablesFrom_primitive | by eapply resultsFrom_primitive].
  - destruct (downloadDatabase_frame s) as (s' & log & -> & _ & Hq' & Ht').
    cbn [fst snd]. split; [by rewrite Ht' | by rewrite Hq'].
  - unfold Eff.bind.
    destruct (clearDatabase_frame SQL s) as (s1 & log1 & -> & _ & Hrows).
    assert (statePrimitive s1) as [Ht1 Hq1].
    { unfold statePrimitive. destruct Hrows as [[-> ->] | [-> ->]]; [done |].
      split; [apply empty_primitive | done]. }
    destruct SQL as [err|newDb]; [by unfold Eff.ret |].
    destruct (dbEffect_frame s1) as (s' & log & -> & _ & Hq' & Ht').
    cbn [fst snd]. split; [by eapply tablesFrom_primitive | by rewrite Hq'].
  - unfold statePrimitive. by destruct (horizontal_drag_frame e moves s) as [-> ->].
  - unfold Eff.bind at 1, Eff.get.
    pose proof (vertical_drag_frame e setTopHeightLeft (topHeightLeft s) moves s) as Hd.
    destruct (handleVerticalResize e setTopHeightLeft (topHeightLeft s) moves s)
      as [[r s'] log].
    unfold statePrimitive. cbn [fst snd] in *. by destruct Hd as [-> ->].
  - unfold Eff.bind at 1, Eff.get.
    pose proof (vertical_drag_frame e setTopHeightRight (topHeightRight s) moves s) as Hd.
    destruct (handleVerticalResize e setTopHeightRight (topHeightRight s) moves s)
      as [[r s'] log].
    unfold statePrimitive. cbn [fst snd] in *. by destruct Hd as [-> ->].
Qed.

End MachineFacts.

Lemma sample_assoc {A} key (l : list (string * A)) v :
  Sample.assoc key l = Some v → v ∈ l.*2.
Proof.
  induction l as [|[k' v'] l IH]; simpl; [done |].
  destruct (String.eqb key k').
  - intros [= ->]. by left.
  - intros Hrest. right. by apply IH.
Qed.

Lemma sample_replicated_rows n :
  SqlJs.rectangular
    {| SqlJs.columns := ["p_id"]; SqlJs.values := replicate n [Sample.num 1] |} = true.
Proof.
  unfold SqlJs.rectangular. simpl. induction n as [|n IH]; simpl; [done | exact IH].
Qed.

(** The sample engine keeps the engine's side of the contract. *)
Lemma sample_well_formed : @SqlJs.WellFormed Sample.ToyDb Sample.toy.
Proof.
  intros sql e results e'. simpl. unfold Sample.toy_exec.
  destruct (Sample.notADatabase e); [done |].
  destruct (Sample.assoc sql (Sample.answers e)) as [found|] eqn:Hfound; [| done].
  intros [= <- _]. apply sample_assoc in Hfound. revert found Hfound.
  apply Forall_forall. unfold Sample.answers. simpl.
  repeat (apply Forall_cons; split; [repeat constructor |]); try apply Forall_nil.
  - destruct (Sample.inserted e) as [|n]; [constructor |].
    constructor; [apply (sample_replicated_rows (S n)) | constructor].
  - exact I.
Qed.

(** ** The schema records *)

Section Schemas.
Context `{Js.Host} {E : Type} `{SqlJs.Database E}.

Lemma fetchTableSchema_pushes schemas tableName (e : E) info rest e1 foreignKeyInfo e2 :
  SqlJs.exec (tableInfoQuery tableName) e = (inr (info :: rest), e1) →
  SqlJs.exec (foreignKeyListQuery tableName) e1 = (inr foreignKeyInfo, e2) →
  Db.fetchTableSchema schemas tableName e =
    (inr (schemas ++ [schemaOf tableName info foreignKeyInfo]), e2,
     [DbExec (tableInfoQuery tableName); DbExec (foreignKeyListQuery tableName)]).
Proof.
  intros Hinfo Hfk.
  unfold Db.fetchTableSchema, Eff.try_catch, Eff.bind, Db.exec, Db.call.
  fold (tableInfoQuery tableName). fold (foreignKeyListQuery tableName).
  rewrite Hinfo. cbn. rewrite Hfk. reflexivity.
Qed.

Lemma fetchTableSchema_skips schemas tableName (e : E) :
  (∀ e1, SqlJs.exec (tableInfoQuery tableName) e = (inr [], e1) →
         Db.fetchTableSchema schemas tableName e =
           (inr schemas, e1, [DbExec (tableInfoQuery tableName)])) ∧
  (∀ err e1, SqlJs.exec (tableInfoQuery tableName) e = (inl err, e1) →
             (Db.fetchTableSchema schemas tableName e).1 = (inr schemas, e1)) ∧
  (∀ info rest e1 err e2,
     SqlJs.exec (tableInfoQuery tableName) e = (inr (info :: rest), e1) →
     SqlJs.exec (foreignKeyListQuery tableName) e1 = (inl err, e2) →
     (Db.fetchTableSchema schemas tableName e).1 = (inr schemas, e2)).
Proof.
  unfold Db.fetchTableSchema, Eff.try_catch, Eff.bind, Db.exec, Db.call.
  fold (tableInfoQuery tableName). fold (foreignKeyListQuery tableName).
  split_and!.
  - intros e1 ->. reflexivity.
  - intros err e1 ->. reflexivity.
  - intros info rest e1 err e2 ->. cbn. intros ->. reflexivity.
Qed.

Lemma fetchTableSchema_describes schemas tableName (e : E) :
  (Db.fetchTableSchema schemas tableName e).1
  = (inr (schemas ++ option_list (describe tableName e).1), (describe tableName e).2).
Proof.
  unfold describe.
  destruct (SqlJs.exec (tableInfoQuery tableName) e) as [[err|[|info rest]] e1] eqn:Hinfo.
  - rewrite (proj1 (proj2 (fetchTableSchema_skips schemas tableName e)) _ _ Hinfo).
    by rewrite app_nil_r.
  - rewrite (proj1 (fetchTableSchema_skips schemas tableName e) _ Hinfo).
    by rewrite app_nil_r.
  - destruct (SqlJs.exec (foreignKeyListQuery tableName) e1) as [[err|fk] e2] eqn:Hfk.
    + rewrite (proj2 (proj2 (fetchTableSchema_skips schemas tableName e))
                 _ _ _ _ _ Hinfo Hfk).
      by rewrite app_nil_r.
    + by rewrite (fetchTableSchema_pushes _ _ _ _ _ _ _ _ Hinfo Hfk).
Qed.

Lemma forEach_describes names :
  ∀ schemas (e : E),
    (Eff.forEach Db.fetchTableSchema schemas names e).1
    = (inr (schemas ++ (recordsOver names e).1), (recordsOver names e).2).
Proof.
  induction names as [|tableName names IH]; intros schemas e; cbn [Eff.forEach recordsOver].
  - by rewrite app_nil_r.
  - unfold Eff.bind. pose proof (fetchTableSchema_describes schemas tableName e) as Hone.
    destruct (Db.fetchTableSchema schemas tableName e) as [[r1 e1] log1].
    destruct (describe tableName e) as [record e1']. cbn [fst snd] in Hone.
    injection Hone as -> ->.
    specialize (IH (schemas ++ option_list record) e1').
    destruct (Eff.forEach Db.fetchTableSchema _ names e1') as [[r2 e2] log2].
    destruct (recordsOver names e1') as [records e2']. cbn [fst snd] in *.
    injection IH as -> ->. by rewrite <- app_assoc.
Qed.

Lemma fetchTableSchemas_threads (s : App.State E) e tableQuery e0 :
  App.db s = Some e →
  SqlJs.exec Db.catalogQuery e = (inr tableQuery, e0) →
  App.tableSchemas (App.fetchTableSchemas s).1.2
  = (recordsOver (Db.tableNamesOf tableQuery) e0).1 ∧
  App.db (App.fetchTableSchemas s).1.2
  = Some (recordsOver (Db.tableNamesOf tableQuery) e0).2.
Proof.
  intros Hdb Hcatalog. rewrite (fetchTableSchemas_run s e Hdb).
  unfold Db.fetchTableSchemasData, Eff.bind, Db.exec, Db.call. rewrite Hcatalog.
  pose proof (forEach_describes (Db.tableNamesOf tableQuery) [] e0) as Hloop.
  destruct (Eff.forEach Db.fetchTableSchema [] (Db.tableNamesOf tableQuery) e0)
    as [[r2 e2] log2].
  cbn [fst] in Hloop. injection Hloop as -> ->. done.
Qed.

Lemma recordsOver_stable names (e : E) :
  (∀ name, name ∈ names →
           (SqlJs.exec (tableInfoQuery name) e).2 = e ∧
           (SqlJs.exec (foreignKeyListQuery name) e).2 = e) →
  recordsOver names e = (omap (schemaFor e) names, e).
Proof.
  induction names as [|name names IH]; intros Hstable; [done |].
  cbn [recordsOver omap list_omap].
  assert (describe name e = (schemaFor e name, e)) as ->.
  { destruct (Hstable name) as [Hinfo Hfk]; [by apply elem_of_cons; left |].
    unfold describe, schemaFor.
    destruct (SqlJs.exec (tableInfoQuery name) e) as [[err|[|info rest]] e1];
      cbn [snd] in Hinfo; subst e1; [done | done |].
    destruct (SqlJs.exec (foreignKeyListQuery name) e) as [[err|fk] e2];
      cbn [snd] in Hfk; by subst e2. }
  rewrite IH by (intros name' Hin; apply Hstable; by apply elem_of_cons; right).
  by destruct (schemaFor e name).
Qed.

Lemma recordsOver_names names (e : E) :
  sublist (TableSchema.name <$> (recordsOver names e).1) names.
Proof.
  revert e. induction names as [|name names IH]; intros e; cbn [recordsOver]; [done |].
  assert ((describe name e).1 = None ∨
          ∃ record, (describe name e).1 = Some record ∧ TableSchema.name record = name)
    as Hone.
  { unfold describe.
    destruct (SqlJs.exec (tableInfoQuery name) e) as [[err|[|info rest]] e1];
      [by left | by left |].
    destruct (SqlJs.exec (foreignKeyListQuery name) e1) as [[err|fk] e2]; [by left |].
    right. by eexists. }
  destruct (describe name e) as [record e1]. specialize (IH e1).
  destruct (recordsOver names e1) as [records e2]. cbn [fst snd] in *.
  destruct Hone as [-> | (found & -> & <-)]; cbn.
  - by apply sublist_cons.
  - by apply sublist_skip.
Qed.

End Schemas.

(** C4, as the code has it: [fetchTableSchemas] visits the tables the catalog
    reports, in order.  A table whose [PRAGMA table_info] returns a result set
    and whose two pragmas do not throw gets a record: its name, one column
    descriptor per row of [table_info] in that order with exactly the fields
    name, declared type, not-null flag, default value and primary-key flag
    (cells 1 to 5), and one foreign-key descriptor per row of
    [foreign_key_list] with the fields id (the table's name, "_fk_" and the
    row's index), source column, referenced table and referenced column
    (cells 3, 2 and 4).  A table whose [table_info] returns no result set, or
    for which a pragma throws, gets no record.  With a database loaded and
    the catalog read, [tableSchemas] is set to these records and to nothing
    else, each table described on the engine as the pragmas of the tables
    before it left it, so the names of the records are, in order, among the
    names the catalog reported. *)
Theorem fetchTableSchemas_records `{Js.Host} {E : Type} `{SqlJs.Database E} :
  (∀ col,
     Db.columnOf col =
       {| Column.name := Js.index col 1;
          Column.type := Js.index col 2;
          Column.notNull := Js.Boolean (Js.index col 3);
          Column.defaultValue := Js.index col 4;
          Column.primaryKey := Js.Boolean (Js.index col 5) |}) ∧
  (∀ tableName index fk,
     Db.foreignKeyOf tableName index fk =
       {| ForeignKey.id := Js.String tableName +:+ "_fk_" +:+ pretty (N.of_nat index);
          ForeignKey.columnName := Js.index fk 3;
          ForeignKey.referencedTable := Js.index fk 2;
          ForeignKey.referencedColumn := Js.index fk 4 |}) ∧
  (∀ schemas tableName (e : E) info rest e1 foreignKeyInfo e2,
     SqlJs.exec (tableInfoQuery tableName) e = (inr (info :: rest), e1) →
     SqlJs.exec (foreignKeyListQuery tableName) e1 = (inr foreignKeyInfo, e2) →
     (Db.fetchTableSchema schemas tableName e).1
     = (inr (schemas ++ [schemaOf tableName info foreignKeyInfo]), e2)) ∧
  (∀ schemas tableName (e : E) e1,
     SqlJs.exec (tableInfoQuery tableName) e = (inr [], e1) →
     (Db.fetchTableSchema schemas tableName e).1 = (inr schemas, e1)) ∧
  (∀ schemas tableName (e : E) err e1,
     SqlJs.exec (tableInfoQuery tableName) e = (inl err, e1) →
     (Db.fetchTableSchema schemas tableName e).1 = (inr schemas, e1)) ∧
  (∀ schemas tableName (e : E) info rest e1 err e2,
     SqlJs.exec (tableInfoQuery tableName) e = (inr (info :: rest), e1) →
     SqlJs.exec (foreignKeyListQuery tableName) e1 = (inl err, e2) →
     (Db.fetchTableSchema schemas tableName e).1 = (inr schemas, e2)) ∧
  (∀ (s : App.State E) e tableQuery e0,
     App.db s = Some e →
     SqlJs.exec Db.catalogQuery e = (inr tableQuery, e0) →
     App.tableSchemas (App.fetchTableSchemas s).1.2
     = (recordsOver (Db.tableNamesOf tableQuery) e0).1 ∧
     sublist (TableSchema.name <$> App.tableSchemas (App.fetchTableSchemas s).1.2)
             (Db.tableNamesOf tableQuery)).
Proof.
  split_and!.
  - done.
  - done.
  - intros schemas tableName e info rest e1 fk e2 Hinfo Hfk.
    by rewrite (fetchTableSchema_pushes _ _ _ _ _ _ _ _ Hinfo Hfk).
  - intros schemas tableName e e1 Hinfo.
    by rewrite (proj1 (fetchTableSchema_skips schemas tableName e) _ Hinfo).
  - intros schemas tableName e err e1 Hinfo.
    by rewrite (proj1 (proj2 (fetchTableSchema_skips schemas tableName e)) _ _ Hinfo).
  - intros schemas tableName e info rest e1 err e2 Hinfo Hfk.
    by rewrite (proj2 (proj2 (fetchTableSchema_skips schemas tableName e))
                  _ _ _ _ _ Hinfo Hfk).
  - intros s e tableQuery e0 Hdb Hcatalog.
    destruct (fetchTableSchemas_threads s e tableQuery e0 Hdb Hcatalog) as [-> _].
    split; [done | apply recordsOver_names].
Qed.

(** The three tables of the sample engine, each with its record. *)
Lemma fetchTableSchemas_records_witness :
  App.db (Sample.loaded Sample.fresh "") = Some Sample.fresh ∧
  App.tableSchemas (App.fetchTableSchemas (Sample.loaded Sample.fresh "")).1.2
  = [SampleGraph.p; SampleGraph.a; SampleGraph.b].
Proof.
  split; [reflexivity |].
  destruct (proj2 (proj2 (proj2 (proj2 (proj2 (proj2
              (@fetchTableSchemas_records Sample.host _ Sample.toy))))))
              (Sample.loaded Sample.fresh "") Sample.fresh
              [ {| SqlJs.columns := ["name"];
                   SqlJs.values := [[Sample.str "p"]; [Sample.str "a"]; [Sample.str "b"]] |} ]
              Sample.fresh eq_refl eq_refl) as [Hrecords _].
  rewrite Hrecords. reflexivity.
Defined.

(** C4 as the specification words it: the foreign-key descriptors of tables
    [a] and [b] of the sample engine agree on source column, referenced table
    and referenced column, and are two different descriptors: each also
    carries its [id]. *)
Lemma fetchTableSchemas_records_counterexample :
  ∃ ta tb fka fkb,
    App.tableSchemas (App.fetchTableSchemas (Sample.loaded Sample.fresh "")).1.2 !! 1%nat
      = Some ta ∧
    App.tableSchemas (App.fetchTableSchemas (Sample.loaded Sample.fresh "")).1.2 !! 2%nat
      = Some tb ∧
    TableSchema.foreignKeys ta = [fka] ∧ TableSchema.foreignKeys tb = [fkb] ∧
    Claimed.foreignKeyFields fka = Claimed.foreignKeyFields fkb ∧
    ForeignKey.id fka = "a_fk_0" ∧ ForeignKey.id fkb = "b_fk_0".
Proof.
  eexists _, _, _, _. split_and!; vm_compute; reflexivity.
Qed.


(** ** Which statements take the DML path *)

(** C5, as the code has it: [isDMLQuery] is true exactly of the texts that,
    after any leading whitespace, spell (in either letter case) INSERT, DELETE,
    CREATE, DROP or ALTER, then one or more whitespace characters, then
    INTO, FROM, TABLE, TABLE or TABLE respectively, or that spell UPDATE
    followed by at least one whitespace character.  [executeQuery] sends such
    a text to [db.run] and, when that returns, reports the count of rows
    changed with an empty result set; every other text, CREATE INDEX, CREATE
    VIEW, BEGIN, PRAGMA and REPLACE among them, goes to [db.exec]. *)
Theorem isDMLQuery_routes `{Js.Host} {E : Type} `{SqlJs.Database E} :
  (∀ query, App.isDMLQuery query = true ↔ Shape.dml (Js.code_units query)) ∧
  (∀ (s : App.State E) e,
     App.db s = Some e →
     if App.isDMLQuery (App.editorContent s)
     then (∃ rest, (App.executeQuery s).2 = DbRun (App.editorContent s) :: rest) ∧
          ∀ e1, SqlJs.run (App.editorContent s) e = (inr (), e1) →
                App.queryResults (App.executeQuery s).1.2 = Some ∅ ∧
                App.queryMessage (App.executeQuery s).1.2
                = Some ("Query executed successfully. Rows affected: "
                        +:+ pretty (SqlJs.getRowsModified e1))
     else ∃ rest, (App.executeQuery s).2 = DbExec (App.editorContent s) :: rest) ∧
  App.isDMLQuery "CREATE INDEX i ON t (x)" = false ∧
  App.isDMLQuery "CREATE VIEW v AS SELECT 1" = false ∧
  App.isDMLQuery "BEGIN" = false ∧
  App.isDMLQuery "PRAGMA table_info(t)" = false ∧
  App.isDMLQuery "REPLACE INTO t VALUES (1)" = false.
Proof.
  split; [apply isDMLQuery_shape |]. split; [| by vm_compute].
  intros s e Hdb. rewrite (executeQuery_run s e Hdb). unfold statement.
  destruct (App.isDMLQuery (App.editorContent s)).
  - split.
    + destruct (SqlJs.run (App.editorContent s) e) as [[err|[]] e1];
        match goal with
        | |- context [refetch ?s1] => destruct (refetch_total s1) as (s2 & log2 & ->)
        end; by eexists.
    + intros e1 ->.
      match goal with
      | |- context [refetch ?s1] =>
          destruct (refetch_frame s1) as (s2 & log2 & -> & _ & Hq & _ & Hm & _)
      end.
      cbn [fst snd]. unfold App.with_leftWidth.
      cbn [App.queryResults App.queryMessage]. by rewrite Hq, Hm.
  - destruct (SqlJs.exec (App.editorContent s) e) as [[err|[|r rs]] e1];
      match goal with
      | |- context [refetch ?s1] => destruct (refetch_total s1) as (s2 & log2 & ->)
      end; by eexists.
Qed.

(** On the sample engine an insert goes to [db.run] and a select to
    [db.exec]. *)
Lemma isDMLQuery_routes_witness :
  (∃ rest, (App.executeQuery (Sample.loaded Sample.fresh "INSERT INTO b VALUES (1)")).2
           = DbRun "INSERT INTO b VALUES (1)" :: rest) ∧
  (∃ rest, (App.executeQuery (Sample.loaded Sample.fresh "SELECT 1")).2
           = DbExec "SELECT 1" :: rest).
Proof.
  split.
  - exact (proj1 (proj1 (proj2 isDMLQuery_routes)
                    (Sample.loaded Sample.fresh "INSERT INTO b VALUES (1)")
                    Sample.fresh eq_refl)).
  - exact (proj1 (proj2 isDMLQuery_routes)
                 (Sample.loaded Sample.fresh "SELECT 1") Sample.fresh eq_refl).
Defined.

(** C5 as the specification words it fails both ways: a statement that
    begins with UPDATE and goes on without whitespace is no DML for the code,
    and an INSERT with two blanks before INTO is. *)
Lemma isDMLQuery_counterexample :
  Claimed.isDMLQuery "UPDATE[t] SET x = 1" = true ∧
  App.isDMLQuery "UPDATE[t] SET x = 1" = false ∧
  Claimed.isDMLQuery "INSERT  INTO t VALUES (1)" = false ∧
  App.isDMLQuery "INSERT  INTO t VALUES (1)" = true.
Proof. by vm_compute. Qed.


(** ** From the editor to the engine and back to the components *)

Section Records.
Context `{Js.Host}.

Lemma fromEntries_unique {V} (entries : list (string * V)) k v :
  NoDup entries.*1 → (k, v) ∈ entries → Js.fromEntries entries !! k = Some v.
Proof.
  intros Hnodup Hin. unfold Js.fromEntries.
  assert (∀ o : gmap string V,
            foldl (λ o kv, <[kv.1 := kv.2]> o) o entries
            = foldr (λ kv o, <[kv.1 := kv.2]> o) o (reverse entries)) as Hgen.
  { clear. induction entries as [|kv entries IH]; intros o; simpl; [done |].
    by rewrite IH, reverse_cons, foldr_app. }
  rewrite Hgen.
  change (foldr (λ kv o, <[kv.1 := kv.2]> o) ∅ (reverse entries))
    with (list_to_map (reverse entries) : gmap string V).
  apply elem_of_list_to_map.
  - by rewrite fmap_reverse, reverse_Permutation.
  - by apply elem_of_reverse.
Qed.

(** A row becomes the record from column name to cell, a byte array as its
    text. *)
Lemma resultRow_lookup columns row i col :
  NoDup columns → columns !! i = Some col →
  App.resultRow columns row !! col = Some (Db.convertSqlValue (Js.index row i)).
Proof.
  intros Hnodup Hi. unfold App.resultRow. apply fromEntries_unique.
  - rewrite fmap_imap.
    rewrite (imap_ext _ (const id) columns) by done.
    by rewrite imap_const, list_fmap_id.
  - apply elem_of_lookup_imap. by exists i, col.
Qed.

End Records.

Section Stored.
Context `{Js.Host} {E : Type} `{SqlJs.Database E}.

Lemma fromEntries_keys {V} (entries : list (string * V)) k :
  is_Some (Js.fromEntries entries !! k) ↔ k ∈ entries.*1.
Proof.
  unfold Js.fromEntries.
  assert (∀ o : gmap string V,
            is_Some (foldl (λ o kv, <[kv.1 := kv.2]> o) o entries !! k)
            ↔ is_Some (o !! k) ∨ k ∈ entries.*1) as Hgen.
  { induction entries as [|[k' v'] entries IH]; intros o; simpl.
    - rewrite elem_of_nil. tauto.
    - rewrite IH, elem_of_cons. destruct (decide (k' = k)) as [->|Hne].
      + rewrite lookup_insert_eq. split; [by right; left |]. intros _. left. by eexists.
      + rewrite lookup_insert_ne by done. split; [tauto |].
        intros [?|[?|?]]; [by left | congruence | by right]. }
  rewrite Hgen, lookup_empty. split; [intros [[? [=]]|?]; done | by right].
Qed.

Lemma imap_keys {A} (f : nat → string → A) (columns : list string) :
  (imap (λ i col, (col, f i col)) columns).*1 = columns.
Proof.
  rewrite fmap_imap. rewrite (imap_ext _ (const id) columns) by done.
  by rewrite imap_const, list_fmap_id.
Qed.

Lemma resultRow_stored columns row : App.resultRow columns row = storedRow columns row.
Proof. reflexivity. Qed.

Lemma storedRow_keys columns row col :
  is_Some (storedRow columns row !! col) ↔ col ∈ columns.
Proof. unfold storedRow. by rewrite fromEntries_keys, imap_keys. Qed.

Lemma storedRow_cell columns row i col :
  NoDup columns → columns !! i = Some col →
  storedRow columns row !! col = Some (decoded (Js.index row i)).
Proof.
  intros Hnodup Hi. unfold storedRow. apply fromEntries_unique.
  - by rewrite imap_keys.
  - apply elem_of_lookup_imap. by exists i, col.
Qed.

Lemma resultTables_lookup result key :
  App.resultTables result !! key =
    if String.eqb key "__proto__" then None else rowsOf <$> lastUnder key result.
Proof.
  unfold App.resultTables, lastUnder.
  assert (∀ t : gmap string (list TableRow),
            foldl (λ tableData table,
                     Js.assign tableData (Js.join ", " (SqlJs.columns table))
                       (map (App.resultRow (SqlJs.columns table)) (SqlJs.values table)))
                  t result !! key
            = if String.eqb key "__proto__" then t !! key
              else match last (filter (λ table, keyOf table = key) result) with
                   | Some table => Some (rowsOf table)
                   | None => t !! key
                   end) as Hgen.
  { induction result as [|table result IH]; intros t.
    - simpl. by destruct (String.eqb key "__proto__").
    - cbn [foldl]. rewrite IH. fold (keyOf table). fold (rowsOf table).
      destruct (String.eqb key "__proto__") eqn:Hkey.
      + apply String.eqb_eq in Hkey as ->. unfold Js.assign.
        destruct (String.eqb (keyOf table) "__proto__") eqn:Htable; [done |].
        apply String.eqb_neq in Htable. by rewrite lookup_insert_ne.
      + apply String.eqb_neq in Hkey. rewrite filter_cons.
        destruct (decide (keyOf table = key)) as [Heq|Hne].
        * destruct (filter (λ table0, keyOf table0 = key) result) as [|t0 l] eqn:Hf.
          -- simpl. unfold Js.assign. rewrite Heq.
             apply String.eqb_neq in Hkey. rewrite Hkey. by rewrite lookup_insert_eq.
          -- rewrite last_cons_cons.
             destruct (last (t0 :: l)) eqn:Hlast; [done | by apply last_None in Hlast].
        * destruct (last (filter (λ table0, keyOf table0 = key) result)); [done |].
          unfold Js.assign. destruct (String.eqb (keyOf table) "__proto__"); [done |].
          by rewrite lookup_insert_ne. }
  rewrite Hgen, lookup_empty. destruct (String.eqb key "__proto__"); [done |].
  by destruct (last _).
Qed.

Lemma executeQuery_stores (s : App.State E) e r rs e1 :
  App.db s = Some e →
  App.isDMLQuery (App.editorContent s) = false →
  SqlJs.exec (App.editorContent s) e = (inr (r :: rs), e1) →
  App.queryResults (App.executeQuery s).1.2 = Some (App.resultTables (r :: rs)) ∧
  App.resultsPane (App.render (App.executeQuery s).1.2)
  = App.QueryOutputTable (Some (App.resultTables (r :: rs))).
Proof.
  intros Hdb Hdml Hexec.
  rewrite (executeQuery_run s e Hdb). unfold statement. rewrite Hdml, Hexec.
  match goal with
  | |- context [refetch ?s1] =>
      destruct (refetch_frame s1) as (s2 & log2 & -> & _ & Hq & He & Hm & _)
  end.
  cbn [fst snd]. unfold App.render, App.with_leftWidth.
  cbn [App.resultsPane App.queryResults App.queryError App.queryMessage].
  rewrite Hq, He, Hm. done.
Qed.
End Stored.

(** C6: [executeQuery] hands the editor's text to the engine as it is: the
    first call is [db.run] or [db.exec] on exactly [editorContent].  The
    result sets the engine returns become [queryResults]: under the joined
    column names of a result set (other than [__proto__]) the rows of the
    last result set with those columns, each row a record with one entry for
    each column name, the cell of that column with a byte array decoded.  The
    root view passes the state on as props: [tables] to the available-tables
    component, [tableSchemas] to the schema graph, and [queryResults] to the
    results table whenever that component is rendered (no error and no
    message to show), as it is after a query that returned result sets. *)
Theorem executeQuery_forwards `{Js.Host} {E : Type} `{SqlJs.Database E} :
  (∀ (s : App.State E) e,
     App.db s = Some e →
     ∃ rest,
       (App.executeQuery s).2 =
         (if App.isDMLQuery (App.editorContent s)
          then DbRun (App.editorContent s) else DbExec (App.editorContent s)) :: rest) ∧
  (∀ (s : App.State E) e r rs e1,
     App.db s = Some e →
     App.isDMLQuery (App.editorContent s) = false →
     SqlJs.exec (App.editorContent s) e = (inr (r :: rs), e1) →
     App.queryResults (App.executeQuery s).1.2 = Some (App.resultTables (r :: rs)) ∧
     App.resultsPane (App.render (App.executeQuery s).1.2)
     = App.QueryOutputTable (Some (App.resultTables (r :: rs))) ∧
     ∀ key, App.resultTables (r :: rs) !! key =
              if String.eqb key "__proto__" then None
              else rowsOf <$> lastUnder key (r :: rs)) ∧
  (∀ columns row,
     (∀ col, is_Some (App.resultRow columns row !! col) ↔ col ∈ columns) ∧
     ∀ i col,
       NoDup columns → columns !! i = Some col →
       App.resultRow columns row !! col = Some (Db.convertSqlValue (Js.index row i))) ∧
  (∀ s : App.State E,
     App.AvailableTables_tables (App.render s) = App.tables s ∧
     App.SchemaViewer_tables (App.render s) = App.tableSchemas s ∧
     (App.truthy (App.queryError s) = false →
      App.truthy (App.queryMessage s) = false →
      App.resultsPane (App.render s) = App.QueryOutputTable (App.queryResults s))).
Proof.
  split_and!.
  - intros s e Hdb. rewrite (executeQuery_run s e Hdb). unfold statement.
    destruct (App.isDMLQuery (App.editorContent s)).
    + destruct (SqlJs.run (App.editorContent s) e) as [[err|[]] e1];
        match goal with
        | |- context [refetch ?s1] => destruct (refetch_total s1) as (s2 & log2 & ->)
        end; by eexists.
    + destruct (SqlJs.exec (App.editorContent s) e) as [[err|[|r rs]] e1];
        match goal with
        | |- context [refetch ?s1] => destruct (refetch_total s1) as (s2 & log2 & ->)
        end; by eexists.
  - intros s e r rs e1 Hdb Hdml Hexec.
    destruct (executeQuery_stores s e r rs e1 Hdb Hdml Hexec) as [Hq Hpane].
    split; [exact Hq |]. split; [exact Hpane |]. intros key. apply resultTables_lookup.
  - intros columns row. split.
    + intros col. rewrite resultRow_stored. apply storedRow_keys.
    + intros i col. apply resultRow_lookup.
  - intros s. unfold App.render. cbn. split_and!; try done.
    by intros -> ->.
Qed.

(** A query on the sample engine: its text reaches [db.exec] and the rows of
    its second result set the results table. *)
Lemma executeQuery_forwards_witness :
  let s := Sample.loaded Sample.fresh "SELECT 1 AS x; SELECT 2 AS x" in
  App.db s = Some Sample.fresh ∧
  (∃ rest, (App.executeQuery s).2 = DbExec "SELECT 1 AS x; SELECT 2 AS x" :: rest) ∧
  App.resultsPane (App.render (App.executeQuery s).1.2)
  = App.QueryOutputTable (Some {[ "x" := [ {[ "x" := Sample.num 2 ]} ] ]}).
Proof.
  split; [reflexivity |]. split.
  - exact (proj1 (@executeQuery_forwards Sample.host _ Sample.toy)
             (Sample.loaded Sample.fresh "SELECT 1 AS x; SELECT 2 AS x") Sample.fresh eq_refl).
  - vm_compute. reflexivity.
Defined.

(** ** Downloading the database *)

(** C7: with a database loaded, [downloadDatabase] downloads exactly the
    bytes that [db.export()] returns, under the name of the loaded file, or
    the default name when there is none, and says so.  (The call sits in a
    [try]: should [db.export()] throw, the error goes to the console and into
    an alert and nothing is downloaded.)  With no database loaded it shows an
    alert, downloads nothing and leaves the state as it is. *)
Theorem downloadDatabase_exports `{Js.Host} {E : Type} `{SqlJs.Database E} :
  (∀ (s : App.State E) e data e1,
     App.db s = Some e → SqlJs.export e = (inr data, e1) →
     App.downloadDatabase s =
       (inr (), App.with_db (Some e1) s,
        [ DbExport; Download (downloadName s) data;
          Alert ("Database " +:+ Db.dquote +:+ downloadName s +:+ Db.dquote
                 +:+ " downloaded successfully!") ])) ∧
  (∀ (s : App.State E) e err e1,
     App.db s = Some e → SqlJs.export e = (inl err, e1) →
     App.downloadDatabase s =
       (inr (), App.with_db (Some e1) s,
        [ DbExport; ConsoleError "Error downloading database:" err;
          Alert ("Error downloading database: " +:+ Js.errorMessage err) ])) ∧
  (∀ s : App.State E,
     App.db s = None →
     App.downloadDatabase s =
       (inr (), s,
        [ Alert "No database to download. Please create tables or load a database first." ])).
Proof.
  split_and!.
  - intros s e data e1 Hdb Hexport.
    unfold App.downloadDatabase, Eff.bind at 1, Eff.get. rewrite Hdb.
    unfold Eff.try_catch, Eff.bind, App.on_db, Db.export, Db.call.
    rewrite Hdb, Hexport. reflexivity.
  - intros s e err e1 Hdb Hexport.
    unfold App.downloadDatabase, Eff.bind at 1, Eff.get. rewrite Hdb.
    unfold Eff.try_catch, Eff.bind, App.on_db, Db.export, Db.call.
    rewrite Hdb, Hexport. reflexivity.
  - intros s Hdb.
    unfold App.downloadDatabase, Eff.bind at 1, Eff.get. rewrite Hdb. reflexivity.
Qed.

(** The sample engine exports three bytes; a file that is no database is
    exported as its bytes, and downloaded. *)
Lemma downloadDatabase_exports_witness :
  let s := Sample.loaded Sample.fresh "" in
  let s' := Sample.loaded Sample.broken "" in
  App.db s = Some Sample.fresh ∧
  (App.downloadDatabase s).2 !! 1%nat
  = Some (Download "sql-playground-export.sqlite" [Byte.x53; Byte.x51; Byte.x4c]) ∧
  (App.downloadDatabase s').2 !! 1%nat
  = Some (Download "sql-playground-export.sqlite" [Byte.x6e; Byte.x6f; Byte.x74]).
Proof.
  split; [reflexivity |].
  rewrite (proj1 (@downloadDatabase_exports Sample.host _ Sample.toy)
             (Sample.loaded Sample.fresh "") Sample.fresh
             [Byte.x53; Byte.x51; Byte.x4c] Sample.fresh eq_refl eq_refl).
  rewrite (proj1 (@downloadDatabase_exports Sample.host _ Sample.toy)
             (Sample.loaded Sample.broken "") Sample.broken
             [Byte.x6e; Byte.x6f; Byte.x74] Sample.broken eq_refl eq_refl).
  split; reflexivity.
Defined.

(** ** The navigation bar *)

(** C8: the bar calls its props in three ways and no other.  A change of the
    file input with a file chosen calls [onFileSelect] with the first file
    (with none chosen it calls nothing); a click on Download calls
    [onDownloadDb]; a click on Clear calls [onClearDb] when the user confirms
    and nothing when the user declines. *)
Theorem navbar_emits :
  (∀ file rest fileName,
     Navbar.handle (Navbar.FileInputChange (Some (file :: rest))) fileName
     = (File.name file, [Navbar.onFileSelect file])) ∧
  (∀ fileName,
     Navbar.handle (Navbar.FileInputChange (Some [])) fileName = (fileName, []) ∧
     Navbar.handle (Navbar.FileInputChange None) fileName = (fileName, [])) ∧
  (∀ fileName, Navbar.handle Navbar.DownloadClick fileName = (fileName, [Navbar.onDownloadDb])) ∧
  (∀ fileName,
     Navbar.handle (Navbar.ClearClick true) fileName = ("New Database", [Navbar.onClearDb])) ∧
  (∀ fileName, Navbar.handle (Navbar.ClearClick false) fileName = (fileName, [])) ∧
  (∀ input fileName emitted,
     emitted ∈ (Navbar.handle input fileName).2 →
     (Navbar.handle input fileName).2 = [emitted] ∧
     match emitted with
     | Navbar.onFileSelect file =>
         ∃ rest, input = Navbar.FileInputChange (Some (file :: rest))
     | Navbar.onDownloadDb => input = Navbar.DownloadClick
     | Navbar.onClearDb => input = Navbar.ClearClick true
     end).
Proof.
  split_and!; try done.
  intros [[[|file rest]|]| |[]] fileName emitted; simpl;
    try (by intros ?%elem_of_nil);
    intros ->%list_elem_of_singleton; split; eauto.
Qed.

(** ** Result sets that share their column names *)

Section Collisions.
Context `{Js.Host}.

Lemma assign_size {V} (t : gmap string V) key v :
  size (Js.assign t key v) ≤ S (size t).
Proof.
  unfold Js.assign. destruct (String.eqb key "__proto__"); [lia |].
  rewrite map_size_insert. destruct (t !! key); simpl; lia.
Qed.

Lemma resultTables_size result :
  size (App.resultTables result) ≤ length result.
Proof.
  unfold App.resultTables.
  assert (∀ t : gmap string (list TableRow),
            size (foldl (λ tableData table,
                           Js.assign tableData (Js.join ", " (SqlJs.columns table))
                             (map (App.resultRow (SqlJs.columns table)) (SqlJs.values table)))
                        t result)
            ≤ size t + length result) as Hgen.
  { induction result as [|r result IH]; intros t; simpl; [lia |].
    etrans; [apply IH |].
    pose proof (assign_size t (Js.join ", " (SqlJs.columns r))
                  (map (App.resultRow (SqlJs.columns r)) (SqlJs.values r))).
    lia. }
  specialize (Hgen ∅). by rewrite map_size_empty in Hgen.
Qed.

(** Of two result sets with the same columns the second takes the place of
    the first. *)
Lemma resultTables_last_wins columns rowsA rowsB :
  String.eqb (Js.join ", " columns) "__proto__" = false →
  App.resultTables [ {| SqlJs.columns := columns; SqlJs.values := rowsA |};
                     {| SqlJs.columns := columns; SqlJs.values := rowsB |} ]
  = {[ Js.join ", " columns := map (App.resultRow columns) rowsB ]}.
Proof.
  intros Hkey. unfold App.resultTables, Js.assign. simpl. rewrite Hkey.
  by rewrite insert_insert_eq, insert_empty.
Qed.

End Collisions.

(** C9: on the query path [executeQuery] stores each result set under its
    column names joined by ", ".  From every view with a database loaded,
    when the query returns result sets, [queryResults] has at most as many
    entries as there were result sets, and under each key the rows of the last
    result set with those column names; of two result sets with the same
    column names only the second is kept. *)
Theorem queryResults_keyed_by_columns `{Js.Host} {E : Type} `{SqlJs.Database E} :
  (∀ (s : App.State E) e r rs e1,
     App.db s = Some e →
     App.isDMLQuery (App.editorContent s) = false →
     SqlJs.exec (App.editorContent s) e = (inr (r :: rs), e1) →
     ∃ kept,
       App.queryResults (App.executeQuery s).1.2 = Some kept ∧
       size kept ≤ length (r :: rs) ∧
       ∀ key, kept !! key =
                if String.eqb key "__proto__" then None
                else rowsOf <$> lastUnder key (r :: rs)) ∧
  (∀ (s : App.State E) e columns rowsA rowsB e1,
     App.db s = Some e →
     App.isDMLQuery (App.editorContent s) = false →
     SqlJs.exec (App.editorContent s) e
     = (inr [ {| SqlJs.columns := columns; SqlJs.values := rowsA |};
              {| SqlJs.columns := columns; SqlJs.values := rowsB |} ], e1) →
     String.eqb (Js.join ", " columns) "__proto__" = false →
     App.queryResults (App.executeQuery s).1.2
     = Some {[ Js.join ", " columns := map (App.resultRow columns) rowsB ]}).
Proof.
  split.
  - intros s e r rs e1 Hdb Hdml Hexec.
    destruct (executeQuery_stores s e r rs e1 Hdb Hdml Hexec) as [Hq _].
    eexists. split; [exact Hq |]. split; [apply resultTables_size |].
    intros key. apply resultTables_lookup.
  - intros s e columns rowsA rowsB e1 Hdb Hdml Hexec Hkey.
    destruct (executeQuery_stores s e _ _ e1 Hdb Hdml Hexec) as [-> _].
    by rewrite resultTables_last_wins.
Qed.

(** The two selects of the sample engine return two result sets with the
    column [x]: one entry is left, with the row of the second. *)
Lemma queryResults_keyed_by_columns_witness :
  let s := Sample.loaded Sample.fresh "SELECT 1 AS x; SELECT 2 AS x" in
  let result :=
    [ {| SqlJs.columns := ["x"]; SqlJs.values := [[Sample.num 1]] |};
      {| SqlJs.columns := ["x"]; SqlJs.values := [[Sample.num 2]] |} ] in
  App.db s = Some Sample.fresh ∧
  SqlJs.exec (App.editorContent s) Sample.fresh = (inr result, Sample.fresh) ∧
  length result = 2 ∧
  App.queryResults (App.executeQuery s).1.2 = Some {[ "x" := [ {[ "x" := Sample.num 2 ]} ] ]}.
Proof.
  split; [reflexivity |]. split; [reflexivity |]. split; [reflexivity |].
  rewrite (proj2 (@queryResults_keyed_by_columns Sample.host _ Sample.toy)
             (Sample.loaded Sample.fresh "SELECT 1 AS x; SELECT 2 AS x") Sample.fresh
             ["x"] [[Sample.num 1]] [[Sample.num 2]] Sample.fresh
             eq_refl eq_refl eq_refl eq_refl).
  reflexivity.
Defined.


(** ** The pane fractions *)

Lemma bounds_ordered : (Q2Qc (2 # 10) ≤ Q2Qc (8 # 10))%Qc.
Proof. by vm_compute. Qed.

Lemma clamp_inRange x :
  x ≠ Js.NaN → inRange (Js.Math_max App.minFraction (Js.Math_min App.maxFraction x)).
Proof.
  intros Hx. unfold App.minFraction, App.maxFraction.
  destruct x as [q| | |]; simpl; [| | | done].
  - case_bool_decide as Hmax; simpl.
    + split; [apply bounds_ordered | done].
    + case_bool_decide as Hmin; simpl.
      * split; [done |]. apply Qclt_le_weak. by apply Qcnot_le_lt.
      * split; [done | apply bounds_ordered].
  - split; [apply bounds_ordered | done].
  - split; [done | apply bounds_ordered].
Qed.

Lemma of_N_nonzero n : n ≠ 0%N → Js.is_zero (Q2Qc (inject_Z (Z.of_N n))) = false.
Proof.
  intros Hn. unfold Js.is_zero. apply bool_decide_false. intros Heq.
  apply (f_equal this) in Heq. simpl in Heq.
  apply Qred_eq_iff in Heq. unfold Qeq in Heq. simpl in Heq. lia.
Qed.

Lemma sub_zero (x y : Qc) : Js.is_zero (x + - y) = true → x = y.
Proof.
  unfold Js.is_zero. intros Hz%bool_decide_eq_true.
  replace x with ((x + - y) + y)%Qc by ring. rewrite Hz. ring.
Qed.

Lemma delta_defined (x x0 : Qc) (w : N) :
  w ≠ 0%N ∨ x ≠ x0 →
  Js.div (Js.sub (Js.Finite x) (Js.Finite x0)) (App.of_N w) ≠ Js.NaN.
Proof.
  intros Hdef. unfold Js.sub, Js.neg, Js.add, Js.div, App.of_N.
  destruct (Js.is_zero (Q2Qc (inject_Z (Z.of_N w)))) eqn:Hw; [| done].
  destruct (Js.is_zero (x + - x0)) eqn:Hx; [| by destruct (Js.is_neg _)].
  apply sub_zero in Hx. destruct Hdef as [Hw' | Hx']; [| done].
  by rewrite (of_N_nonzero w Hw') in Hw.
Qed.

Lemma move_inRange startFraction delta :
  inRange startFraction → delta ≠ Js.NaN →
  inRange (Js.Math_max App.minFraction
             (Js.Math_min App.maxFraction (Js.add startFraction delta))).
Proof.
  intros Hstart Hdelta. apply clamp_inRange.
  destruct startFraction as [q| | |]; try done. by destruct delta.
Qed.

Section Layout.
Context `{Js.Host} {E : Type} `{SqlJs.Database E}.
Import App.

Lemma sameLayout_inRange (s s' : State E) :
  sameLayout s s' → layoutInRange s → layoutInRange s'.
Proof. unfold layoutInRange. by intros (-> & -> & ->). Qed.

Lemma sameSurround_layout (s s' : State E) : sameSurround s s' → sameLayout s s'.
Proof. by intros (_ & _ & ? & ? & ?). Qed.

Lemma horizontal_drag_inRange e moves (s : State E) :
  Forall (definedMove true e) moves → layoutInRange s →
  layoutInRange (handleHorizontalResize e moves s).1.2.
Proof.
  intros Hmoves (Hl & Htl & Htr). unfold handleHorizontalResize, Eff.bind, Eff.get.
  pose proof (forEach_store (λ s' : State E, layoutInRange s') (definedMove true e)
                (λ (_ : ()) (move : MouseEvent * Window),
                   horizontalMove (clientX e) (leftWidth s) move.1 move.2)
                moves) as Hloop.
  assert (layoutInRange (Eff.forEach
            (λ (_ : ()) (move : MouseEvent * Window),
               horizontalMove (clientX e) (leftWidth s) move.1 move.2) () moves s).1.2)
    as Hend.
  { apply Hloop; [| done | done].
    intros [] move s1 Hmove (_ & Htl1 & Htr1). unfold horizontalMove.
    split_and!; [| done | done]. cbn.
    apply move_inRange; [done |]. by apply delta_defined. }
  by destruct (Eff.forEach _ () moves s) as [[r s'] log].
Qed.

Lemma step_layout (s : State E) ev :
  definedEvent ev → layoutInRange s → layoutInRange (step s ev).
Proof.
  intros Hev Hs. pose proof Hs as (Hl & Htl & Htr). unfold step.
  destruct ev as [newDb|f|newValue| | |SQL|e moves|e moves|e moves]; cbn [handler].
  - unfold Eff.bind, setDb, Eff.modify.
    destruct (dbEffect_frame (with_db (Some newDb) s)) as (s' & log & -> & Hsur & _).
    cbn [fst snd]. by apply (sameLayout_inRange _ _ (sameSurround_layout _ _ Hsur)).
  - done.
  - done.
  - destruct (executeQuery_frame s) as (s' & log & -> & Hsur & _).
    cbn [fst snd]. by apply (sameLayout_inRange _ _ (sameSurround_layout _ _ Hsur)).
  - destruct (downloadDatabase_frame s) as (s' & log & -> & Hsur & _).
    cbn [fst snd]. by apply (sameLayout_inRange _ _ (sameSurround_layout _ _ Hsur)).
  - unfold Eff.bind.
    destruct (clearDatabase_frame SQL s) as (s1 & log1 & -> & Hlay & _).
    destruct SQL as [err|newDb]; [by apply (sameLayout_inRange _ _ Hlay) |].
    destruct (dbEffect_frame s1) as (s' & log & -> & Hsur & _).
    cbn [fst snd]. apply (sameLayout_inRange _ _ (sameSurround_layout _ _ Hsur)).
    by apply (sameLayout_inRange _ _ Hlay).
  - by apply horizontal_drag_inRange.
  - unfold Eff.bind at 1, Eff.get.
    assert (layoutInRange
              (handleVerticalResize e setTopHeightLeft (topHeightLeft s) moves s).1.2)
      as Hend.
    { unfold handleVerticalResize.
      apply (forEach_store (λ s' : State E, layoutInRange s') (definedMove false e));
        [| done | done].
      intros [] move s1 Hmove (Hl1 & _ & Htr1). unfold verticalMove.
      split_and!; [done | | done]. cbn.
      apply move_inRange; [done |]. by apply delta_defined. }
    by destruct (handleVerticalResize e setTopHeightLeft (topHeightLeft s) moves s)
      as [[r s'] log].
  - unfold Eff.bind at 1, Eff.get.
    assert (layoutInRange
              (handleVerticalResize e setTopHeightRight (topHeightRight s) moves s).1.2)
      as Hend.
    { unfold handleVerticalResize.
      apply (forEach_store (λ s' : State E, layoutInRange s') (definedMove false e));
        [| done | done].
      intros [] move s1 Hmove (Hl1 & Htl1 & _). unfold verticalMove.
      split_and!; [done | done |]. cbn.
      apply move_inRange; [done |]. by apply delta_defined. }
    by destruct (handleVerticalResize e setTopHeightRight (topHeightRight s) moves s)
      as [[r s'] log].
Qed.

End Layout.

(** C10, as the code has it: in a resize drag every mouse move whose [delta]
    is a number sets the pane's fraction to a value clamped to the closed
    interval from 0.2 to 0.8 (a move in a window of size zero with the pointer
    where the drag began divides zero by zero and is left out here).  The
    three fractions start at 0.3, 0.5 and 0.5, and nothing else changes them,
    so over any sequence of such events all three stay within 0.2 and 0.8. *)
Theorem layout_stays_in_range `{Js.Host} {E : Type} `{SqlJs.Database E}
        (evs : list (App.Event E)) :
  Forall definedEvent evs →
  layoutInRange (App.run_events evs (App.initial E)).
Proof.
  unfold App.run_events.
  assert (layoutInRange (App.initial E)) as Hinit.
  { unfold layoutInRange, App.initial; simpl. by vm_compute. }
  revert Hinit. generalize (App.initial E).
  induction evs as [|ev evs IH]; intros s Hs Hevs; simpl; [done |].
  inversion Hevs as [|? ? Hev Hrest]; subst.
  apply IH; [| done]. by apply step_layout.
Qed.

(** The database loads, the left edge is dragged 100 pixels to the right in a
    window 1000 wide, and a statement runs. *)
Lemma layout_stays_in_range_witness :
  let evs :=
    [ App.DbReady Sample.fresh;
      App.DragHorizontal (Sample.at_pixel 300 10)
        [ (Sample.at_pixel 400 10, Sample.window 1000 800) ];
      App.RunSql ] in
  Forall definedEvent evs ∧
  layoutInRange (App.run_events evs (App.initial Sample.ToyDb)).
Proof.
  assert (Forall (@definedEvent Sample.ToyDb)
            [ App.DbReady Sample.fresh;
              App.DragHorizontal (Sample.at_pixel 300 10)
                [ (Sample.at_pixel 400 10, Sample.window 1000 800) ];
              App.RunSql ]) as Hdefined.
  { constructor; [exact I |]. constructor; [| by repeat constructor].
    constructor; [by left | constructor]. }
  exact (conj Hdefined (layout_stays_in_range _ Hdefined)).
Defined.

(** C10 as the specification words it: a drag of the left edge in a window of
    width zero, with the pointer where the button went down, leaves
    [leftWidth] at NaN, outside every interval. *)
Lemma layout_stays_in_range_counterexample :
  App.leftWidth
    (App.run_events
       [ App.DragHorizontal (Sample.at_pixel 300 10)
           [ (Sample.at_pixel 300 20, Sample.window 0 0) ] ]
       (App.initial Sample.ToyDb))
  = Js.NaN.
Proof. by vm_compute. Qed.


(** * Further properties of the root view *)

(** ** The two fetchers *)

(** X1: [fetchTables] and [fetchTableSchemas] never throw, whatever the engine
    does.  With no database they do nothing.  With one, [fetchTables] changes
    [tables] (to what was read, or not at all when a read threw, which it
    logs) and the engine, and nothing else; [fetchTableSchemas] does the same
    for [tableSchemas]. *)
Theorem fetchers_contained `{Js.Host} {E : Type} `{SqlJs.Database E} (s : App.State E) :
  (App.db s = None →
   App.fetchTables s = (inr (), s, []) ∧ App.fetchTableSchemas s = (inr (), s, [])) ∧
  (∀ e, App.db s = Some e →
     App.fetchTables s =
       (inr (),
        App.with_tables (from_inr (App.tables s) (Db.fetchTablesData e).1.1)
          (App.with_db (Some (Db.fetchTablesData e).1.2) s),
        (Db.fetchTablesData e).2
        ++ logged "Error fetching tables:" (Db.fetchTablesData e).1.1) ∧
     App.fetchTableSchemas s =
       (inr (),
        App.with_tableSchemas
          (from_inr (App.tableSchemas s) (Db.fetchTableSchemasData e).1.1)
          (App.with_db (Some (Db.fetchTableSchemasData e).1.2) s),
        (Db.fetchTableSchemasData e).2
        ++ logged "Error fetching table schemas:" (Db.fetchTableSchemasData e).1.1)).
Proof.
  split.
  - intros Hdb. unfold App.fetchTables, App.fetchTableSchemas, Eff.bind, Eff.get.
    by rewrite Hdb.
  - intros e Hdb. rewrite (fetchTables_run s e Hdb), (fetchTableSchemas_run s e Hdb).
    destruct (Db.fetchTablesData e) as [[r1 e1] log1].
    by destruct (Db.fetchTableSchemasData e) as [[r2 e2] log2].
Qed.

(** On a file that is no database the read of the catalog throws: the view
    stays as it was, and the error goes to the console. *)
Lemma fetchers_contained_witness :
  App.db (Sample.loaded Sample.broken "") = Some Sample.broken ∧
  App.fetchTables (Sample.loaded Sample.broken "")
  = (inr (), Sample.loaded Sample.broken "",
     [ DbExec Db.catalogQuery;
       ConsoleError "Error fetching tables:" (Js.Error "file is not a database") ]).
Proof.
  split; [reflexivity |].
  rewrite (proj1 (proj2 (fetchers_contained (Sample.loaded Sample.broken ""))
                    Sample.broken eq_refl)).
  reflexivity.
Defined.

(** ** What a run leaves alone, and what it shows *)

(** X2: [executeQuery] never changes the loaded file, the editor's text or the
    three pane fractions (the width it sets at the end is the one it read at
    the start), and a loaded database stays loaded.  With no database it does
    nothing at all. *)
Theorem executeQuery_keeps_surround `{Js.Host} {E : Type} `{SqlJs.Database E}
        (s : App.State E) :
  sameSurround s (App.executeQuery s).1.2 ∧
  (is_Some (App.db s) → is_Some (App.db (App.executeQuery s).1.2)) ∧
  (App.db s = None → App.executeQuery s = (inr (), s, [])).
Proof.
  split_and!.
  - by destruct (executeQuery_frame s) as (s' & log & -> & Hsur & _).
  - intros [e Hdb]. rewrite (executeQuery_run s e Hdb).
    destruct (statement_engine s e) as (Hdb1 & _).
    destruct (statement s e) as [[s1 log0] again]. cbn [fst snd] in Hdb1.
    rewrite (refetch_run s1 _ Hdb1).
    destruct (catalog (afterStatement (App.editorContent s) e)) as [[[r1 r2] e2] log].
    by destruct again.
  - intros Hdb. unfold App.executeQuery, Eff.bind, Eff.get. by rewrite Hdb.
Qed.

Lemma run_pane `{Js.Host} {E : Type} `{SqlJs.Database E} (s : App.State E) (e : E) :
  App.db s = Some e →
  App.resultsPane (App.render (App.executeQuery s).1.2) =
    if App.isDMLQuery (App.editorContent s) then
      match SqlJs.run (App.editorContent s) e with
      | (inl err, _) => App.ErrorBox ("SQL Error: " +:+ Js.errorMessage err)
      | (inr _, e1) =>
          App.SuccessBox ("Query executed successfully. Rows affected: "
                          +:+ pretty (SqlJs.getRowsModified e1))
      end
    else
      match SqlJs.exec (App.editorContent s) e with
      | (inl err, _) => App.ErrorBox ("SQL Error: " +:+ Js.errorMessage err)
      | (inr [], _) => App.SuccessBox "Query executed successfully. No rows returned."
      | (inr result, _) => App.QueryOutputTable (Some (App.resultTables result))
      end.
Proof.
  intros Hdb. rewrite (executeQuery_run s e Hdb). unfold statement.
  destruct (App.isDMLQuery (App.editorContent s)).
  - destruct (SqlJs.run (App.editorContent s) e) as [[err|[]] e1];
      match goal with
      | |- context [refetch ?s1] =>
          destruct (refetch_frame s1) as (s2 & log2 & -> & _ & Hq & He & Hm & _)
      end;
      cbn [fst snd]; unfold App.render, App.with_leftWidth;
      cbn [App.resultsPane App.queryResults App.queryError App.queryMessage];
      rewrite ?Hq, ?He, ?Hm; reflexivity.
  - destruct (SqlJs.exec (App.editorContent s) e) as [[err|[|r rs]] e1];
      match goal with
      | |- context [refetch ?s1] =>
          destruct (refetch_frame s1) as (s2 & log2 & -> & _ & Hq & He & Hm & _)
      end;
      cbn [fst snd]; unfold App.render, App.with_leftWidth;
      cbn [App.resultsPane App.queryResults App.queryError App.queryMessage];
      rewrite ?Hq, ?He, ?Hm; reflexivity.
Qed.

(** X3: after a run with a database loaded the results pane shows exactly one
    of three things, decided by what the engine did with the statement: the
    error box when it threw; the success box with the count of rows changed
    when [db.run] returned, or with "No rows returned." when [db.exec]
    returned no result set; the results table otherwise.  The table is given
    the result sets as records: under the joined column names of a result set
    (other than [__proto__]) the rows of the last result set with those
    columns, each row with one entry for each column name, holding the cell
    of that column, a byte array decoded to text. *)
Theorem run_shows `{Js.Host} {E : Type} `{SqlJs.Database E} (s : App.State E) (e : E) :
  App.db s = Some e →
  (App.resultsPane (App.render (App.executeQuery s).1.2) =
    if App.isDMLQuery (App.editorContent s) then
      match SqlJs.run (App.editorContent s) e with
      | (inl err, _) => App.ErrorBox ("SQL Error: " +:+ Js.errorMessage err)
      | (inr _, e1) =>
          App.SuccessBox ("Query executed successfully. Rows affected: "
                          +:+ pretty (SqlJs.getRowsModified e1))
      end
    else
      match SqlJs.exec (App.editorContent s) e with
      | (inl err, _) => App.ErrorBox ("SQL Error: " +:+ Js.errorMessage err)
      | (inr [], _) => App.SuccessBox "Query executed successfully. No rows returned."
      | (inr result, _) => App.QueryOutputTable (Some (App.resultTables result))
      end) ∧
  (∀ result key,
     App.resultTables result !! key =
       if String.eqb key "__proto__" then None else rowsOf <$> lastUnder key result) ∧
  (∀ columns row,
     (∀ col, is_Some (App.resultRow columns row !! col) ↔ col ∈ columns) ∧
     ∀ i col,
       NoDup columns → columns !! i = Some col →
       App.resultRow columns row !! col = Some (decoded (Js.index row i))).
Proof.
  intros Hdb. split; [by apply run_pane |]. split.
  - intros result key. apply resultTables_lookup.
  - intros columns row. rewrite resultRow_stored. split.
    + intros col. apply storedRow_keys.
    + intros i col. apply storedRow_cell.
Qed.

(** An insert into [b] of the sample engine reports one row; the two selects
    show the row of the second. *)
Lemma run_shows_witness :
  let inserting := Sample.loaded Sample.fresh "INSERT INTO b VALUES (1)" in
  let asking := Sample.loaded Sample.fresh "SELECT 1 AS x; SELECT 2 AS x" in
  App.db inserting = Some Sample.fresh ∧
  App.resultsPane (App.render (App.executeQuery inserting).1.2)
  = App.SuccessBox "Query executed successfully. Rows affected: 1" ∧
  App.resultsPane (App.render (App.executeQuery asking).1.2)
  = App.QueryOutputTable (Some {[ "x" := [ {[ "x" := Sample.num 2 ]} ] ]}).
Proof.
  split; [reflexivity |]. split.
  - exact (proj1 (run_shows (Sample.loaded Sample.fresh "INSERT INTO b VALUES (1)")
                            Sample.fresh eq_refl)).
  - rewrite (proj1 (run_shows (Sample.loaded Sample.fresh "SELECT 1 AS x; SELECT 2 AS x")
                              Sample.fresh eq_refl)).
    vm_compute. reflexivity.
Defined.

(** ** Clearing the database *)

(** X4: [clearDatabase] resets or does nothing.  With a fresh engine it
    leaves the view as it is when the page opens (no file, no tables, no
    schemas, no results, no error, the editor's first text) but for three
    things: the engine is the fresh one, the three pane fractions stay as the
    user left them, and the success box reads "Database cleared
    successfully. Start with a fresh database.".  When the engine cannot be
    made, nothing in the view changes: the error goes to the console and into
    an alert. *)
Theorem clearDatabase_resets {E : Type} (s : App.State E) :
  (∀ newDb,
     App.clearDatabase (inr newDb) s =
       (inr (),
        App.with_queryMessage
          (Some "Database cleared successfully. Start with a fresh database.")
          (App.with_db (Some newDb)
             (App.with_topHeightRight (App.topHeightRight s)
                (App.with_topHeightLeft (App.topHeightLeft s)
                   (App.with_leftWidth (App.leftWidth s) (App.initial E))))),
        []) ∧
     App.resultsPane (App.render (App.clearDatabase (inr newDb) s).1.2)
     = App.SuccessBox "Database cleared successfully. Start with a fresh database.") ∧
  (∀ err,
     App.clearDatabase (inl err) s =
       (inr (), s,
        [ ConsoleError "Error clearing database:" err;
          Alert ("Error clearing database: " +:+ Js.errorMessage err) ])).
Proof.
  split.
  - intros newDb. by destruct s.
  - intros err. by destruct s.
Qed.

(** ** Drags as functions of the pointer *)

Section DragFacts.
Context {E : Type}.
Import App.

Lemma horizontal_moves_run x0 f0 moves (s : State E) :
  Eff.forEach (λ (_ : ()) (move : MouseEvent * Window),
                 horizontalMove x0 f0 move.1 move.2) () moves s
  = (inr (), afterDrag with_leftWidth f0 x0 alongX moves s, []).
Proof.
  revert s. induction moves as [|move moves IH]; intros s; [done |].
  cbn [Eff.forEach]. unfold Eff.bind at 1. unfold horizontalMove at 1.
  unfold setLeftWidth, Eff.modify. rewrite IH. cbv beta iota zeta. f_equal. f_equal.
  unfold afterDrag. destruct moves as [|move' moves]; [done |].
  rewrite last_cons_cons.
  destruct (last (move' :: moves)) eqn:Hlast; [done | by apply last_None in Hlast].
Qed.

Lemma vertical_moves_run (set : Js.number → State E → State E) y0 f0 moves (s : State E) :
  (∀ v w s1, set v (set w s1) = set v s1) →
  Eff.forEach (λ (_ : ()) (move : MouseEvent * Window),
                 verticalMove (λ v, Eff.modify (set v)) y0 f0 move.1 move.2) () moves s
  = (inr (), afterDrag set f0 y0 alongY moves s, []).
Proof.
  intros Hset. revert s. induction moves as [|move moves IH]; intros s; [done |].
  cbn [Eff.forEach]. unfold Eff.bind at 1. unfold verticalMove at 1.
  unfold Eff.modify at 1. rewrite IH. cbv beta iota zeta. f_equal. f_equal.
  unfold afterDrag. destruct moves as [|move' moves]; [done |].
  rewrite last_cons_cons.
  destruct (last (move' :: moves)) eqn:Hlast; [apply Hset | by apply last_None in Hlast].
Qed.

Lemma afterDrag_outcome set f0 x0 axis moves (s : State E) :
  (∀ v s1, queryError (set v s1) = queryError s1 ∧ queryMessage (set v s1) = queryMessage s1) →
  queryError (afterDrag set f0 x0 axis moves s) = queryError s ∧
  queryMessage (afterDrag set f0 x0 axis moves s) = queryMessage s.
Proof. intros Hset. unfold afterDrag. by destruct (last moves). Qed.

Lemma fractionAt_start f x n :
  inRange f → n ≠ 0%N → fractionAt f x x n = f.
Proof.
  intros Hf Hn. unfold fractionAt, Js.sub, Js.neg, Js.add at 2, Js.div, App.of_N.
  rewrite (of_N_nonzero n Hn). destruct f as [q| | |]; try done.
  destruct Hf as [Hlo Hhi]. unfold Js.add.
  replace (q + (x + - x) / Q2Qc (inject_Z (Z.of_N n)))%Qc with q.
  2: { replace (x + - x)%Qc with (Q2Qc 0) by ring. unfold Qcdiv. ring. }
  unfold App.minFraction, App.maxFraction, Js.Math_min, Js.Math_max.
  case_bool_decide as Hmax.
  - assert (q = Q2Qc (8 # 10)) as -> by (by apply Qcle_antisym).
    by rewrite bool_decide_true.
  - by rewrite bool_decide_true.
Qed.
End DragFacts.

Section DragSteps.
Context `{Js.Host} {E : Type} `{SqlJs.Database E}.
Import App.

Lemma drag_run (s : State E) e moves :
  step s (DragHorizontal e moves)
  = afterDrag with_leftWidth (leftWidth s) (clientX e) alongX moves s ∧
  step s (DragLeft e moves)
  = afterDrag with_topHeightLeft (topHeightLeft s) (clientY e) alongY moves s ∧
  step s (DragRight e moves)
  = afterDrag with_topHeightRight (topHeightRight s) (clientY e) alongY moves s.
Proof.
  unfold step. cbn [handler]. split_and!.
  - unfold handleHorizontalResize, Eff.bind, Eff.get.
    by rewrite horizontal_moves_run.
  - unfold Eff.bind, Eff.get, handleVerticalResize, setTopHeightLeft.
    by rewrite vertical_moves_run.
  - unfold Eff.bind, Eff.get, handleVerticalResize, setTopHeightRight.
    by rewrite vertical_moves_run.
Qed.
End DragSteps.

(** X5: a drag follows the pointer and keeps no history.  The view after a
    drag is the view before it with one fraction set, the dragged one, to the
    start fraction plus the pointer's displacement from where the button went
    down, over the window's size at the last move, clamped; the moves in
    between leave no trace, and a drag with no move changes nothing. *)
Theorem drag_follows_pointer `{Js.Host} {E : Type} `{SqlJs.Database E}
        (s : App.State E) e moves :
  App.step s (App.DragHorizontal e moves)
  = afterDrag App.with_leftWidth (App.leftWidth s) (App.clientX e) alongX moves s ∧
  App.step s (App.DragLeft e moves)
  = afterDrag App.with_topHeightLeft (App.topHeightLeft s) (App.clientY e) alongY moves s ∧
  App.step s (App.DragRight e moves)
  = afterDrag App.with_topHeightRight (App.topHeightRight s) (App.clientY e) alongY moves s.
Proof.
  destruct (drag_run s e moves) as (Hh & Hl & Hr).
  split; [exact Hh |]. split; [exact Hl | exact Hr].
Qed.

(** X6: a drag that ends where it began puts the pane back.  When the three
    fractions are between the bounds and the last move of a drag has the
    pointer at the coordinate where the button went down, in a window whose
    size along the axis is not zero, the view after the drag is the view
    before it. *)
Theorem drag_back_restores `{Js.Host} {E : Type} `{SqlJs.Database E}
        (s : App.State E) e moves move :
  last moves = Some move → layoutInRange s →
  (App.clientX move.1 = App.clientX e → App.innerWidth move.2 ≠ 0%N →
   App.step s (App.DragHorizontal e moves) = s) ∧
  (App.clientY move.1 = App.clientY e → App.innerHeight move.2 ≠ 0%N →
   App.step s (App.DragLeft e moves) = s ∧ App.step s (App.DragRight e moves) = s).
Proof.
  intros Hlast (Hl & Htl & Htr).
  destruct (drag_run s e moves) as (-> & -> & ->).
  unfold afterDrag. rewrite Hlast. unfold alongX, alongY. cbn [fst snd].
  split.
  - intros -> Hw. rewrite fractionAt_start by done. by destruct s.
  - intros -> Hh. rewrite !fractionAt_start by done. by destruct s.
Qed.

(** The left edge is dragged 600 pixels to the right, against the upper
    bound, and back to where it was taken. *)
Lemma drag_back_restores_witness :
  let s := App.initial Sample.ToyDb in
  let e := Sample.at_pixel 300 10 in
  let moves := [ (Sample.at_pixel 900 10, Sample.window 1000 800);
                 (Sample.at_pixel 300 40, Sample.window 1000 800) ] in
  layoutInRange s ∧
  @App.step Sample.host _ Sample.toy s (App.DragHorizontal e moves) = s.
Proof.
  assert (layoutInRange (App.initial Sample.ToyDb)) as Hinit.
  { unfold layoutInRange, App.initial; simpl. by vm_compute. }
  split; [exact Hinit |].
  apply (proj1 (@drag_back_restores Sample.host _ Sample.toy
                  (App.initial Sample.ToyDb) (Sample.at_pixel 300 10)
                  [ (Sample.at_pixel 900 10, Sample.window 1000 800);
                    (Sample.at_pixel 300 40, Sample.window 1000 800) ]
                  (Sample.at_pixel 300 40, Sample.window 1000 800) eq_refl Hinit));
    [reflexivity | done].
Defined.

(** ** Error and message *)

Section OutcomeFacts.
Context `{Js.Host} {E : Type} `{SqlJs.Database E}.
Import App.

Lemma dbEffect_outcome (s : State E) :
  ∃ s' log,
    dbEffect s = (inr (), s', log) ∧
    queryError s' = queryError s ∧ queryMessage s' = queryMessage s.
Proof.
  unfold dbEffect, Eff.bind at 1, Eff.get. destruct (db s) as [e|] eqn:Hdb; simpl.
  - destruct (refetch_frame s) as (s' & log & Hrun & _ & _ & He & Hm & _).
    fold refetch. rewrite Hrun. by eexists _, _.
  - by eexists _, _.
Qed.

Lemma downloadDatabase_outcome (s : State E) :
  ∃ s' log,
    downloadDatabase s = (inr (), s', log) ∧
    queryError s' = queryError s ∧ queryMessage s' = queryMessage s.
Proof.
  unfold downloadDatabase, Eff.bind at 1, Eff.get. destruct (db s) as [e|] eqn:Hdb.
  - unfold Eff.try_catch, Eff.bind, on_db, Db.export, Db.call. rewrite Hdb.
    destruct (SqlJs.export e) as [[err|data] e1]; simpl;
      eexists _, _; (split; [reflexivity |]); done.
  - simpl. eexists _, _. split; [reflexivity |]. done.
Qed.

Lemma step_oneOutcome (s : State E) ev : oneOutcome s → oneOutcome (step s ev).
Proof.
  intros Hs.
  destruct ev as [newDb|f|newValue| | |SQL|e moves|e moves|e moves].
  7: { destruct (drag_run s e moves) as (-> & _ & _). unfold oneOutcome in *.
       by destruct (afterDrag_outcome with_leftWidth (leftWidth s) (clientX e) alongX moves s)
         as [-> ->]. }
  7: { destruct (drag_run s e moves) as (_ & -> & _). unfold oneOutcome in *.
       by destruct (afterDrag_outcome with_topHeightLeft (topHeightLeft s) (clientY e)
                      alongY moves s) as [-> ->]. }
  7: { destruct (drag_run s e moves) as (_ & _ & ->). unfold oneOutcome in *.
       by destruct (afterDrag_outcome with_topHeightRight (topHeightRight s) (clientY e)
                      alongY moves s) as [-> ->]. }
  all: unfold step, oneOutcome in *; cbn [handler].
  - unfold Eff.bind, setDb, Eff.modify.
    destruct (dbEffect_outcome (with_db (Some newDb) s)) as (s' & log & -> & He & Hm).
    cbn [fst snd]. by rewrite He, Hm.
  - done.
  - done.
  - destruct (db s) as [e|] eqn:Hdb.
    + rewrite (executeQuery_run s e Hdb). unfold statement.
      destruct (isDMLQuery (editorContent s)).
      * destruct (SqlJs.run (editorContent s) e) as [[err|[]] e1];
          match goal with
          | |- context [refetch ?s1] =>
              destruct (refetch_frame s1) as (s2 & log2 & -> & _ & _ & He & Hm & _)
          end; cbn [fst snd]; unfold with_leftWidth; cbn; rewrite ?He, ?Hm; cbn; tauto.
      * destruct (SqlJs.exec (editorContent s) e) as [[err|[|r rs]] e1];
          match goal with
          | |- context [refetch ?s1] =>
              destruct (refetch_frame s1) as (s2 & log2 & -> & _ & _ & He & Hm & _)
          end; cbn [fst snd]; unfold with_leftWidth; cbn; rewrite ?He, ?Hm; cbn; tauto.
    + unfold executeQuery, Eff.bind, Eff.get. by rewrite Hdb.
  - destruct (downloadDatabase_outcome s) as (s' & log & -> & He & Hm).
    cbn [fst snd]. by rewrite He, Hm.
  - unfold Eff.bind.
    assert (∃ s1 log1, clearDatabase SQL s = (inr (), s1, log1) ∧
                       (queryError s1 = None ∨ queryMessage s1 = None))
      as (s1 & log1 & -> & Hs1).
    { destruct SQL as [err|newDb]; eexists _, _; (split; [reflexivity |]); [done | by left]. }
    destruct SQL as [err|newDb]; [done |].
    destruct (dbEffect_outcome s1) as (s' & log & -> & He & Hm).
    cbn [fst snd]. by rewrite He, Hm.
Qed.
End OutcomeFacts.

(** X7: the view never holds an error and a success message at once.  Every
    handler that sets one of the two has reset the other, so from a state
    where at most one is set, and the page opens with neither, any sequence of
    events leads to such a state: the error box never hides a message. *)
Theorem error_or_message `{Js.Host} {E : Type} `{SqlJs.Database E}
        (evs : list (App.Event E)) (s : App.State E) :
  oneOutcome s → oneOutcome (App.run_events evs s).
Proof.
  revert s. induction evs as [|ev evs IH]; intros s Hs; [done |].
  apply IH. by apply step_oneOutcome.
Qed.

(** The database loads, an insert succeeds, then a statement that is no SQL
    fails. *)
Lemma error_or_message_witness :
  let evs :=
    [ App.DbReady Sample.fresh;
      App.EditorChange (Some "INSERT INTO b VALUES (1)");
      App.RunSql;
      App.EditorChange (Some "SELEKT");
      App.RunSql ] in
  oneOutcome (App.initial Sample.ToyDb) ∧
  oneOutcome (@App.run_events Sample.host _ Sample.toy evs (App.initial Sample.ToyDb)).
Proof.
  assert (oneOutcome (App.initial Sample.ToyDb)) as Hinit by (by left).
  exact (conj Hinit (error_or_message _ _ Hinit)).
Defined.

(** ** What [isDMLQuery] looks at *)

Section StartOfText.
Import Shape.

Lemma code_units_app a b : Js.code_units (a +:+ b) = Js.code_units a ++ Js.code_units b.
Proof.
  unfold Js.code_units. induction a as [|c a IH]; [done |]. simpl. by rewrite IH.
Qed.

Lemma letter_not_blank c k :
  Regex.upcase c = k → (65 ≤ k ≤ 90)%N → Regex.isWhiteSpace c = false.
Proof.
  unfold Regex.upcase, Regex.isWhiteSpace. intros Hc Hk.
  assert (65 ≤ c ≤ 122)%N as Hrange.
  { destruct ((97 <=? c) && (c <=? 122))%N eqn:Hlow; [| lia].
    apply andb_true_iff in Hlow as [?%N.leb_le ?%N.leb_le]. lia. }
  apply orb_false_iff. split.
  - apply bool_decide_false. rewrite !elem_of_cons, elem_of_nil. lia.
  - apply andb_false_iff. left. apply N.leb_gt. lia.
Qed.

(** Where the blanks before the first letter end is decided by the text. *)
Lemma lead_unique l1 l2 a1 a2 (t1 t2 : list N) :
  blanks l1 → blanks l2 →
  Regex.isWhiteSpace a1 = false → Regex.isWhiteSpace a2 = false →
  l1 ++ a1 :: t1 = l2 ++ a2 :: t2 → l1 = l2 ∧ a1 = a2 ∧ t1 = t2.
Proof.
  intros Hl1 Hl2 Ha1 Ha2. revert l2 Hl2.
  induction Hl1 as [|c l1 Hc _ IH]; intros l2 Hl2 Heq.
  - destruct Hl2 as [|c2 l2 Hc2 _]; simpl in Heq; injection Heq as -> Heq;
      [done | congruence].
  - destruct Hl2 as [|c2 l2 Hc2 Hl2]; simpl in Heq; injection Heq as -> Heq;
      [congruence |].
    by destruct (IH l2 Hl2 Heq) as (-> & -> & ->).
Qed.

Lemma spells_cons w k :
  spells w k → ∀ p ps, Js.code_units w = p :: ps →
  ∃ a k', k = a :: k' ∧ Regex.upcase a = Regex.upcase p.
Proof.
  unfold spells. intros Hk p ps Hw. rewrite Hw in Hk.
  inversion Hk as [|? a ? k' Ha _]; subst. by exists a, k'.
Qed.

(** A text of the shape begins, after its blanks, with the first letter of
    one of the six keywords. *)
Lemma dml_first u :
  dml u → ∃ lead a rest, u = lead ++ a :: rest ∧ blanks lead ∧
                         Regex.upcase a ∈ Js.code_units "IUDCA".
Proof.
  unfold dml, twoWords, wordThenBlank.
  intros [Hu|[Hu|[Hu|[Hu|[Hu|Hu]]]]].
  all: destruct Hu as (lead & k & Hu).
  all: try destruct Hu as (gap & k2 & rest & -> & Hlead & Hk & _).
  all: try destruct Hu as (gap & rest & -> & Hlead & Hk & _).
  all: destruct (spells_cons _ _ Hk _ _ eq_refl) as (a & k' & -> & Ha).
  all: eexists lead, a, _; (split; [reflexivity |]); split; [done |].
  all: rewrite Ha; vm_compute; set_solver.
Qed.

Lemma strip_lead l lead w k p ps tail u :
  blanks l → blanks lead → spells w k → Js.code_units w = p :: ps →
  (65 ≤ Regex.upcase p ≤ 90)%N →
  l ++ u = lead ++ k ++ tail →
  ∃ lead', blanks lead' ∧ u = lead' ++ k ++ tail.
Proof.
  intros Hl Hlead Hk Hw Hp.
  destruct (spells_cons _ _ Hk _ _ Hw) as (a & k' & -> & Ha).
  assert (Regex.isWhiteSpace a = false) as Hletter
    by (by apply (letter_not_blank a (Regex.upcase p))).
  clear Hk. revert lead Hlead. induction Hl as [|c l Hc _ IH]; intros lead Hlead Heq.
  - by exists lead.
  - destruct Hlead as [|c' lead Hc' Hlead]; simpl in Heq; injection Heq as -> Heq.
    + congruence.
    + by apply (IH lead).
Qed.

Lemma add_lead l u : blanks l → dml (l ++ u) ↔ dml u.
Proof.
  intros Hl. unfold dml, twoWords, wordThenBlank. split.
  - intros Hdml.
    repeat (destruct Hdml as [Hdml|Hdml]; [| try right]).
    all: try (destruct Hdml as (lead & k & gap & k2 & rest & Heq & Hlead & Hk & Hrest);
              destruct (strip_lead l lead _ k _ _ (gap ++ k2 ++ rest) u
                          Hl Hlead Hk eq_refl ltac:(by vm_compute) Heq)
                as (lead' & Hlead' & ->)).
    all: try (destruct Hdml as (lead & k & gap & rest & Heq & Hlead & Hk & Hrest);
              destruct (strip_lead l lead _ k _ _ (gap ++ rest) u
                          Hl Hlead Hk eq_refl ltac:(by vm_compute) Heq)
                as (lead' & Hlead' & ->)).
    all: eauto 15.
  - intros Hdml.
    repeat (destruct Hdml as [Hdml|Hdml]; [| try right]).
    all: try (destruct Hdml as (lead & k & gap & k2 & rest & -> & Hlead & Hrest);
              try left; exists (l ++ lead), k, gap, k2, rest;
              (split; [by rewrite <- app_assoc |]); split; [by apply Forall_app | done]).
    all: try (destruct Hdml as (lead & k & gap & rest & -> & Hlead & Hrest);
              try left; exists (l ++ lead), k, gap, rest;
              (split; [by rewrite <- app_assoc |]); split; [by apply Forall_app | done]).
Qed.

Lemma add_rest u r : dml u → dml (u ++ r).
Proof.
  unfold dml, twoWords, wordThenBlank.
  intros Hdml.
  repeat (destruct Hdml as [Hdml|Hdml]; [| try right]).
  all: try (destruct Hdml as (lead & k & gap & k2 & rest & -> & Hrest);
            try left; exists lead, k, gap, k2, (rest ++ r);
            split; [by rewrite <- !app_assoc | done]).
  all: try (destruct Hdml as (lead & k & gap & rest & -> & Hrest);
            try left; exists lead, k, gap, (rest ++ r);
            split; [by rewrite <- !app_assoc | done]).
Qed.

End StartOfText.

(** X8: [isDMLQuery] reads only the start of the text: once a text is taken
    for DML, whatever is appended to it, the answer stays.  There is no word
    boundary after the second keyword, so a text that goes on in the middle
    of a word is taken for DML as well. *)
Theorem isDMLQuery_reads_the_start query rest :
  App.isDMLQuery query = true → App.isDMLQuery (query +:+ rest) = true.
Proof.
  rewrite !isDMLQuery_shape, code_units_app. apply add_rest.
Qed.

Lemma isDMLQuery_reads_the_start_witness :
  App.isDMLQuery "insert into" = true ∧
  App.isDMLQuery ("insert into" +:+ "xicated") = true.
Proof.
  assert (App.isDMLQuery "insert into" = true) as Hstart by reflexivity.
  exact (conj Hstart (isDMLQuery_reads_the_start "insert into" "xicated" Hstart)).
Defined.

(** X9: whitespace before the text does not change the answer of
    [isDMLQuery]. *)
Theorem isDMLQuery_skips_blanks lead query :
  Shape.blanks (Js.code_units lead) →
  App.isDMLQuery (lead +:+ query) = App.isDMLQuery query.
Proof.
  intros Hlead. apply Bool.eq_iff_eq_true.
  rewrite !isDMLQuery_shape, code_units_app. by apply add_lead.
Qed.

(** A tab, a line feed and a space before a text that is not DML. *)
Lemma isDMLQuery_skips_blanks_witness :
  let lead := String (ascii_of_nat 9) (String (ascii_of_nat 10) " ") in
  Shape.blanks (Js.code_units lead) ∧
  App.isDMLQuery (lead +:+ "SELECT 1") = App.isDMLQuery "SELECT 1".
Proof.
  assert (Shape.blanks
            (Js.code_units (String (ascii_of_nat 9) (String (ascii_of_nat 10) " "))))
    as Hlead by (by repeat constructor).
  exact (conj Hlead (isDMLQuery_skips_blanks _ "SELECT 1" Hlead)).
Defined.

(** X10: a text whose first character after the leading whitespace is not
    one of the letters I, U, D, C and A, in either case, is never taken for
    DML, whatever follows: a statement behind a comment or an opening
    parenthesis, or one that begins WITH or REPLACE, goes to [db.exec]. *)
Theorem isDMLQuery_first_letter lead query c rest :
  Shape.blanks (Js.code_units lead) →
  Js.code_units query = c :: rest →
  Regex.isWhiteSpace c = false →
  bool_decide (Regex.upcase c ∈ Js.code_units "IUDCA") = false →
  App.isDMLQuery (lead +:+ query) = false.
Proof.
  intros Hlead Hq Hc Hletter. apply bool_decide_eq_false in Hletter.
  apply not_true_is_false. rewrite isDMLQuery_shape, code_units_app, Hq.
  rewrite (add_lead _ _ Hlead). intros Hdml.
  destruct (dml_first _ Hdml) as (lead' & a & rest' & Heq & Hlead' & Ha).
  assert (Regex.isWhiteSpace a = false) as Hblank.
  { apply (letter_not_blank a (Regex.upcase a)); [done |].
    revert Ha. generalize (Regex.upcase a). intros k.
    vm_compute Js.code_units. rewrite !elem_of_cons, elem_of_nil. lia. }
  destruct (lead_unique [] lead' c a rest rest') as (_ & -> & _); try done.
  constructor.
Qed.

(** A delete behind a comment line. *)
Lemma isDMLQuery_first_letter_witness :
  let query := "-- empty it" +:+ String (ascii_of_nat 10) "DELETE FROM b" in
  Regex.isWhiteSpace 45 = false ∧
  App.isDMLQuery (" " +:+ query) = false.
Proof.
  split; [reflexivity |].
  apply (isDMLQuery_first_letter " " _ 45%N
           (Js.code_units ("- empty it" +:+ String (ascii_of_nat 10) "DELETE FROM b")));
    [by repeat constructor | reflexivity | reflexivity | reflexivity].
Defined.

(** ** What [fetchTables] lists *)

Section TableKeys.
Context `{Js.Host} {E : Type} `{SqlJs.Database E}.
Import App.

Lemma fetchTablesData_loop (e : E) :
  Db.fetchTablesData e =
    (let* tableQuery := Db.exec Db.catalogQuery in
     Eff.forEach readTable ∅ (Db.tableNamesOf tableQuery)) e.
Proof. reflexivity. Qed.

Lemma assign_keys {V} (o : Js.obj V) key v k :
  is_Some (Js.assign o key v !! k) ↔ is_Some (o !! k) ∨ (k ≠ "__proto__" ∧ k = key).
Proof.
  unfold Js.assign. destruct (String.eqb key "__proto__") eqn:Hkey.
  - apply String.eqb_eq in Hkey as ->. split; [by left | by intros [?|[? ?]]].
  - apply String.eqb_neq in Hkey.
    destruct (decide (k = key)) as [->|Hne].
    + rewrite lookup_insert_eq. split; [by right | by eexists].
    + rewrite lookup_insert_ne by done. split; [by left | by intros [?|[? ?]]].
Qed.

Lemma readTable_assigns acc name (e : E) acc1 e1 log :
  readTable acc name e = (inr acc1, e1, log) →
  ∃ rows, acc1 = Js.assign acc (Js.String name) rows.
Proof.
  unfold readTable, Eff.bind.
  destruct (Db.exec (selectAllQuery name) e) as [[[err|[|first rest]] e'] log'];
    [done | |]; intros [= <- _ _]; by eexists.
Qed.

Lemma readTable_keys names :
  ∀ acc (e : E) td e1 log,
    Eff.forEach readTable acc names e = (inr td, e1, log) →
    ∀ k, is_Some (td !! k)
         ↔ is_Some (acc !! k) ∨ (k ≠ "__proto__" ∧ k ∈ map Js.String names).
Proof.
  induction names as [|name names IH]; intros acc e td e1 log.
  - cbn [Eff.forEach]. unfold Eff.ret. intros [= <- _ _] k.
    split; [by left | intros [?|[_ Hk]]; [done | by apply elem_of_nil in Hk]].
  - cbn [Eff.forEach]. unfold Eff.bind at 1.
    destruct (readTable acc name e) as [[[err|acc1] e0] log0] eqn:Hone;
      cbv beta iota; [done |].
    destruct (Eff.forEach readTable acc1 names e0) as [[r2 e2] log2] eqn:Hrest.
    intros [= -> <- _] k. rewrite (IH _ _ _ _ _ Hrest k).
    destruct (readTable_assigns _ _ _ _ _ _ Hone) as (rows & ->).
    rewrite assign_keys. cbn [map]. rewrite elem_of_cons. tauto.
Qed.

Lemma readTable_fails (e : E) name err names :
  (∀ name', name' ∈ names → (SqlJs.exec (selectAllQuery name') e).2 = e) →
  name ∈ names → (SqlJs.exec (selectAllQuery name) e).1 = inl err →
  ∀ acc, ∃ err' log, Eff.forEach readTable acc names e = (inl err', e, log).
Proof.
  intros Hstable Hin Hfail. induction names as [|head names IH]; intros acc.
  - by apply elem_of_nil in Hin.
  - cbn [Eff.forEach]. unfold Eff.bind at 1. unfold readTable at 1.
    unfold Eff.bind at 1. unfold Db.exec at 1, Db.call.
    pose proof (Hstable head ltac:(by apply elem_of_cons; left)) as Hsame.
    destruct (SqlJs.exec (selectAllQuery head) e) as [[err0|result] e0] eqn:Hhead;
      cbn [snd] in Hsame; subst e0; cbv beta iota.
    + by eexists _, _.
    + assert (name ∈ names) as Hin'.
      { apply elem_of_cons in Hin as [->|?]; [| done].
        rewrite Hhead in Hfail. by cbn in Hfail. }
      assert (∀ name', name' ∈ names → (SqlJs.exec (selectAllQuery name') e).2 = e)
        as Hrest by (intros name' Hname'; apply Hstable; by apply elem_of_cons; right).
      destruct result as [|first rest]; unfold Eff.ret at 1; cbv beta iota;
        match goal with
        | |- context [Eff.forEach readTable ?acc1 names e] =>
            destruct (IH Hrest Hin' acc1) as (err' & log & ->)
        end; by eexists _, _.
Qed.

Lemma fetchTablesData_keys (e : E) td e1 log :
  Db.fetchTablesData e = (inr td, e1, log) →
  ∃ tableQuery e0,
    SqlJs.exec Db.catalogQuery e = (inr tableQuery, e0) ∧
    ∀ k, is_Some (td !! k)
         ↔ k ≠ "__proto__" ∧ k ∈ map Js.String (Db.tableNamesOf tableQuery).
Proof.
  rewrite fetchTablesData_loop. unfold Eff.bind at 1. unfold Db.exec at 1, Db.call.
  destruct (SqlJs.exec Db.catalogQuery e) as [[err|tableQuery] e0]; [done |].
  cbv beta iota.
  destruct (Eff.forEach readTable ∅ (Db.tableNamesOf tableQuery) e0)
    as [[r2 e2] log2] eqn:Hloop.
  intros [= -> <- _]. exists tableQuery, e0. split; [done |]. intros k.
  rewrite (readTable_keys _ _ _ _ _ _ Hloop k), lookup_empty.
  split; [intros [[? [=]]|?]; done | by right].
Qed.

Lemma elem_of_readsOf names sql :
  sql ∈ readsOf names ↔
  sql = Db.catalogQuery ∨
  ∃ name, name ∈ names ∧
          (sql = selectAllQuery name ∨ sql = tableInfoQuery name ∨
           sql = foreignKeyListQuery name).
Proof.
  unfold readsOf. rewrite elem_of_cons, list_elem_of_In, in_flat_map.
  setoid_rewrite <- list_elem_of_In. setoid_rewrite elem_of_cons.
  setoid_rewrite elem_of_cons. setoid_rewrite elem_of_cons.
  setoid_rewrite elem_of_nil. split.
  - intros [?|(name & ? & [?|[?|[?|[]]]])]; [by left | right; exists name; tauto ..].
  - intros [?|(name & ? & [?|[?|?]])]; [by left | right; exists name; tauto ..].
Qed.

Lemma fetchTablesData_fails (e : E) tableQuery name err :
  (SqlJs.exec Db.catalogQuery e).1 = inr tableQuery →
  (∀ sql, sql ∈ readsOf (Db.tableNamesOf tableQuery) → (SqlJs.exec sql e).2 = e) →
  name ∈ Db.tableNamesOf tableQuery →
  (SqlJs.exec (selectAllQuery name) e).1 = inl err →
  ∃ err' log, Db.fetchTablesData e = (inl err', e, log).
Proof.
  intros Hcatalog Hstable Hin Hfail.
  rewrite fetchTablesData_loop. unfold Eff.bind at 1. unfold Db.exec at 1, Db.call.
  pose proof (Hstable Db.catalogQuery ltac:(apply elem_of_readsOf; by left)) as Hsame.
  destruct (SqlJs.exec Db.catalogQuery e) as [r e0]. cbn [fst snd] in *. subst r e0.
  cbv beta iota.
  destruct (readTable_fails e name err (Db.tableNamesOf tableQuery)) with (acc := (∅ : gmap string (list TableRow)))
    as (err' & log & ->); [| done | done | by eexists _, _].
  intros name' Hname'. apply Hstable, elem_of_readsOf. right. exists name'. tauto.
Qed.
End TableKeys.

(** X11: when the reads of [fetchTables] all return, [tables] gets exactly
    one key for each name the catalog reported, the name as a string, except
    that a table named [__proto__] gets none: the assignment under that key
    goes to the prototype and leaves no property behind. *)
Theorem fetchTables_keys `{Js.Host} {E : Type} `{SqlJs.Database E}
        (s : App.State E) (e : E) td e1 log :
  App.db s = Some e →
  Db.fetchTablesData e = (inr td, e1, log) →
  App.tables (App.fetchTables s).1.2 = td ∧
  ∃ tableQuery e0,
    SqlJs.exec Db.catalogQuery e = (inr tableQuery, e0) ∧
    ∀ k, is_Some (td !! k)
         ↔ k ≠ "__proto__" ∧ k ∈ map Js.String (Db.tableNamesOf tableQuery).
Proof.
  intros Hdb Hread. split.
  - by rewrite (fetchTables_run s e Hdb), Hread.
  - by apply (fetchTablesData_keys e td e1 log).
Qed.

(** On the sample engine [b] is listed, though its select returns no result
    set, and nothing is listed under a name the catalog does not report. *)
Lemma fetchTables_keys_witness :
  let s := Sample.loaded Sample.fresh "" in
  App.db s = Some Sample.fresh ∧
  is_Some (App.tables (App.fetchTables s).1.2 !! "b") ∧
  App.tables (App.fetchTables s).1.2 !! "sqlite_master" = None.
Proof.
  split; [reflexivity |].
  destruct (Db.fetchTablesData Sample.fresh) as [[[err|td] e1] log] eqn:Hread;
    [by vm_compute in Hread |].
  destruct (fetchTables_keys (Sample.loaded Sample.fresh "") Sample.fresh td e1 log
              eq_refl Hread) as (-> & tableQuery & e0 & Hcatalog & Hkeys).
  injection Hcatalog as <- _. split.
  - apply Hkeys. split; [done |]. do 2 (apply elem_of_cons; right). by apply elem_of_cons; left.
  - apply eq_None_not_Some. rewrite Hkeys. intros [_ Hin].
    repeat (apply elem_of_cons in Hin as [[=]|Hin]). by apply elem_of_nil in Hin.
Defined.

(** X12: [fetchTables] lists all the tables or none.  On an engine that
    the reads of the catalog leave as it is (the query on [sqlite_master] and
    the select and the two pragmas on each table it reports), when the select
    on one of the reported tables throws, [tables] stays as it was before the
    call, for the tables that can be read as well, and an error goes to the
    console; [fetchTableSchemas] on the same engine still sets [tableSchemas]
    to the records of the tables that can be described. *)
Theorem fetchTables_all_or_nothing `{Js.Host} {E : Type} `{SqlJs.Database E}
        (s : App.State E) (e : E) tableQuery name err :
  App.db s = Some e →
  (SqlJs.exec Db.catalogQuery e).1 = inr tableQuery →
  (∀ sql, sql ∈ readsOf (Db.tableNamesOf tableQuery) → (SqlJs.exec sql e).2 = e) →
  name ∈ Db.tableNamesOf tableQuery →
  (SqlJs.exec (selectAllQuery name) e).1 = inl err →
  App.tables (App.fetchTables s).1.2 = App.tables s ∧
  (∃ err', ConsoleError "Error fetching tables:" err' ∈ (App.fetchTables s).2) ∧
  App.tableSchemas (App.fetchTableSchemas s).1.2
  = omap (schemaFor e) (Db.tableNamesOf tableQuery).
Proof.
  intros Hdb Hcatalog Hstable Hin Hfail.
  destruct (fetchTablesData_fails e tableQuery name err Hcatalog Hstable Hin Hfail)
    as (err' & log & Hread).
  rewrite (fetchTables_run s e Hdb), Hread. cbn [fst snd from_inr logged].
  split; [done |]. split.
  - exists err'. apply elem_of_app. right. apply elem_of_cons. by left.
  - pose proof (Hstable Db.catalogQuery ltac:(apply elem_of_readsOf; by left)) as Hsame.
    destruct (SqlJs.exec Db.catalogQuery e) as [r e0] eqn:Hexec.
    cbn [fst snd] in *. subst r e0.
    destruct (fetchTableSchemas_threads s e tableQuery e Hdb Hexec) as [-> _].
    rewrite recordsOver_stable; [done |].
    intros name' Hname'. split; apply Hstable, elem_of_readsOf; right; exists name'; tauto.
Qed.

Lemma virtual_reads_stable sql :
  sql ∈ @readsOf Sample.host [Sample.str "p"; Sample.str "docs"] →
  (SqlJs.exec sql Virtual.engine).2 = Virtual.engine.
Proof.
  intros Hsql. unfold readsOf in Hsql. cbn [flat_map app] in Hsql.
  repeat (apply elem_of_cons in Hsql as [->|Hsql]; [reflexivity |]).
  by apply elem_of_nil in Hsql.
Qed.

(** With the virtual table [docs] in the catalog, on an engine that
    [db.exec] can write to, the listing from before stays, and the schema
    graph gets [p] alone. *)
Lemma fetchTables_all_or_nothing_witness :
  App.db Virtual.loaded = Some Virtual.engine ∧
  (SqlJs.exec "REPLACE INTO p VALUES (1)" Virtual.engine).2
  = {| Virtual.replaced := 1 |} ∧
  Sample.str "docs" ∈ [Sample.str "p"; Sample.str "docs"] ∧
  App.tables (@App.fetchTables Sample.host _ Virtual.database Virtual.loaded).1.2
  = {[ "p" := [] ]} ∧
  map TableSchema.name
    (App.tableSchemas (@App.fetchTableSchemas Sample.host _ Virtual.database Virtual.loaded).1.2)
  = [Sample.str "p"].
Proof.
  assert (Sample.str "docs" ∈ [Sample.str "p"; Sample.str "docs"]) as Hin
    by (apply elem_of_cons; right; apply elem_of_cons; by left).
  destruct (@fetchTables_all_or_nothing Sample.host _ Virtual.database
              Virtual.loaded Virtual.engine _ (Sample.str "docs")
              (Js.Error "no such module: fts5")
              eq_refl eq_refl virtual_reads_stable Hin eq_refl) as (Ht & _ & Hs).
  split; [reflexivity |]. split; [reflexivity |]. split; [exact Hin |].
  split; [exact Ht |]. rewrite Hs. reflexivity.
Defined.

(** ** The bar and the root view together *)

Section PageFacts.
Context `{Js.Host} {E : Type} `{SqlJs.Database E}.

Lemma dbEffect_loaded (s : App.State E) e :
  App.db s = Some e →
  ∃ s' log,
    App.dbEffect s = (inr (), s', log) ∧
    App.file s' = App.file s ∧
    App.db s' = Some (catalog e).1.2 ∧
    App.queryError s' = App.queryError s ∧
    App.queryMessage s' = App.queryMessage s.
Proof.
  intros Hdb. unfold App.dbEffect, Eff.bind at 1, Eff.get. rewrite Hdb. simpl.
  fold refetch. rewrite (refetch_run s e Hdb).
  destruct (catalog e) as [[[r1 r2] e2] log]. by eexists _, _.
Qed.

Lemma clear_succeeds newDb (s : App.State E) :
  ∃ s' log,
    App.handler (App.ClearDb (inr newDb)) s = (inr (), s', log) ∧
    App.file s' = None ∧ App.db s' = Some (catalog newDb).1.2 ∧
    App.queryError s' = None ∧
    App.queryMessage s'
    = Some "Database cleared successfully. Start with a fresh database.".
Proof.
  unfold App.handler, Eff.bind.
  assert (∃ s1, App.clearDatabase (inr newDb) s = (inr (), s1, []) ∧
                App.db s1 = Some newDb ∧ App.file s1 = None ∧
                App.queryError s1 = None ∧
                App.queryMessage s1
                = Some "Database cleared successfully. Start with a fresh database.")
    as (s1 & -> & Hdb & Hfile & He & Hm).
  { eexists. split; [reflexivity |]. done. }
  destruct (dbEffect_loaded s1 newDb Hdb) as (s' & log & -> & Hfile' & Hdb' & He' & Hm').
  eexists _, _. split; [reflexivity |]. by rewrite Hfile', Hdb', He', Hm'.
Qed.

Lemma clear_fails err (s : App.State E) :
  App.step s (App.ClearDb (inl err)) = s.
Proof. reflexivity. Qed.

Lemma input_labelled i (p : Page.State E) :
  Page.labelled p → Page.labelled (Page.input i p).
Proof.
  intros Hp. destruct i as [[[|f rest]|]| |[|]].
  - by destruct p.
  - right. by destruct p.
  - by destruct p.
  - destruct p as [label s n]. unfold Page.input, Page.labelled in *.
    cbn [Navbar.handle foldl Page.call Page.app Page.fileName Page.clearing] in *.
    destruct (downloadDatabase_frame s) as (s' & log & -> & (Hfile & _) & _).
    cbn [fst snd]. by rewrite Hfile.
  - by left.
  - by destruct p.
Qed.

Lemma input_clearing i (p : Page.State E) :
  Page.clearing (Page.input i p)
  = if Page.confirmedClear i then S (Page.clearing p) else Page.clearing p.
Proof. by destruct i as [[[|f rest]|]| |[|]]. Qed.

Lemma resume_succeeds newDb n (p : Page.State E) :
  Page.clearing p = S n →
  Page.fileName (Page.resume (inr newDb) p) = Page.fileName p ∧
  Page.clearing (Page.resume (inr newDb) p) = n ∧
  App.file (Page.app (Page.resume (inr newDb) p)) = None ∧
  downloadName (Page.app (Page.resume (inr newDb) p)) = "sql-playground-export.sqlite" ∧
  App.db (Page.app (Page.resume (inr newDb) p)) = Some (catalog newDb).1.2 ∧
  App.resultsPane (App.render (Page.app (Page.resume (inr newDb) p)))
  = App.SuccessBox "Database cleared successfully. Start with a fresh database.".
Proof.
  intros Hclear. unfold Page.resume. rewrite Hclear. unfold App.step.
  destruct (clear_succeeds newDb (Page.app p))
    as (s' & log & -> & Hfile & Hdb & He & Hm).
  unfold downloadName, App.render.
  cbn [Page.fileName Page.app Page.clearing fst snd App.resultsPane].
  by rewrite Hfile, Hdb, He, Hm.
Qed.

(** In a run where every clear settles before the next input, a waiting
    clear has left the label at "New Database". *)
Lemma run_inTurn (events : list (Page.Event E)) :
  ∀ (waiting : bool) (p : Page.State E),
    (if waiting
     then Page.fileName p = "New Database" ∧ Page.clearing p = 1
     else Page.labelled p ∧ Page.clearing p = 0) →
    Page.inTurn waiting events = true →
    Page.labelled (Page.run events p).
Proof.
  induction events as [|[i|SQL] events IH]; intros waiting p Hp Hturn.
  - destruct waiting; destruct Hp as [Hlabel Hclear]; [by left | done].
  - destruct waiting; [done |]. destruct Hp as [Hlabel Hclear]. cbn in Hturn.
    apply (IH (Page.confirmedClear i)); [| done]. cbn [Page.step].
    pose proof (input_clearing i p) as Hn. rewrite Hclear in Hn.
    destruct (Page.confirmedClear i) eqn:Hi.
    + split; [| done]. destruct i as [| |[|]]; try done.
    + split; [by apply input_labelled | done].
  - cbn in Hturn. apply (IH false); [| done]. cbn [Page.step].
    destruct waiting.
    + destruct Hp as [Hlabel Hclear]. unfold Page.resume. rewrite Hclear.
      split; [by left | done].
    + destruct Hp as [Hlabel Hclear]. unfold Page.resume. by rewrite Hclear.
Qed.
End PageFacts.

(** X13: what the bar's label says and what the root view holds.  Choosing a
    file sets the label to the file's name and the view's [file] to the file,
    so the label is the name a download will go by.  Declining the question of
    Clear, or a change of the file input with no file, changes nothing.  A
    confirmed Clear sets the label to "New Database" at once and leaves the
    root view as it is: one more call of [clearDatabase] waits for
    [initSqlJs].  When that settles with something thrown, the root view stays
    exactly as it is, its file and database with it; when it settles with a
    fresh engine, the view holds no file, a download goes by the default name,
    the engine is the fresh one after the reads of its catalog, and the
    success box says that the database was cleared.  Either way the label is
    the one the bar had when [initSqlJs] settled, not again set by the
    clear. *)
Theorem bar_and_view `{Js.Host} {E : Type} `{SqlJs.Database E} (p : Page.State E) :
  (∀ f rest,
     Page.input (Navbar.FileInputChange (Some (f :: rest))) p
     = {| Page.fileName := File.name f;
          Page.app := App.with_file (Some f) (Page.app p);
          Page.clearing := Page.clearing p |} ∧
     downloadName (Page.app (Page.input (Navbar.FileInputChange (Some (f :: rest))) p))
     = File.name f) ∧
  (Page.input (Navbar.ClearClick false) p = p ∧
   Page.input (Navbar.FileInputChange None) p = p ∧
   Page.input (Navbar.FileInputChange (Some [])) p = p) ∧
  Page.input (Navbar.ClearClick true) p
  = {| Page.fileName := "New Database";
       Page.app := Page.app p;
       Page.clearing := S (Page.clearing p) |} ∧
  (∀ SQL, Page.clearing p = 0 → Page.resume SQL p = p) ∧
  (∀ err n,
     Page.clearing p = S n →
     Page.resume (inl err) p
     = {| Page.fileName := Page.fileName p; Page.app := Page.app p; Page.clearing := n |}) ∧
  (∀ newDb n,
     Page.clearing p = S n →
     let p' := Page.resume (inr newDb) p in
     Page.fileName p' = Page.fileName p ∧
     Page.clearing p' = n ∧
     App.file (Page.app p') = None ∧
     downloadName (Page.app p') = "sql-playground-export.sqlite" ∧
     App.db (Page.app p') = Some (catalog newDb).1.2 ∧
     App.resultsPane (App.render (Page.app p'))
     = App.SuccessBox "Database cleared successfully. Start with a fresh database.").
Proof.
  split_and!.
  - intros f rest. by destruct p.
  - by destruct p.
  - by destruct p.
  - by destruct p.
  - reflexivity.
  - intros SQL Hclear. unfold Page.resume. by rewrite Hclear.
  - intros err n Hclear. unfold Page.resume. by rewrite Hclear, clear_fails.
  - intros newDb n Hclear p'. subst p'. by apply resume_succeeds.
Qed.

(** A file is chosen and a clear confirmed: the label changes and the view
    keeps the file until the clear goes on. *)
Lemma bar_and_view_witness :
  let shop := {| File.name := "shop.sqlite"; File.contents := [] |} in
  let clicked :=
    @Page.run Sample.host _ Sample.toy
      [ Page.Bar (Navbar.FileInputChange (Some [shop]));
        Page.Bar (Navbar.ClearClick true) ] Page.initial in
  Page.clearing clicked = 1 ∧
  Page.fileName clicked = "New Database" ∧
  App.file (Page.app clicked) = Some shop ∧
  App.file (Page.app (Page.resume (inr Sample.fresh) clicked)) = None ∧
  App.resultsPane (App.render (Page.app (Page.resume (inr Sample.fresh) clicked)))
  = App.SuccessBox "Database cleared successfully. Start with a fresh database.".
Proof.
  intros shop clicked.
  destruct (proj2 (proj2 (proj2 (proj2 (proj2
              (@bar_and_view Sample.host _ Sample.toy clicked)))))
              Sample.fresh 0 eq_refl) as (_ & _ & Hfile & _ & _ & Hbox).
  split; [reflexivity |]. split; [reflexivity |]. split; [reflexivity |].
  split; [exact Hfile | exact Hbox].
Defined.

(** X14: when the label names the file the view holds.  From a page where
    the label is "New Database", or the name of the file the view holds, or,
    while the view holds no file, the text the page opens with, and where no
    clear waits, this stays so over every sequence of inputs to the bar in
    which each confirmed clear settles before the next input.  It need not
    stay so when a file is chosen while a clear waits: the clear that then
    goes on with a fresh engine leaves the label at the file's name, the view
    with no file, and a download under the default name. *)
Theorem label_names_file `{Js.Host} {E : Type} `{SqlJs.Database E}
        events (p : Page.State E) :
  Page.labelled p →
  Page.clearing p = 0 →
  (Page.inTurn false events = true → Page.labelled (Page.run events p)) ∧
  (∀ f rest newDb,
     let p' := Page.run [ Page.Bar (Navbar.ClearClick true);
                          Page.Bar (Navbar.FileInputChange (Some (f :: rest)));
                          Page.ClearSettled (inr newDb) ] p in
     Page.fileName p' = File.name f ∧
     App.file (Page.app p') = None ∧
     downloadName (Page.app p') = "sql-playground-export.sqlite").
Proof.
  intros Hlabel Hclear. split.
  - intros Hturn. by apply (run_inTurn events false).
  - intros f rest newDb p'. subst p'. cbn [Page.run foldl Page.step].
    destruct (resume_succeeds newDb 0
                (Page.input (Navbar.FileInputChange (Some (f :: rest)))
                   (Page.input (Navbar.ClearClick true) p)))
      as (Hname & _ & Hfile & Hdownload & _).
    { by destruct p; cbn in *; subst. }
    rewrite Hname. by split.
Qed.

(** A file is chosen, a clear fails and the database is downloaded, each in
    its turn; and, from the opening page, a file chosen while a clear waits. *)
Lemma label_names_file_witness :
  let shop := {| File.name := "shop.sqlite"; File.contents := [] |} in
  let events :=
    [ Page.Bar (Navbar.FileInputChange (Some [shop]));
      Page.Bar (Navbar.ClearClick true);
      Page.ClearSettled (inl (Js.Error "Failed to fetch"));
      Page.Bar Navbar.DownloadClick ] in
  let race :=
    [ Page.Bar (Navbar.ClearClick true);
      Page.Bar (Navbar.FileInputChange (Some [shop]));
      Page.ClearSettled (inr Sample.fresh) ] in
  Page.labelled (@Page.initial Sample.ToyDb) ∧
  Page.clearing (@Page.initial Sample.ToyDb) = 0 ∧
  Page.inTurn false events = true ∧
  Page.labelled (@Page.run Sample.host _ Sample.toy events Page.initial) ∧
  Page.fileName (@Page.run Sample.host _ Sample.toy race Page.initial) = "shop.sqlite" ∧
  App.file (Page.app (@Page.run Sample.host _ Sample.toy race Page.initial)) = None.
Proof.
  intros shop events race.
  assert (Page.labelled (@Page.initial Sample.ToyDb)) as Hinit by (by right).
  destruct (@label_names_file Sample.host _ Sample.toy events Page.initial Hinit eq_refl)
    as [Hturn Hrace].
  destruct (Hrace shop [] Sample.fresh) as (Hname & Hfile & _).
  split; [exact Hinit |]. split; [reflexivity |]. split; [reflexivity |].
  split; [exact (Hturn eq_refl) |]. split; [exact Hname | exact Hfile].
Defined.

(** * The schema graph *)

(** ** Edges *)

Section EdgeFacts.
Context `{Js.Host}.
Import SchemaViewer.

Lemma strictEquals_eq a b : strictEquals a b = true → a = b.
Proof.
  destruct a as [s|m| | |], b as [t|n| | |]; simpl; try done.
  - by intros ->%String.eqb_eq.
  - destruct m as [p| | |], n as [q| | |]; simpl; try done.
    by intros ->%bool_decide_eq_true.
Qed.

Lemma push_edges all table fks acc :
  foldl (λ edges fk,
           if referencedTableExists all fk then edges ++ [edgeOf table fk] else edges)
        acc fks
  = acc ++ flat_map (λ fk, if referencedTableExists all fk then [edgeOf table fk] else [])
                    fks.
Proof.
  revert acc. induction fks as [|fk fks IH]; intros acc; simpl.
  - by rewrite app_nil_r.
  - rewrite IH. destruct (referencedTableExists all fk).
    + by rewrite <- app_assoc.
    + done.
Qed.

Lemma generateEdges_flat tables :
  generateEdges tables = flat_map (edgesOf tables) tables.
Proof.
  unfold generateEdges.
  assert (∀ all rest acc,
            foldl (λ edges table,
                     foldl (λ edges fk,
                              if referencedTableExists all fk
                              then edges ++ [edgeOf table fk] else edges)
                           edges (TableSchema.foreignKeys table))
                  acc rest
            = acc ++ flat_map (edgesOf all) rest) as Hall.
  { intros all rest. induction rest as [|table rest IH]; intros acc; simpl.
    - by rewrite app_nil_r.
    - by rewrite IH, push_edges, <- app_assoc. }
  apply Hall.
Qed.

Lemma elem_of_generateEdges tables edge :
  edge ∈ generateEdges tables ↔
  ∃ table fk, table ∈ tables ∧ fk ∈ TableSchema.foreignKeys table ∧
              referencedTableExists tables fk = true ∧ edge = edgeOf table fk.
Proof.
  rewrite generateEdges_flat, list_elem_of_In, in_flat_map. unfold edgesOf.
  setoid_rewrite in_flat_map. setoid_rewrite <- list_elem_of_In. split.
  - intros (table & Htable & fk & Hfk & Hedge). exists table, fk.
    destruct (referencedTableExists tables fk); [| by apply elem_of_nil in Hedge].
    apply elem_of_cons in Hedge as [->|Hnil]; [done | by apply elem_of_nil in Hnil].
  - intros (table & fk & Htable & Hfk & Hexists & ->). exists table. split; [done |].
    exists fk. split; [done |]. rewrite Hexists. by apply elem_of_cons; left.
Qed.

Lemma referencedTableExists_spec tables fk :
  referencedTableExists tables fk = true ↔
  ∃ t, t ∈ tables ∧ strictEquals (TableSchema.name t) (ForeignKey.referencedTable fk) = true.
Proof.
  unfold referencedTableExists. rewrite existsb_exists.
  by setoid_rewrite <- list_elem_of_In.
Qed.


(** X15: [generateEdges] draws no edge to a table that is not shown.  Every
    edge comes from a foreign key of a listed table, which is its source, and
    its target is the name of a listed table; the edge of a foreign key is
    drawn exactly when the name it references is, to [===], the name of a
    listed table, so a reference written in another letter case, or to a
    table that has no record, gives no edge.  There are no more edges than
    foreign keys, and when every referenced table is listed the edges are the
    foreign keys in order, each under the id of its key. *)
Theorem generateEdges_connects (tables : list TableSchema.t) :
  (∀ edge, edge ∈ generateEdges tables →
     (∃ table fk, table ∈ tables ∧ fk ∈ TableSchema.foreignKeys table ∧
                  edge = edgeOf table fk) ∧
     (∃ t, t ∈ tables ∧ TableSchema.name t = edgeSource edge) ∧
     (∃ t, t ∈ tables ∧ TableSchema.name t = edgeTarget edge)) ∧
  (∀ table fk,
     table ∈ tables → fk ∈ TableSchema.foreignKeys table →
     (edgeOf table fk ∈ generateEdges tables
      ↔ ∃ t, t ∈ tables ∧
             strictEquals (TableSchema.name t) (ForeignKey.referencedTable fk) = true)) ∧
  length (generateEdges tables) ≤ length (flat_map TableSchema.foreignKeys tables) ∧
  ((∀ table fk, table ∈ tables → fk ∈ TableSchema.foreignKeys table →
                referencedTableExists tables fk = true) →
   map edgeId (generateEdges tables)
   = map ForeignKey.id (flat_map TableSchema.foreignKeys tables)).
Proof.
  split_and!.
  - intros edge (table & fk & Htable & Hfk & Hexists & ->)%elem_of_generateEdges.
    split_and!.
    + by exists table, fk.
    + by exists table.
    + apply referencedTableExists_spec in Hexists as (t & Ht & Heq).
      exists t. split; [done |]. by apply strictEquals_eq.
  - intros table fk Htable Hfk. rewrite <- referencedTableExists_spec.
    rewrite elem_of_generateEdges. split.
    + intros (table' & fk' & _ & _ & Hexists & Heq).
      apply (f_equal edgeTarget) in Heq. cbn in Heq.
      unfold referencedTableExists in *. by rewrite Heq.
    + intros Hexists. by exists table, fk.
  - rewrite generateEdges_flat. generalize tables at 1. intros all.
    induction tables as [|table rest IH]; simpl; [done |].
    rewrite !length_app. apply Nat.add_le_mono; [| done].
    unfold edgesOf. induction (TableSchema.foreignKeys table) as [|fk fks IHfk]; simpl; [done |].
    rewrite length_app. destruct (referencedTableExists all fk); simpl; lia.
  - intros Hall. rewrite generateEdges_flat.
    assert (∀ rest, (∀ table, table ∈ rest → table ∈ tables) →
                    map edgeId (flat_map (edgesOf tables) rest)
                    = map ForeignKey.id (flat_map TableSchema.foreignKeys rest)) as Hrest.
    { induction rest as [|table rest IH]; intros Hsub; simpl; [done |].
      rewrite !map_app, IH by (intros t Ht; apply Hsub; by apply elem_of_cons; right).
      f_equal. unfold edgesOf.
      assert (∀ fk, fk ∈ TableSchema.foreignKeys table →
                    referencedTableExists tables fk = true) as Hfks.
      { intros fk Hfk. apply (Hall table); [| done]. apply Hsub. by apply elem_of_cons; left. }
      induction (TableSchema.foreignKeys table) as [|fk fks IHfk]; simpl; [done |].
      rewrite map_app, IHfk by (intros fk' Hfk'; apply Hfks; by apply elem_of_cons; right).
      rewrite Hfks by (by apply elem_of_cons; left). done. }
    by apply Hrest.
Qed.
End EdgeFacts.

(** ** Handles *)

Lemma append_inv_head a x y : a +:+ x = a +:+ y → x = y.
Proof. induction a as [|c a IH]; simpl; [done |]. intros [= Heq]. by apply IH. Qed.

Lemma list_ascii_of_append x c :
  list_ascii_of_string (x +:+ c) = list_ascii_of_string x ++ list_ascii_of_string c.
Proof. induction x as [|a x IH]; simpl; [done |]. by rewrite IH. Qed.

Lemma append_inv_tail x y c : x +:+ c = y +:+ c → x = y.
Proof.
  intros Heq. apply (f_equal list_ascii_of_string) in Heq.
  rewrite !list_ascii_of_append in Heq. apply app_inv_tail in Heq.
  apply (f_equal string_of_list_ascii) in Heq.
  by rewrite !string_of_list_ascii_of_string in Heq.
Qed.

Section HandleFacts.
Context `{Js.Host}.
Import SchemaViewer.

Lemma elem_of_TableNode table handle :
  handle ∈ TableNode table ↔
  handle = {| handleType := target; handleId := None |} ∨
  handle = {| handleType := source; handleId := None |} ∨
  ∃ column, column ∈ TableSchema.columns table ∧ handle ∈ columnHandles table column.
Proof.
  unfold TableNode. rewrite !elem_of_app, !list_elem_of_singleton.
  rewrite list_elem_of_In, in_flat_map. setoid_rewrite <- list_elem_of_In. tauto.
Qed.

(** X16: where an edge attaches.  The source handle an edge names is
    rendered by its source table's node whenever the key's column is, to
    [===], one of the table's columns.  The target handle it names is
    rendered by the node of the referenced table exactly when that table has
    a primary-key column whose name, as a string, is the referenced column;
    when it has none, the edge names a handle that is not there. *)
Theorem edges_find_handles (table : TableSchema.t) (fk : ForeignKey.t) :
  fk ∈ TableSchema.foreignKeys table →
  ((∃ column, column ∈ TableSchema.columns table ∧
              strictEquals (ForeignKey.columnName fk) (Column.name column) = true) →
   {| handleType := source; handleId := Some (sourceHandle (edgeOf table fk)) |}
   ∈ TableNode table) ∧
  (∀ t, TableSchema.name t = edgeTarget (edgeOf table fk) →
        {| handleType := target; handleId := Some (targetHandle (edgeOf table fk)) |}
        ∈ TableNode t
        ↔ ∃ column, column ∈ TableSchema.columns t ∧ Column.primaryKey column = true ∧
                    Js.String (Column.name column)
                    = Js.String (ForeignKey.referencedColumn fk)).
Proof.
  intros Hfk. split.
  - intros (column & Hcolumn & Heq). apply elem_of_TableNode. right. right.
    exists column. split; [done |]. unfold columnHandles.
    assert (isForeignKey table column = true) as ->.
    { unfold isForeignKey. apply existsb_exists. exists fk.
      by rewrite <- list_elem_of_In. }
    apply strictEquals_eq in Heq. cbn [edgeOf sourceHandle]. rewrite Heq.
    apply elem_of_app. left. by apply elem_of_cons; left.
  - intros t Ht. cbn [edgeOf edgeTarget targetHandle] in *.
    rewrite elem_of_TableNode. split.
    + intros [[=]|[[=]|(column & Hcolumn & Hhandle)]]. exists column. split; [done |].
      unfold columnHandles in Hhandle. apply elem_of_app in Hhandle as [Hsrc|Htgt].
      * destruct (isForeignKey t column); [| by apply elem_of_nil in Hsrc].
        apply elem_of_cons in Hsrc as [[=]|Hnil]. by apply elem_of_nil in Hnil.
      * destruct (Column.primaryKey column); [| by apply elem_of_nil in Htgt].
        split; [done |].
        apply elem_of_cons in Htgt as [[= Hid]|Hnil]; [| by apply elem_of_nil in Hnil].
        unfold targetHandleId in Hid. rewrite Ht in Hid.
        apply append_inv_head, append_inv_head in Hid. symmetry.
        by apply append_inv_tail in Hid.
    + intros (column & Hcolumn & Hpk & Hname). right. right. exists column.
      split; [done |]. unfold columnHandles. rewrite Hpk. apply elem_of_app. right.
      apply elem_of_cons. left. unfold targetHandleId. by rewrite Ht, Hname.
Qed.
End HandleFacts.

(** The edge of [a]'s key finds both its handles. *)
Lemma edges_find_handles_witness :
  SampleGraph.a_fk ∈ TableSchema.foreignKeys SampleGraph.a ∧
  {| SchemaViewer.handleType := SchemaViewer.source;
     SchemaViewer.handleId := Some "a-p_id-source" |}
  ∈ @SchemaViewer.TableNode Sample.host SampleGraph.a ∧
  {| SchemaViewer.handleType := SchemaViewer.target;
     SchemaViewer.handleId := Some "p-id-target" |}
  ∈ @SchemaViewer.TableNode Sample.host SampleGraph.p.
Proof.
  assert (SampleGraph.a_fk ∈ TableSchema.foreignKeys SampleGraph.a) as Hfk
    by (by apply elem_of_cons; left).
  destruct (@edges_find_handles Sample.host SampleGraph.a SampleGraph.a_fk Hfk)
    as [Hsource Htarget].
  split; [exact Hfk |]. split.
  - apply Hsource. eexists. split; [by apply elem_of_cons; left | reflexivity].
  - apply (Htarget SampleGraph.p eq_refl). eexists.
    split; [by apply elem_of_cons; left |]. by split.
Defined.

(** ** Nodes and the cache of positions *)

Section CacheFacts.
Context `{Js.Host}.
Import SchemaViewer.

Lemma own_store c k p k' :
  own (store c k p) !! k' =
    if bool_decide (k = k' ∧ k ≠ "__proto__") then Some p else own c !! k'.
Proof.
  unfold store. destruct (String.eqb k "__proto__") eqn:Hk; cbn.
  - apply String.eqb_eq in Hk. rewrite bool_decide_false; [done | tauto].
  - apply String.eqb_neq in Hk. destruct (decide (k = k')) as [->|Hne].
    + rewrite lookup_insert_eq. by rewrite bool_decide_true.
    + rewrite lookup_insert_ne by done. rewrite bool_decide_false; [done | tauto].
Qed.

Lemma lookup_own c k p : own c !! k = Some p → lookup c k = Some (At p).
Proof. unfold lookup. by intros ->. Qed.

Lemma lookup_empty_plain k : plainKey k = true → lookup emptyCache k = None.
Proof.
  unfold plainKey, lookup, inherited. intros [Hproto Hmember]%andb_true_iff.
  apply negb_true_iff in Hproto. apply bool_decide_eq_true in Hmember.
  cbn. rewrite lookup_empty, Hproto. by rewrite bool_decide_false.
Qed.

Lemma lookup_member c k :
  k ∈ objectPrototype → own c !! k = None → lookup c k = Some (Member k).
Proof.
  intros Hk Hown. unfold lookup, inherited. rewrite Hown.
  assert (String.eqb k "__proto__" = false ∧ String.eqb k "x" = false
          ∧ String.eqb k "y" = false) as (-> & -> & ->).
  { unfold objectPrototype in Hk. rewrite !elem_of_cons, elem_of_nil in Hk.
    destruct Hk as [->|[->|[->|[->|[->|[->|[->|[->|[->|[->|[->|[]]]]]]]]]]]]; done. }
  rewrite bool_decide_true by done. by destruct (proto c).
Qed.

Lemma integer_inj m n : integer m = integer n → m = n.
Proof.
  unfold integer. intros [= Heq]. apply Qred_eq_iff in Heq.
  unfold Qeq in Heq. simpl in Heq. lia.
Qed.

Lemma gridPosition_inj i j : gridPosition i = gridPosition j → i = j.
Proof.
  intros Heq. pose proof (f_equal x Heq) as Hx. pose proof (f_equal y Heq) as Hy.
  cbv beta zeta iota delta [x y gridPosition] in Hx, Hy.
  apply integer_inj in Hx, Hy.
  rewrite (Nat.div_mod_eq i 2), (Nat.div_mod_eq j 2). lia.
Qed.

Lemma generateInitialNodes_lookup tables c i :
  generateInitialNodes tables c !! i =
    (λ table,
       {| id := TableSchema.name table;
          position :=
            match lookup c (Js.String (TableSchema.name table)) with
            | Some saved => if truthy saved then saved else At (gridPosition i)
            | None => At (gridPosition i)
            end;
          data := table;
          type := "tableNode";
          draggable := true |}) <$> tables !! i.
Proof. unfold generateInitialNodes. by rewrite list_lookup_imap. Qed.
End CacheFacts.

Section NodeFacts.
Context `{Js.Host}.
Import SchemaViewer.

Lemma position_at tables c i t p :
  tables !! i = Some t → own c !! Js.String (TableSchema.name t) = Some p →
  position <$> generateInitialNodes tables c !! i = Some (At p).
Proof.
  intros Ht Hown. rewrite generateInitialNodes_lookup, Ht. cbn.
  by rewrite (lookup_own _ _ _ Hown).
Qed.

(** X17: [generateInitialNodes] makes one node for each table, in order: its
    id is the table's name and its data the table's record, it is a draggable
    table node, and its position is never a false value.  From the empty
    cache, two tables whose names are no member of [Object.prototype] are
    never put at the same place. *)
Theorem nodes_follow_tables (tables : list TableSchema.t) (c : Cache) :
  id <$> generateInitialNodes tables c = TableSchema.name <$> tables ∧
  data <$> generateInitialNodes tables c = tables ∧
  (∀ node, node ∈ generateInitialNodes tables c →
           type node = "tableNode" ∧ draggable node = true ∧
           truthy (position node) = true) ∧
  (∀ i j ni nj,
     generateInitialNodes tables emptyCache !! i = Some ni →
     generateInitialNodes tables emptyCache !! j = Some nj →
     plainKey (Js.String (id ni)) = true → plainKey (Js.String (id nj)) = true →
     position ni = position nj → i = j).
Proof.
  split_and!.
  - apply list_eq. intros i.
    rewrite !list_lookup_fmap, generateInitialNodes_lookup. by destruct (tables !! i).
  - apply list_eq. intros i.
    rewrite list_lookup_fmap, generateInitialNodes_lookup. by destruct (tables !! i).
  - intros node (i & Hnode)%list_elem_of_lookup.
    rewrite generateInitialNodes_lookup in Hnode.
    destruct (tables !! i) as [table|]; [| done]. injection Hnode as <-. cbn.
    split; [done |]. split; [done |].
    destruct (lookup c (Js.String (TableSchema.name table))) as [saved|]; [| done].
    by destruct (truthy saved) eqn:Hsaved.
  - intros i j ni nj Hi Hj Hki Hkj Hpos.
    rewrite generateInitialNodes_lookup in Hi, Hj.
    destruct (tables !! i) as [ti|]; [| done]. destruct (tables !! j) as [tj|]; [| done].
    injection Hi as <-. injection Hj as <-. cbn [id position] in *.
    rewrite (lookup_empty_plain _ Hki), (lookup_empty_plain _ Hkj) in Hpos.
    apply gridPosition_inj. congruence.
Qed.

Lemma handleNodesChange_app changes1 changes2 c :
  handleNodesChange (changes1 ++ changes2) c
  = handleNodesChange changes2 (handleNodesChange changes1 c).
Proof. unfold handleNodesChange. by rewrite foldl_app. Qed.

Lemma handleNodesChange_other changes c k :
  Forall (λ change, movesNode k change = false) changes →
  own (handleNodesChange changes c) !! k = own c !! k.
Proof.
  intros Hother. revert c. induction Hother as [|change changes Hchange _ IH]; intros c; [done |].
  unfold handleNodesChange in *. cbn [foldl]. rewrite IH.
  destruct change as [changeId [p|]|]; [| done | done].
  cbn in Hchange. destruct (negb (String.eqb changeId "")); [| done].
  cbn in Hchange. apply String.eqb_neq in Hchange.
  rewrite own_store. rewrite bool_decide_false; [done | tauto].
Qed.

(** X18: the place a table is dragged to is the place it is drawn at.  After
    the changes React Flow reports, the last of which that moves the node
    with id [k] puts it at [p], [generateInitialNodes] places the table
    whose name is [k] at [p], whatever its index, for every [k] but the empty
    string and [__proto__]. *)
Theorem dragged_position_kept (tables : list TableSchema.t) (c : Cache)
        before after k p i t :
  k ≠ "" → k ≠ "__proto__" →
  Forall (λ change, movesNode k change = false) after →
  tables !! i = Some t → Js.String (TableSchema.name t) = k →
  position <$>
    generateInitialNodes tables
      (handleNodesChange (before ++ PositionChange k (Some p) :: after) c) !! i
  = Some (At p).
Proof.
  intros Hk Hproto Hafter Ht Hname. apply (position_at _ _ _ t); [done |].
  rewrite Hname, handleNodesChange_app.
  change (PositionChange k (Some p) :: after) with ([PositionChange k (Some p)] ++ after).
  rewrite handleNodesChange_app, handleNodesChange_other by done.
  unfold handleNodesChange at 1. cbn [foldl].
  apply String.eqb_neq in Hk. rewrite Hk. cbn [negb].
  rewrite own_store, bool_decide_true by done. by destruct p.
Qed.

(** X19: a table that takes its name from a member of [Object.prototype],
    such as [constructor] or [toString], and has no place of its own in the
    cache, is given no place in the grid: the read of the cache finds the
    inherited member, a true value, and that becomes the node's position. *)
Theorem inherited_name_is_no_place (tables : list TableSchema.t) (c : Cache) i t :
  tables !! i = Some t →
  Js.String (TableSchema.name t) ∈ objectPrototype →
  own c !! Js.String (TableSchema.name t) = None →
  position <$> generateInitialNodes tables c !! i
  = Some (Member (Js.String (TableSchema.name t))).
Proof.
  intros Ht Hmember Hown. rewrite generateInitialNodes_lookup, Ht. cbn.
  by rewrite (lookup_member _ _ Hmember Hown).
Qed.

Lemma cached_nodes nodes k p :
  k ≠ "__proto__" →
  (∀ node, node ∈ nodes → Js.String (id node) = k → position node = At p) →
  ∀ c,
    own c !! k = Some p ∨ (∃ node, node ∈ nodes ∧ Js.String (id node) = k) →
    own (foldl (λ c node,
                  if truthy (position node)
                  then store c (Js.String (id node))
                             {| x := getX (position node); y := getY (position node) |}
                  else c)
               c nodes) !! k = Some p.
Proof.
  intros Hproto. induction nodes as [|node nodes IH]; intros Hall c Hsome.
  - destruct Hsome as [? | (node & Hnode%elem_of_nil & _)]; done.
  - cbn [foldl]. apply IH.
    { intros node' Hnode'. apply Hall. by apply elem_of_cons; right. }
    destruct (decide (Js.String (id node) = k)) as [Hkey|Hkey].
    + left. rewrite (Hall node), Hkey by (done || by apply elem_of_cons; left).
      cbn [truthy getX getY]. rewrite own_store, bool_decide_true by done. by destruct p.
    + destruct Hsome as [Hown | (node' & Hnode' & Hkey')].
      * left. destruct (truthy (position node)); [| done].
        rewrite own_store, bool_decide_false; [done | tauto].
      * right. exists node'. split; [| done].
        apply elem_of_cons in Hnode' as [->|?]; done.
Qed.

(** X20: the effect on [tables] keeps the tables that stay where they are.
    When the nodes React Flow holds have the node with key [k] at [p], the
    nodes made anew have the table whose name is [k] at [p], at whatever
    index the table now is. *)
Theorem tablesEffect_keeps_place (nodes : list Node) (tables : list TableSchema.t)
        (c : Cache) k p i t :
  k ≠ "__proto__" →
  (∃ node, node ∈ nodes ∧ Js.String (id node) = k) →
  (∀ node, node ∈ nodes → Js.String (id node) = k → position node = At p) →
  tables !! i = Some t → Js.String (TableSchema.name t) = k →
  position <$> (tablesEffect nodes tables c).1.1 !! i = Some (At p).
Proof.
  intros Hproto Hsome Hall Ht Hname. unfold tablesEffect. cbn [fst].
  apply (position_at _ _ _ t); [done |]. rewrite Hname.
  apply cached_nodes; [done | done | by right].
Qed.

Lemma plainKey_spec k :
  plainKey k = true → String.eqb k "__proto__" = false ∧ inherited k = None.
Proof.
  unfold plainKey, inherited. intros [Hproto Hmember]%andb_true_iff.
  apply negb_true_iff in Hproto. apply bool_decide_eq_true in Hmember.
  split; [done |]. by rewrite bool_decide_false.
Qed.

Lemma uncached_nodes nodes k :
  (∀ node, node ∈ nodes → Js.String (id node) ≠ k) →
  ∀ c,
    own (foldl (λ c node,
                  if truthy (position node)
                  then store c (Js.String (id node))
                             {| x := getX (position node); y := getY (position node) |}
                  else c)
               c nodes) !! k = own c !! k.
Proof.
  induction nodes as [|node nodes IH]; intros Hall c; [done |].
  cbn [foldl]. rewrite IH by (intros node' Hnode'; apply Hall; by apply elem_of_cons; right).
  destruct (truthy (position node)); [| done].
  rewrite own_store, bool_decide_false; [done |].
  intros [Hkey _]. by apply (Hall node); [apply elem_of_cons; left |].
Qed.

Lemma proto_nodes nodes :
  (∀ node, node ∈ nodes → Js.String (id node) ≠ "__proto__") →
  ∀ c,
    proto (foldl (λ c node,
                    if truthy (position node)
                    then store c (Js.String (id node))
                               {| x := getX (position node); y := getY (position node) |}
                    else c)
                 c nodes) = proto c.
Proof.
  induction nodes as [|node nodes IH]; intros Hall c; [done |].
  cbn [foldl]. rewrite IH by (intros node' Hnode'; apply Hall; by apply elem_of_cons; right).
  destruct (truthy (position node)); [| done]. unfold store.
  assert (Js.String (id node) ≠ "__proto__") as Hkey%String.eqb_neq
    by (apply Hall; by apply elem_of_cons; left).
  by rewrite Hkey.
Qed.

Lemma lookup_plain c k :
  plainKey k = true → proto c = None → own c !! k = None → lookup c k = None.
Proof.
  intros [Hproto Hinh]%plainKey_spec Hp Hown. unfold lookup.
  by rewrite Hown, Hproto, Hp.
Qed.

Lemma elem_of_generateInitialNodes tables c node :
  node ∈ generateInitialNodes tables c →
  ∃ i t, tables !! i = Some t ∧ id node = TableSchema.name t ∧
         generateInitialNodes tables c !! i = Some node.
Proof.
  intros (i & Hnode)%list_elem_of_lookup. pose proof Hnode as Hi.
  rewrite generateInitialNodes_lookup in Hnode.
  destruct (tables !! i) as [t|] eqn:Ht; [| done]. injection Hnode as <-.
  by exists i, t.
Qed.

Lemma tablesEffect_settled kb kc p nodes tables c :
  kb ≠ "__proto__" →
  proto c = None → own c !! kc = None →
  (own c !! kb = Some p ∨ ∃ node, node ∈ nodes ∧ Js.String (id node) = kb) →
  (∀ node, node ∈ nodes →
           Js.String (id node) ≠ kc ∧ Js.String (id node) ≠ "__proto__" ∧
           (Js.String (id node) = kb → position node = At p)) →
  (∀ t, t ∈ tables → Js.String (TableSchema.name t) ≠ kc ∧
                     Js.String (TableSchema.name t) ≠ "__proto__") →
  settled kb kc p (tablesEffect nodes tables c).
Proof.
  intros Hkb Hproto Hkc Hsome Hnodes Htables. unfold settled, tablesEffect. cbn [fst snd].
  assert (own (foldl (λ c node,
                  if truthy (position node)
                  then store c (Js.String (id node))
                             {| x := getX (position node); y := getY (position node) |}
                  else c) c nodes) !! kb = Some p) as Hown.
  { apply cached_nodes; [done | | done]. intros node Hnode. by apply Hnodes. }
  split_and!.
  - rewrite proto_nodes; [done |]. intros node Hnode. by apply Hnodes.
  - rewrite uncached_nodes; [done |]. intros node Hnode. by apply Hnodes.
  - done.
  - intros node (i & t & Ht & Hid & Hnode)%elem_of_generateInitialNodes.
    rewrite Hid. destruct (Htables t) as [? ?]; [by eapply list_elem_of_lookup_2 |].
    split; [done |]. split; [done |]. intros Hkey.
    rewrite <- Hkey in Hown.
    pose proof (position_at tables _ i t p Ht Hown) as Hpos.
    rewrite Hnode in Hpos. by injection Hpos.
Qed.

(** X21: the grid does not look at what the cache holds.  When the graph is
    mounted with the tables [a] and [b], then [a] is dropped, then [c] is
    created, and no node is moved, [b] stays at the second place of the grid,
    where it was first drawn, and [c], now second in the list, is put at the
    second place of the grid as well: the two nodes lie one on the other. *)
Theorem created_after_drop_overlaps (a b c : TableSchema.t) :
  let ka := Js.String (TableSchema.name a) in
  let kb := Js.String (TableSchema.name b) in
  let kc := Js.String (TableSchema.name c) in
  plainKey ka = true → plainKey kb = true → plainKey kc = true →
  ka ≠ kb → kc ≠ ka → kc ≠ kb →
  position <$> (rerender [b; c] (rerender [b] (mount [a; b]))).1.1
  = [At (gridPosition 1); At (gridPosition 1)].
Proof.
  intros ka kb kc Ha Hb Hc Hab Hca Hcb. subst ka kb kc.
  set (ka := Js.String (TableSchema.name a)) in *.
  set (kb := Js.String (TableSchema.name b)) in *.
  set (kc := Js.String (TableSchema.name c)) in *.
  destruct (plainKey_spec _ Ha) as [Ha'%String.eqb_neq _].
  destruct (plainKey_spec _ Hb) as [Hb'%String.eqb_neq _].
  destruct (plainKey_spec _ Hc) as [Hc'%String.eqb_neq _].
  assert (settled kb kc (gridPosition 1) (mount [a; b])) as Hmount.
  { unfold mount. apply tablesEffect_settled; try done.
    - right. eexists. split; [apply elem_of_cons; right; apply elem_of_cons; by left |]. done.
    - intros node [->|[->|Hnil%elem_of_nil]%elem_of_cons]%elem_of_cons; [| | done];
        unfold compose; cbn [id position]; fold ka; fold kb.
      + split; [done |]. split; [done |]. done.
      + split; [done |]. split; [done |]. intros _.
        by rewrite (lookup_empty_plain _ Hb).
    - intros t [->|[->|Hnil%elem_of_nil]%elem_of_cons]%elem_of_cons; done. }
  assert (settled kb kc (gridPosition 1) (rerender [b] (mount [a; b]))) as Hdrop.
  { destruct Hmount as (Hp & Hkc & Hkb & Hnodes). unfold rerender.
    apply tablesEffect_settled; try done; [by left |].
    intros t [->|Hnil%elem_of_nil]%elem_of_cons; done. }
  destruct Hdrop as (Hp & Hkc & Hkb & Hnodes). unfold rerender at 1.
  generalize dependent (rerender [b] (mount [a; b])). intros [[nodes edges] cache].
  cbn [fst snd]. intros Hp Hkc Hkb Hnodes.
  unfold tablesEffect. cbn [fst]. apply list_eq. intros [|[|i]].
  - rewrite list_lookup_fmap. apply (position_at _ _ 0 b); [done |].
    apply cached_nodes; [done | | by left]. intros node Hnode. by apply Hnodes.
  - rewrite list_lookup_fmap, generateInitialNodes_lookup. cbn [lookup]. cbn.
    fold kc. rewrite lookup_plain; [done | done | |].
    + rewrite proto_nodes; [done |]. intros node Hnode. by apply Hnodes.
    + rewrite uncached_nodes; [done |]. intros node Hnode. by apply Hnodes.
  - done.
Qed.

End NodeFacts.

(** [a] is dragged, and React Flow reports one more change. *)
Lemma dragged_position_kept_witness :
  let place := SampleGraph.at_point 510 75 in
  SchemaViewer.position <$>
    @SchemaViewer.generateInitialNodes Sample.host
      [SampleGraph.p; SampleGraph.a; SampleGraph.b]
      (SchemaViewer.handleNodesChange
         [SchemaViewer.PositionChange "a" (Some place); SchemaViewer.OtherChange]
         SchemaViewer.emptyCache) !! 1
  = Some (SchemaViewer.At place).
Proof.
  apply (@dragged_position_kept Sample.host
           [SampleGraph.p; SampleGraph.a; SampleGraph.b] SchemaViewer.emptyCache
           [] [SchemaViewer.OtherChange] "a" (SampleGraph.at_point 510 75) 1 SampleGraph.a);
    [done | done | by repeat constructor | reflexivity | reflexivity].
Defined.

(** A table named [valueOf], second in the list. *)
Lemma inherited_name_is_no_place_witness :
  "valueOf" ∈ SchemaViewer.objectPrototype ∧
  SchemaViewer.position <$>
    @SchemaViewer.generateInitialNodes Sample.host
      [SampleGraph.p; SampleGraph.valueOf] SchemaViewer.emptyCache !! 1
  = Some (SchemaViewer.Member "valueOf").
Proof.
  assert ("valueOf" ∈ SchemaViewer.objectPrototype) as Hmember
    by (do 6 (apply elem_of_cons; right); by apply elem_of_cons; left).
  split; [exact Hmember |].
  exact (@inherited_name_is_no_place Sample.host
           [SampleGraph.p; SampleGraph.valueOf] SchemaViewer.emptyCache 1
           SampleGraph.valueOf eq_refl Hmember eq_refl).
Defined.

(** [p] is dropped while [a] is shown where it was dragged to: [a] is now
    first in the list, and stays. *)
Lemma tablesEffect_keeps_place_witness :
  let place := SampleGraph.at_point 510 75 in
  let shown :=
    {| SchemaViewer.id := Sample.str "a"; SchemaViewer.position := SchemaViewer.At place;
       SchemaViewer.data := SampleGraph.a; SchemaViewer.type := "tableNode";
       SchemaViewer.draggable := true |} in
  SchemaViewer.position <$>
    (@SchemaViewer.tablesEffect Sample.host [shown] [SampleGraph.a]
       SchemaViewer.emptyCache).1.1 !! 0
  = Some (SchemaViewer.At place).
Proof.
  apply (@tablesEffect_keeps_place Sample.host _ [SampleGraph.a] SchemaViewer.emptyCache
           "a" (SampleGraph.at_point 510 75) 0 SampleGraph.a); [done | | | done | done].
  - eexists. split; [by apply elem_of_cons; left | reflexivity].
  - intros node [->|Hnil%elem_of_nil]%elem_of_cons _; done.
Defined.

(** The sample graph with [p] dropped and [b] created after. *)
Lemma created_after_drop_overlaps_witness :
  SchemaViewer.position <$>
    (@rerender Sample.host [SampleGraph.a; SampleGraph.b]
       (@rerender Sample.host [SampleGraph.a]
          (@mount Sample.host [SampleGraph.p; SampleGraph.a]))).1.1
  = [ SchemaViewer.At (SchemaViewer.gridPosition 1);
      SchemaViewer.At (SchemaViewer.gridPosition 1) ].
Proof.
  apply (@created_after_drop_overlaps Sample.host SampleGraph.p SampleGraph.a SampleGraph.b);
    done.
Defined.

(** * The results table *)

Section NoOutput.
Context `{Js.Host}.

Lemma assign_empty {V} (t : gmap string V) key v :
  Js.assign t key v = ∅ ↔ t = ∅ ∧ key = "__proto__".
Proof.
  unfold Js.assign. destruct (String.eqb key "__proto__") eqn:Hkey.
  - apply String.eqb_eq in Hkey. tauto.
  - apply String.eqb_neq in Hkey. split.
    + intros Hempty. by apply insert_non_empty in Hempty.
    + by intros [_ ?].
Qed.

Lemma resultTables_empty result :
  App.resultTables result = ∅
  ↔ Forall (λ table, Js.join ", " (SqlJs.columns table) = "__proto__") result.
Proof.
  unfold App.resultTables.
  assert (∀ t : gmap string (list TableRow),
            foldl (λ tableData table,
                     Js.assign tableData (Js.join ", " (SqlJs.columns table))
                       (map (App.resultRow (SqlJs.columns table)) (SqlJs.values table)))
                  t result = ∅
            ↔ t = ∅ ∧ Forall (λ table, Js.join ", " (SqlJs.columns table) = "__proto__")
                             result) as Hgen.
  { induction result as [|r result IH]; intros t; simpl.
    - split; [by intros -> | by intros [-> _]].
    - rewrite IH, assign_empty, Forall_cons. tauto. }
  rewrite Hgen. tauto.
Qed.

Lemma join_proto columns :
  Js.join ", " columns = "__proto__" ↔ columns = ["__proto__"].
Proof.
  split; [| by intros ->].
  destruct columns as [|x [|y rest]]; [done | simpl; by intros -> |].
  intros Hjoin. apply (f_equal list_ascii_of_string) in Hjoin.
  change (Js.join ", " (x :: y :: rest))
    with (x +:+ ", " +:+ Js.join ", " (y :: rest)) in Hjoin.
  rewrite !list_ascii_of_append in Hjoin.
  assert ("," ∈ list_ascii_of_string "__proto__")%char as Hcomma.
  { rewrite <- Hjoin. apply elem_of_app. right. apply elem_of_app. left.
    by apply elem_of_cons; left. }
  cbn in Hcomma. repeat (apply elem_of_cons in Hcomma as [[=]|Hcomma]).
  by apply elem_of_nil in Hcomma.
Qed.

(** X22: when the results table says "No output available".  It does so
    when it is given no results, and, given the object [executeQuery] builds
    from the result sets of a query, exactly when every one of them has the
    single column [__proto__]: the rows of such a result set, stored under
    that key, leave the object without a property. *)
Theorem no_output_available :
  QueryOutputTable.render None = QueryOutputTable.NoOutput ∧
  ∀ result,
    QueryOutputTable.render (Some (App.resultTables result)) = QueryOutputTable.NoOutput
    ↔ Forall (λ table, SqlJs.columns table = ["__proto__"]) result.
Proof.
  split; [done |]. intros result.
  assert (Forall (λ table, SqlJs.columns table = ["__proto__"]) result
          ↔ Forall (λ table, Js.join ", " (SqlJs.columns table) = "__proto__") result)
    as ->.
  { apply Forall_proper; [| done]. intros table. by rewrite join_proto. }
  rewrite <- resultTables_empty.
  unfold QueryOutputTable.render. case_bool_decide as Hsize.
  - apply map_size_empty_iff in Hsize. by split.
  - split; [done |]. intros Hempty. by rewrite Hempty, map_size_empty in Hsize.
Qed.
End NoOutput.

(** * What a run does outside the state *)

Ltac each_effect :=
  repeat first [apply Forall_nil_2 | apply Forall_cons_2 | apply Forall_app_2];
  try done.

Ltac in_order :=
  repeat first [apply sublist_nil_l | apply sublist_skip | apply sublist_cons].

Section Logs.
Context {S A B : Type}.

Lemma execTexts_app log1 log2 : execTexts (log1 ++ log2) = execTexts log1 ++ execTexts log2.
Proof. apply omap_app. Qed.

Lemma passOver_app texts1 texts2 log1 log2 :
  passOver texts1 log1 → passOver texts2 log2 → passOver (texts1 ++ texts2) (log1 ++ log2).
Proof.
  intros [Hq1 Hs1] [Hq2 Hs2]. split; [by apply Forall_app |].
  rewrite execTexts_app. by apply sublist_app.
Qed.

Lemma passOver_error texts log label (r : Js.thrown + A) :
  passOver texts log → passOver texts (log ++ logged label r).
Proof.
  intros Hpass. rewrite <- (app_nil_r texts). apply passOver_app; [done |].
  destruct r; split; cbn; each_effect.
Qed.

Lemma forEach_pass (g : A → list string) (f : B → A → Eff.M S B) xs :
  (∀ acc x s, passOver (g x) (f acc x s).2) →
  ∀ acc s, passOver (flat_map g xs) (Eff.forEach f acc xs s).2.
Proof.
  intros Hstep. induction xs as [|x xs IH]; intros acc s; simpl.
  - split; [constructor | done].
  - unfold Eff.bind. pose proof (Hstep acc x s) as Hone.
    destruct (f acc x s) as [[[err|b1] s1] log1]; cbn [snd] in *.
    + destruct Hone as [Hq Hs]. split; [done |]. by apply sublist_inserts_r.
    + pose proof (IH b1 s1) as Hrest.
      destruct (Eff.forEach f b1 xs s1) as [[r2 s2] log2]. by apply passOver_app.
Qed.
End Logs.

Section ReadOnly.
Context `{Js.Host} {E : Type} `{SqlJs.Database E}.

Lemma readTable_pass acc table (e : E) :
  passOver [selectAllQuery table] (readTable acc table e).2.
Proof.
  unfold readTable, Eff.bind, Db.exec, Db.call.
  destruct (SqlJs.exec (selectAllQuery table) e) as [[err|[|first rest]] e1]; cbn;
    (split; [each_effect | in_order]).
Qed.

Lemma fetchTablesData_pass (e : E) :
  passOver (selectsOf (reported e)) (Db.fetchTablesData e).2.
Proof.
  rewrite fetchTablesData_loop. unfold Eff.bind at 1. unfold Db.exec at 1, Db.call.
  unfold selectsOf, reported.
  destruct (SqlJs.exec Db.catalogQuery e) as [[err|tableQuery] e0]; cbv beta iota.
  - split; [each_effect | in_order].
  - pose proof (forEach_pass (λ table, [selectAllQuery table]) readTable
                  (Db.tableNamesOf tableQuery) readTable_pass ∅ e0) as Hloop.
    destruct (Eff.forEach readTable ∅ (Db.tableNamesOf tableQuery) e0) as [[r2 e2] log2].
    cbn [snd] in *.
    replace (map selectAllQuery (Db.tableNamesOf tableQuery))
      with (flat_map (λ table, [selectAllQuery table]) (Db.tableNamesOf tableQuery))
      by (clear; generalize (Db.tableNamesOf tableQuery) as names;
          induction names as [|x names IH]; simpl; [done | by rewrite IH]).
    by apply (passOver_app [Db.catalogQuery] _ [DbExec Db.catalogQuery]);
      [split; [each_effect | in_order] |].
Qed.

Lemma fetchTableSchema_pass schemas tableName (e : E) :
  passOver [tableInfoQuery tableName; foreignKeyListQuery tableName]
           (Db.fetchTableSchema schemas tableName e).2.
Proof.
  unfold Db.fetchTableSchema, Eff.try_catch, Eff.bind, Db.exec, Db.call.
  fold (tableInfoQuery tableName). fold (foreignKeyListQuery tableName).
  destruct (SqlJs.exec (tableInfoQuery tableName) e) as [[err|[|info rest]] e1]; cbn.
  - split; [each_effect | in_order].
  - split; [each_effect | in_order].
  - destruct (SqlJs.exec (foreignKeyListQuery tableName) e1) as [[err|fks] e2]; cbn;
      (split; [each_effect | in_order]).
Qed.

Lemma fetchTableSchemasData_pass (e : E) :
  passOver (pragmasOf (reported e)) (Db.fetchTableSchemasData e).2.
Proof.
  unfold Db.fetchTableSchemasData. unfold Eff.bind at 1. unfold Db.exec at 1, Db.call.
  unfold pragmasOf, reported.
  destruct (SqlJs.exec Db.catalogQuery e) as [[err|tableQuery] e0]; cbv beta iota.
  - split; [each_effect | in_order].
  - pose proof (forEach_pass
                  (λ tableName, [tableInfoQuery tableName; foreignKeyListQuery tableName])
                  Db.fetchTableSchema (Db.tableNamesOf tableQuery)
                  (λ acc x s, fetchTableSchema_pass acc x s) [] e0) as Hloop.
    destruct (Eff.forEach Db.fetchTableSchema [] (Db.tableNamesOf tableQuery) e0)
      as [[r2 e2] log2].
    cbn [snd] in *.
    by apply (passOver_app [Db.catalogQuery] _ [DbExec Db.catalogQuery]);
      [split; [each_effect | in_order] |].
Qed.

Lemma catalog_passes (e : E) :
  ∃ log1 log2,
    (catalog e).2 = log1 ++ log2 ∧
    passOver (selectsOf (reported e)) log1 ∧
    passOver (pragmasOf (reported (Db.fetchTablesData e).1.2)) log2.
Proof.
  unfold catalog. pose proof (fetchTablesData_pass e) as H1.
  destruct (Db.fetchTablesData e) as [[r1 e1] log1].
  pose proof (fetchTableSchemasData_pass e1) as H2.
  destruct (Db.fetchTableSchemasData e1) as [[r2 e2] log2]. cbn [fst snd] in *.
  eexists _, _. split; [reflexivity |]. split; by apply passOver_error.
Qed.

(** X23: the editor's text is handed to the engine once, and every later
    call of the engine is [db.exec] on a text built from the catalog.  With a
    database loaded, [fetchTables] does nothing but call [db.exec] and write
    errors to the console, and the texts it executes are, in this order, among
    the query on [sqlite_master] and the select on each name that this query
    returns on the engine; [fetchTableSchemas] likewise, with the two pragmas
    in place of the select.  A name goes between the quotes of the text as it
    is, so what such a text does is up to the names in the catalog.  The first
    thing [executeQuery] does is the one call of [db.run] or [db.exec] on the
    editor's text; after it come the question for the count of rows changed or
    a line on the console, then such a pass of [fetchTables] on the engine the
    statement left, then such a pass of [fetchTableSchemas] on the engine the
    first pass left: no second [db.run], no export, no alert and no
    download. *)
Theorem executeQuery_calls_once (s : App.State E) (e : E) :
  App.db s = Some e →
  passOver (selectsOf (reported e)) (App.fetchTables s).2 ∧
  passOver (pragmasOf (reported e)) (App.fetchTableSchemas s).2 ∧
  (∀ tableName,
     selectAllQuery tableName
     = "SELECT * FROM " +:+ Db.dquote +:+ Js.String tableName +:+ Db.dquote +:+ ";" ∧
     tableInfoQuery tableName
     = "PRAGMA table_info(" +:+ Db.dquote +:+ Js.String tableName +:+ Db.dquote +:+ ");" ∧
     foreignKeyListQuery tableName
     = "PRAGMA foreign_key_list(" +:+ Db.dquote +:+ Js.String tableName +:+ Db.dquote +:+ ");") ∧
  ∃ after log1 log2,
    (App.executeQuery s).2
    = (if App.isDMLQuery (App.editorContent s)
       then DbRun (App.editorContent s) else DbExec (App.editorContent s))
      :: after ++ log1 ++ log2 ∧
    Forall countOrConsole after ∧
    passOver (selectsOf (reported (afterStatement (App.editorContent s) e))) log1 ∧
    passOver (pragmasOf
                (reported (Db.fetchTablesData (afterStatement (App.editorContent s) e)).1.2))
             log2.
Proof.
  intros Hdb. split_and!.
  - rewrite (fetchTables_run s e Hdb). pose proof (fetchTablesData_pass e) as Hpass.
    destruct (Db.fetchTablesData e) as [[r1 e1] log1]. by apply passOver_error.
  - rewrite (fetchTableSchemas_run s e Hdb).
    pose proof (fetchTableSchemasData_pass e) as Hpass.
    destruct (Db.fetchTableSchemasData e) as [[r1 e1] log1]. by apply passOver_error.
  - done.
  - rewrite (executeQuery_run s e Hdb).
    destruct (statement_engine s e) as (Hdb1 & _).
    assert (∃ after,
              (statement s e).1.2
              = (if App.isDMLQuery (App.editorContent s)
                 then DbRun (App.editorContent s) else DbExec (App.editorContent s))
                :: after ∧
              Forall countOrConsole after) as (after & Hlog0 & Hafter).
    { unfold statement. destruct (App.isDMLQuery (App.editorContent s)).
      - destruct (SqlJs.run (App.editorContent s) e) as [[err|[]] e1]; cbn;
          eexists; (split; [reflexivity |]); each_effect.
      - destruct (SqlJs.exec (App.editorContent s) e) as [[err|[|r rs]] e1]; cbn;
          eexists; (split; [reflexivity |]); each_effect. }
    destruct (statement s e) as [[s1 log0] again]. cbn [fst snd] in *.
    rewrite (refetch_run s1 _ Hdb1).
    destruct (catalog_passes (afterStatement (App.editorContent s) e))
      as (log1 & log2 & Hlog & Hpass1 & Hpass2).
    destruct (catalog (afterStatement (App.editorContent s) e)) as [[[r1 r2] e2] log].
    cbn [snd] in *. subst log0 log. by exists after, log1, log2.
Qed.

End ReadOnly.

(** On the sample database an insert is run once, the count is asked for,
    and the catalog is read twice, each time for [p], [a] and [b]. *)
Lemma executeQuery_calls_once_witness :
  App.db (Sample.loaded Sample.fresh "INSERT INTO b VALUES (1)") = Some Sample.fresh ∧
  passOver (selectsOf [Sample.str "p"; Sample.str "a"; Sample.str "b"])
           (App.fetchTables (Sample.loaded Sample.fresh "INSERT INTO b VALUES (1)")).2 ∧
  execTexts (App.executeQuery (Sample.loaded Sample.fresh "INSERT INTO b VALUES (1)")).2
  = selectsOf [Sample.str "p"; Sample.str "a"; Sample.str "b"]
    ++ pragmasOf [Sample.str "p"; Sample.str "a"; Sample.str "b"] ∧
  head (App.executeQuery (Sample.loaded Sample.fresh "INSERT INTO b VALUES (1)")).2
  = Some (DbRun "INSERT INTO b VALUES (1)").
Proof.
  split; [reflexivity |]. split; [| split; vm_compute; reflexivity].
  exact (proj1 (@executeQuery_calls_once Sample.host _ Sample.toy
                  (Sample.loaded Sample.fresh "INSERT INTO b VALUES (1)")
                  Sample.fresh eq_refl)).
Defined.


(** * The cells the view stores *)

Section ReadRowsFacts.
Context `{Js.Host} {E : Type} `{SqlJs.Database E}.

Lemma fetchTablesData_rows (e : E) td e1 log :
  Db.fetchTablesData e = (inr td, e1, log) → readFrom td.
Proof.
  rewrite fetchTablesData_loop. unfold Eff.bind at 1. unfold Db.exec at 1, Db.call.
  destruct (SqlJs.exec Db.catalogQuery e) as [[err|tableQuery] e0]; [done |].
  cbv beta iota.
  destruct (Eff.forEach readTable ∅ (Db.tableNamesOf tableQuery) e0)
    as [[r2 e2] log2] eqn:Hloop.
  intros [= -> <- _].
  eapply (forEach_result readFrom); [| | exact Hloop].
  - clear. intros acc table s b s' log Hacc. unfold readTable, Eff.bind, Db.exec, Db.call.
    destruct (SqlJs.exec (selectAllQuery table) s) as [[err|[|first rest]] s1] eqn:Hexec;
      [done | |]; intros [= <- _ _] key rows; unfold Js.assign;
      (destruct (String.eqb (Js.String table) "__proto__"); [apply Hacc |]);
      (destruct (decide (Js.String table = key)) as [<-|Hne];
       [rewrite lookup_insert_eq | rewrite lookup_insert_ne by done; apply Hacc]).
    + intros [= <-]. by left.
    + intros [= <-]. right. by exists table, s, first, rest, s1.
  - intros key rows. by rewrite lookup_empty.
Qed.
End ReadRowsFacts.

(** C3: what [fetchTables] and [executeQuery] store, cell by cell.  A row
    becomes a record with one entry for each column name, and the entry of a
    column holds the cell of that column, a byte array decoded to text by
    [TextDecoder] first: on the path of [fetchTables] through
    [convertSqlValue], on the query path of [executeQuery] in line.
    [fetchTables], when its reads return, stores one entry for each table the
    catalog reports, the records of the rows its select returned;
    [executeQuery] stores the records of the rows of the result sets.  So with
    an engine that keeps its side of the contract (one cell per column in
    every row, each a string, a number, null or a byte array), whatever
    happens to the view, every cell of every row in [tables] and in
    [queryResults] is a string, a number or null. *)
Theorem rows_hold_primitives `{Js.Host} {E : Type} `{SqlJs.Database E} :
  SqlJs.WellFormed →
  (∀ columns row i col,
     NoDup columns → columns !! i = Some col →
     App.resultRow columns row !! col = Some (decoded (Js.index row i)) ∧
     storedRow columns row !! col = Some (decoded (Js.index row i))) ∧
  (∀ columns row col,
     (is_Some (App.resultRow columns row !! col) ↔ col ∈ columns) ∧
     (is_Some (storedRow columns row !! col) ↔ col ∈ columns)) ∧
  (∀ (s : App.State E) e td e1 log,
     App.db s = Some e →
     Db.fetchTablesData e = (inr td, e1, log) →
     App.tables (App.fetchTables s).1.2 = td ∧
     (∃ tableQuery e0,
        SqlJs.exec Db.catalogQuery e = (inr tableQuery, e0) ∧
        ∀ key, is_Some (td !! key)
               ↔ key ≠ "__proto__" ∧ key ∈ map Js.String (Db.tableNamesOf tableQuery)) ∧
     ∀ key rows,
       td !! key = Some rows →
       rows = [] ∨
       ∃ name (e' : E) first rest e'',
         key = Js.String name ∧
         SqlJs.exec (selectAllQuery name) e' = (inr (first :: rest), e'') ∧
         rows = map (storedRow (SqlJs.columns first)) (SqlJs.values first)) ∧
  (∀ (s : App.State E) e r rs e1,
     App.db s = Some e →
     App.isDMLQuery (App.editorContent s) = false →
     SqlJs.exec (App.editorContent s) e = (inr (r :: rs), e1) →
     ∃ results,
       App.queryResults (App.executeQuery s).1.2 = Some results ∧
       ∀ key, results !! key =
                if String.eqb key "__proto__" then None
                else rowsOf <$> lastUnder key (r :: rs)) ∧
  ∀ (evs : list (App.Event E)), statePrimitive (App.run_events evs (App.initial E)).
Proof.
  intros Hwf. split_and!.
  - intros columns row i col Hnodup Hi. rewrite resultRow_stored.
    split; by apply storedRow_cell.
  - intros columns row col. rewrite resultRow_stored. split; apply storedRow_keys.
  - intros s e td e1 log Hdb Hread. split_and!.
    + by rewrite (fetchTables_run s e Hdb), Hread.
    + by apply (fetchTablesData_keys e td e1 log).
    + by apply (fetchTablesData_rows e td e1 log).
  - intros s e r rs e1 Hdb Hdml Hexec.
    destruct (executeQuery_stores s e r rs e1 Hdb Hdml Hexec) as [Hq _].
    eexists. split; [exact Hq |]. intros key. apply resultTables_lookup.
  - intros evs. unfold App.run_events.
    assert (statePrimitive (App.initial E)) as Hinit.
    { split; [apply empty_primitive | done]. }
    revert Hinit. generalize (App.initial E).
    induction evs as [|ev evs IH]; intros s Hs; simpl; [done |].
    apply IH. by apply step_primitive.
Qed.

(** The sample engine has a byte array in table [a]: when the database is
    loaded and a query has run, the view holds the text [hi] there, and the
    row of the query. *)
Lemma rows_hold_primitives_witness :
  let queried :=
    App.run_events
      [ App.DbReady Sample.fresh;
        App.EditorChange (Some "SELECT 1 AS x; SELECT 2 AS x"); App.RunSql ]
      (App.initial Sample.ToyDb) in
  statePrimitive queried ∧
  App.tables queried !! "a"
  = Some [ {[ "p_id" := Sample.num 1; "data" := Js.VString "hi" ]} ] ∧
  App.queryResults queried = Some {[ "x" := [ {[ "x" := Sample.num 2 ]} ] ]}.
Proof.
  split; [| split].
  - exact (proj2 (proj2 (proj2 (proj2 (rows_hold_primitives sample_well_formed))))
             [App.DbReady Sample.fresh;
              App.EditorChange (Some "SELECT 1 AS x; SELECT 2 AS x"); App.RunSql]).
  - vm_compute. reflexivity.
  - vm_compute. reflexivity.
Defined.
